(** * Item-code annotator (api/index.py): tables, lookup and line annotation

    A shallow embedding of the parsing, loading, query and annotation code of
    [api/index.py], followed by the properties of that code.

    Conventions of the embedding.
    - A Python [str] is the list of its Unicode code points ([list N]).
      String literals of the source are written [u "..."], the code points of
      the UTF-8 text between the quotes.
    - A Python [int] is a [Z]; [int(s)] is [Py.int], which answers [None] where
      Python raises [ValueError].  That includes the texts of more digits
      than the interpreter converts, [Py.max_str_digits], 4300 unless the
      deployment sets another limit.  [str(n)] is [Py.str_int], the decimal
      writing; [str] raises on an integer of more digits than the limit, and
      the request handler writes only the numbers [int] gave it, which are
      within it ([annotate_line_ids], [str_int_within_limit]).
    - A [dict] keyed by item id is a [gmap Z _].
    - [str.isspace], [\s], [\d] and [int] follow the Unicode tables of the
      interpreter (Unicode 14: 29 white-space characters, 66 runs of ten
      decimal digits).
    - The patterns of the source are terms of [Re.regex], matched by a
      backtracking matcher as [re] matches them.
    - The table files and their decoding are a parameter, [open_file]: what
      opening a path with an encoding and reading it line by line gives.
    - The logging calls of the table code are kept as a list of records;
      those of [query_item] and [index] are left out, and so are
      [setup_logging] and the route [save_config], which reads no table and
      answers a constant. *)

From Stdlib Require Import ZArith NArith List Lia Bool String Ascii.
From stdpp Require Import base option list gmap.

Local Open Scope N_scope.

(** ** Code points and string literals *)

Module Unicode.

(** Decoder used for the literals only: UTF-8 bytes to code points. *)
Fixpoint utf8_decode (bs : list N) : list N :=
  match bs with
  | [] => []
  | b0 :: r0 =>
    if b0 <? 128 then b0 :: utf8_decode r0
    else if b0 <? 224 then
      match r0 with
      | b1 :: r1 => ((b0 - 192) * 64 + (b1 - 128)) :: utf8_decode r1
      | _ => []
      end
    else if b0 <? 240 then
      match r0 with
      | b1 :: b2 :: r2 =>
        ((b0 - 224) * 4096 + (b1 - 128) * 64 + (b2 - 128)) :: utf8_decode r2
      | _ => []
      end
    else
      match r0 with
      | b1 :: b2 :: b3 :: r3 =>
        ((b0 - 240) * 262144 + (b1 - 128) * 4096 + (b2 - 128) * 64
         + (b3 - 128)) :: utf8_decode r3
      | _ => []
      end
  end.

Definition u (s : string) : list N :=
  utf8_decode (map N_of_ascii (list_ascii_of_string s)).
Arguments u : simpl never.

(** [str.isspace] of one character; the same set is [\s] of [re] on [str]
    patterns and what [str.strip()] removes. *)
Definition isspace (c : N) : bool :=
  ((9 <=? c) && (c <=? 13)) || ((28 <=? c) && (c <=? 32))
  || (c =? 133) || (c =? 160) || (c =? 5760)
  || ((8192 <=? c) && (c <=? 8202))
  || (c =? 8232) || (c =? 8233) || (c =? 8239) || (c =? 8287)
  || (c =? 12288).

(** First code point (the digit zero) of every run of ten decimal digits,
    general category Nd. *)
Definition decimal_zeros : list N :=
  [48; 1632; 1776; 1984; 2406; 2534; 2662; 2790; 2918; 3046; 3174; 3302;
   3430; 3558; 3664; 3792; 3872; 4160; 4240; 6112; 6160; 6470; 6608; 6784;
   6800; 6992; 7088; 7232; 7248; 42528; 43216; 43264; 43472; 43504; 43600;
   44016; 65296; 66720; 68912; 69734; 69872; 69942; 70096; 70384; 70736;
   70864; 71248; 71360; 71472; 71904; 72016; 72784; 73040; 73120; 92768;
   92864; 93008; 120782; 120792; 120802; 120812; 120822; 123200; 123632;
   125264; 130032].

(** Position of a digit in its run. *)
Definition offsets : list N := [0; 1; 2; 3; 4; 5; 6; 7; 8; 9].

Fixpoint decimal_in (zeros : list N) (c : N) : option N :=
  match zeros with
  | [] => None
  | z :: rest =>
    if (z <=? c) && (c <? z + 10) then Some (c - z) else decimal_in rest c
  end.

(** [unicodedata.decimal(c)], [None] when [c] is no decimal digit. *)
Definition decimal (c : N) : option N := decimal_in decimal_zeros c.

(** [\d] of [re] on [str] patterns. *)
Definition isdigit (c : N) : bool :=
  match decimal c with Some _ => true | None => false end.

(** [[0-9a-fA-F]]: ASCII only. *)
Definition ishex (c : N) : bool :=
  ((48 <=? c) && (c <=? 57)) || ((97 <=? c) && (c <=? 102))
  || ((65 <=? c) && (c <=? 70)).

End Unicode.

Export Unicode.

Abbreviation str := (list N) (only parsing).

(** ** Python built-ins used by the program *)

Module Py.

Definition is_empty {A} (l : list A) : bool :=
  match l with [] => true | _ => false end.

(** *** [str.strip()] *)

Fixpoint lstrip (s : str) : str :=
  match s with
  | [] => []
  | c :: r => if isspace c then lstrip r else s
  end.

Definition rstrip (s : str) : str := rev (lstrip (rev s)).

Definition strip (s : str) : str := rstrip (lstrip s).

(** *** [str.startswith], [in], [str.join] *)

Fixpoint startswith (p s : str) : bool :=
  match p, s with
  | [], _ => true
  | a :: p', b :: s' => (a =? b) && startswith p' s'
  | _ :: _, [] => false
  end.

(** [needle in hay] *)
Fixpoint contains (needle hay : str) : bool :=
  startswith needle hay
  || match hay with
     | [] => false
     | _ :: rest => contains needle rest
     end.

Fixpoint join (sep : str) (l : list str) : str :=
  match l with
  | [] => []
  | [x] => x
  | x :: rest => x ++ sep ++ join sep rest
  end.

(** *** [str.split(sep)], [sep] not empty

    Left to right, occurrences of [sep] do not overlap.  [skip] counts the
    characters of an occurrence still to be passed over; [cur] is the field
    being read, last character first. *)
Fixpoint split_from (sep : str) (skip : nat) (cur : str) (s : str)
  : list str :=
  match s with
  | [] => [rev cur]
  | c :: r =>
    match skip with
    | S k => split_from sep k cur r
    | O =>
      if startswith sep s
      then rev cur :: split_from sep (pred (length sep)) [] r
      else split_from sep 0 (c :: cur) r
    end
  end.

Definition split (sep s : str) : list str := split_from sep 0 [] s.

(** *** [int(s)] and [str(n)] *)

(** White space [int] tolerates around the number: its conversion maps
    every non-ASCII space to a blank and then skips C [isspace]
    characters, so the separators U+001C to U+001F are not tolerated. *)
Definition int_isspace (c : N) : bool :=
  isspace c && negb ((28 <=? c) && (c <=? 31)).

Fixpoint int_lstrip (s : str) : str :=
  match s with
  | [] => []
  | c :: r => if int_isspace c then int_lstrip r else s
  end.

(** Digits with single underscores between them. *)
Fixpoint int_body (acc : N) (after_digit : bool) (s : str) : option N :=
  match s with
  | [] => if after_digit then Some acc else None
  | c :: r =>
    match decimal c with
    | Some d => int_body (acc * 10 + d) true r
    | None =>
      if (c =? 95) && after_digit then int_body acc false r else None
    end
  end.

(** The conversion itself: white space around, a sign, the digits. *)
Definition int_unlimited (s : str) : option Z :=
  let t := rev (int_lstrip (rev (int_lstrip s))) in
  match t with
  | 43 :: r => Z.of_N <$> int_body 0 false r
  | 45 :: r => (fun n => (- Z.of_N n)%Z) <$> int_body 0 false r
  | _ => Z.of_N <$> int_body 0 false t
  end.

(** The interpreter converts no text of more digits than this to an
    integer, and no integer of more digits to a text: the default of
    [sys.int_info.default_max_str_digits]. *)
Definition max_str_digits : N := 4300.

(** The digits of a text; signs, underscores and white space do not
    count. *)
Fixpoint count_digits (s : str) : N :=
  match s with
  | [] => 0
  | c :: r => (if isdigit c then 1 else 0) + count_digits r
  end.

(** [int(s)]: [ValueError] on a text of too many digits as on a text that
    is no number. *)
Definition int (s : str) : option Z :=
  if count_digits s <=? max_str_digits then int_unlimited s else None.

(** Decimal digits of [n], most significant first; [fuel] bounds the number
    of digits. *)
Fixpoint str_digits (fuel : nat) (n : N) (acc : str) : str :=
  match fuel with
  | O => acc
  | S f =>
    let acc' := (48 + n mod 10) :: acc in
    if n / 10 =? 0 then acc' else str_digits f (n / 10) acc'
  end.

Definition str_N (n : N) : str := str_digits (S (N.to_nat (N.size n))) n [].

(** [str(z)], for an integer of [max_str_digits] digits at most; on a longer
    one [str] raises [ValueError], and [str_int] is still its decimal
    writing. *)
Definition str_int (z : Z) : str :=
  if (z <? 0)%Z then 45 :: str_N (Z.to_N (- z)) else str_N (Z.to_N z).

(** The line read so far, if any, as one element; [cur] holds it last
    character first. *)
Definition flush (cur : str) : list str :=
  match cur with [] => [] | _ => [rev cur] end.

End Py.

(** ** Regular expressions: the part of [re] the program uses

    Patterns are matched the way [re] matches them, by backtracking: a
    repetition is greedy, it first tries one more turn and gives turns back
    one by one when what follows fails.  The matcher is written in
    continuation style: [k] is what remains to be matched, applied to the
    groups captured so far and to the rest of the text. *)

Module Re.

Inductive regex :=
| Eps                          (* the empty pattern *)
| Chr (c : N)                  (* a literal character *)
| Cls (cls : N -> bool)        (* a character class *)
| Seq (r1 r2 : regex)          (* r1 r2 *)
| Star (r : regex)             (* r*, greedy *)
| Group (r : regex).           (* (r), a capturing group *)

Definition cat (rs : list regex) : regex := fold_right Seq Eps rs.

(** A literal text. *)
Definition Lit (p : str) : regex := cat (map Chr p).

(** [r+] *)
Definition Plus (r : regex) : regex := Seq r (Star r).

Section Matcher.

Context {A : Type}.

(** [star body k fuel s groups]: [body] any number of times, then [k].  One
    more turn is tried first; a turn that consumes nothing is not taken.
    Every turn taken shortens the text, so [fuel] above its length is never
    used up. *)
Fixpoint star (body : str -> list str -> (list str -> str -> option A)
                      -> option A)
         (k : list str -> str -> option A)
         (fuel : nat) (s : str) (groups : list str) : option A :=
  match fuel with
  | O => k groups s
  | S f =>
    match body s groups
               (fun groups' s' =>
                  if (length s' <? length s)%nat
                  then star body k f s' groups' else None) with
    | Some a => Some a
    | None => k groups s
    end
  end.

(** The groups are listed in the order in which they close; the patterns
    of the program have no group inside a group or a repetition. *)
Fixpoint bt (r : regex) (s : str) (groups : list str)
         (k : list str -> str -> option A) : option A :=
  match r with
  | Eps => k groups s
  | Chr c =>
    match s with
    | x :: s' => if c =? x then k groups s' else None
    | [] => None
    end
  | Cls cls =>
    match s with
    | x :: s' => if cls x then k groups s' else None
    | [] => None
    end
  | Seq r1 r2 => bt r1 s groups (fun groups' s' => bt r2 s' groups' k)
  | Star r1 => star (bt r1) k (S (length s)) s groups
  | Group r1 =>
    bt r1 s groups
       (fun groups' s' =>
          k (groups' ++ [take (length s - length s') s]) s')
  end.

End Matcher.

(** [re.match(r, s)]: the groups and the text after the match. *)
Definition match_ (r : regex) (s : str) : option (list str * str) :=
  bt r s [] (fun groups rest => Some (groups, rest)).

(** [m.group(i)], [i] from 1. *)
Definition group (i : nat) (m : list str * str) : str := nth (pred i) m.1 [].

(** [re.findall(r, s)] for a pattern without groups: the matches found
    from left to right, the search going on where a match ends, or one
    character further where there is none or an empty one. *)
Fixpoint findall_from (r : regex) (fuel : nat) (s : str) : list str :=
  match fuel with
  | O => []
  | S f =>
    let next := match s with [] => [] | _ :: s' => findall_from r f s' end in
    match match_ r s with
    | Some (_, rest) =>
      match take (length s - length rest) s with
      | [] => [] :: next
      | m => m :: findall_from r f rest
      end
    | None => next
    end
  end.

Definition findall (r : regex) (s : str) : list str :=
  findall_from r (S (length s)) s.

End Re.


(** ** Data model *)

(** The [type_hint] of a generic item: one of five literals of the source. *)
Inductive PartType := MainWeapon | Magazine | Muzzle | Grip | Sight.

Definition type_hint_text (t : PartType) : str :=
  match t with
  | MainWeapon => u "主件"
  | Magazine => u "弹匣"
  | Muzzle => u "枪口"
  | Grip => u "握把"
  | Sight => u "机瞄"
  end.

Definition is_main (t : PartType) : bool :=
  match t with MainWeapon => true | _ => false end.

(** [{"name": ..., "type": ..., "parent": ...}] *)
Record ItemInfo := mkItem {
  item_name : str;
  item_type : PartType;
  item_parent : option Z
}.

(** [{"name": ..., "hex_code": ...}] *)
Record SubwayInfo := mkSubway {
  subway_name : str;
  hex_code : str
}.

(** The three dictionaries [parse_generic_code_table] builds. *)
Record GenericTables := mkGeneric {
  parsed_items : gmap Z ItemInfo;
  main_weapons : gmap Z str;
  sub_to_main : gmap Z Z
}.

(** The module-level dictionaries. *)
Record Globals := mkGlobals {
  item_dict : gmap Z ItemInfo;
  main_weapon_dict : gmap Z str;
  sub_to_main_dict : gmap Z Z;
  subway_item_dict : gmap Z SubwayInfo
}.

(** ** Files, exceptions and the log *)

Inductive Encoding := utf_8 | gbk.

Inductive TablePath := code_table_path | subway_code_table_path.

(** An exception, by its class: the two classes the handlers name, and
    [Exception] for an exception of any other class derived from it (a
    [PermissionError], say). *)
Inductive Exn := FileNotFoundError | UnicodeDecodeError | Exception.

(** [except c] takes [e]. *)
Definition issubclass (e c : Exn) : bool :=
  match c, e with
  | Exception, _ => true
  | FileNotFoundError, FileNotFoundError => true
  | UnicodeDecodeError, UnicodeDecodeError => true
  | _, _ => false
  end.

(** What [open(path, 'r', encoding=...)] followed by [for line in file] does:
    [open] raises, or the iteration yields the lines of [text] and then,
    where [failure] is not [None], raises it (a byte sequence further down
    the file that the encoding cannot decode, or a failing read). *)
Inductive Opened :=
| OpenRaises (e : Exn)
| Reads (text : str) (failure : option Exn).

(** What a call does: it returns a value or an exception leaves it. *)
Inductive Result (A : Type) :=
| Returns (a : A)
| Raises (e : Exn).
Arguments Returns {A} a.
Arguments Raises {A} e.

(** One constructor per logging call of the table code. *)
Inductive LogRecord :=
| GenericBadFormat (line : str)      (* warning: fewer than four fields *)
| GenericBadId (line : str)          (* warning: an id is no integer *)
| GenericFileNotFound                (* error *)
| GenericUnknownError (e : Exn)      (* exception *)
| SubwayBadId (line : str)           (* warning *)
| SubwayNoMatch (line : str)         (* warning: pattern does not match *)
| SubwayFileNotFound                 (* error *)
| SubwayUnknownError (e : Exn)       (* exception *)
| GenericGbkFallback                 (* warning: UTF-8 failed, trying GBK *)
| GenericLoadError (e : Exn)         (* error *)
| SubwayGbkFallback                  (* warning: UTF-8 failed, trying GBK *)
| SubwayLoadError (e : Exn)          (* error *)
| LoadDone (items mains subways : nat). (* info: the three sizes *)

(** [for line in file]: every line with its terminator, the last line also
    without one; [cur] is the line being read, last character first. *)
Fixpoint iter_lines (cur : str) (text : str) : list str :=
  match text with
  | [] => Py.flush cur
  | c :: r =>
    if c =? 10 then rev (c :: cur) :: iter_lines [] r
    else iter_lines (c :: cur) r
  end.

(** ** Generic table parser *)

(** The [if]/[elif] chain over the name. *)
Definition classify (name : str) : PartType :=
  if existsb (fun k => Py.contains k name) [u "弹匣"] then Magazine
  else if existsb (fun k => Py.contains k name) [u "枪口"] then Muzzle
  else if existsb (fun k => Py.contains k name) [u "握把"] then Grip
  else if existsb (fun k => Py.contains k name)
            [u "瞄具"; u "瞄准镜"; u "机瞄"] then Sight
  else MainWeapon.

Definition empty_generic : GenericTables := mkGeneric ∅ ∅ ∅.

(** Body of the loop of [parse_generic_code_table] for one line of the
    file; the state is the three dictionaries and the records logged. *)
Definition generic_line (st : GenericTables * list LogRecord) (raw : str)
  : GenericTables * list LogRecord :=
  let '(t, log) := st in
  let line := Py.strip raw in
  if Py.is_empty line then st
  else
    let parts := map Py.strip (Py.split (u " -- ") line) in
    if (length parts <? 4)%nat then (t, log ++ [GenericBadFormat line])
    else
      match Py.int (nth 0 parts []), Py.int (nth 1 parts []) with
      | Some id1, Some id2 =>
        let name := nth 2 parts [] in
        let type_hint := classify name in
        let parent_id := if is_main type_hint then None else Some id1 in
        (mkGeneric
           (<[id2 := mkItem name type_hint parent_id]> (parsed_items t))
           (if is_main type_hint
            then <[id2 := name]> (main_weapons t) else main_weapons t)
           (if is_main type_hint
            then sub_to_main t else <[id2 := id1]> (sub_to_main t)),
         log)
      | _, _ => (t, log ++ [GenericBadId line])
      end.

(** ** Subway table parser *)

(** The class of the name group: any character but the closing bracket. *)
Definition not_close (c : N) : bool := negb (c =? 93).

(** [\s*] and [\d+] *)
Definition spaces : Re.regex := Re.Star (Re.Cls isspace).
Definition digits : Re.regex := Re.Plus (Re.Cls isdigit).

(** The compiled pattern
    [\{(\d+)\}--\{\d+\}--\[([^\]]+)\]--\[(0x[0-9a-fA-F]+)\]]. *)
Definition subway_pattern : Re.regex :=
  Re.cat [Re.Chr 123; Re.Group digits; Re.Lit (u "}--{"); digits;
          Re.Lit (u "}--["); Re.Group (Re.Plus (Re.Cls not_close));
          Re.Lit (u "]--[");
          Re.Group (Re.Seq (Re.Lit (u "0x")) (Re.Plus (Re.Cls ishex)));
          Re.Chr 93].

(** Body of the loop of [parse_subway_code_table_file]. *)
Definition subway_line (st : gmap Z SubwayInfo * list LogRecord) (raw : str)
  : gmap Z SubwayInfo * list LogRecord :=
  let '(t, log) := st in
  let line := Py.strip raw in
  if Py.is_empty line then st
  else
    match Re.match_ subway_pattern line with
    | Some m =>
      match Py.int (Re.group 1 m) with
      | Some item_id =>
        (<[item_id := mkSubway (Re.group 2 m) (Re.group 3 m)]> t, log)
      | None => (t, log ++ [SubwayBadId line])
      end
    | None => (t, log ++ [SubwayNoMatch line])
    end.

(** ** Table loader *)

Section Loader.

(** The two table files as the process finds them. *)
Variable open_file : TablePath -> Encoding -> Opened.

(** The [try] block runs until the file is exhausted or an exception
    leaves it; the dictionaries built so far are kept.  The handlers are
    tried in the order of the source and both fall through to the
    [return]. *)
Definition parse_generic_code_table (file_path : TablePath)
    (encoding : Encoding) : Result GenericTables * list LogRecord :=
  let '(t, log, exc) :=
    match open_file file_path encoding with
    | OpenRaises e => (empty_generic, [], Some e)
    | Reads text failure =>
      (fold_left generic_line (iter_lines [] text) (empty_generic, []),
       failure)
    end in
  match exc with
  | None => (Returns t, log)
  | Some e =>
    if issubclass e FileNotFoundError
    then (Returns t, log ++ [GenericFileNotFound])
    else if issubclass e Exception
    then (Returns t, log ++ [GenericUnknownError e])
    else (Raises e, log)
  end.

Definition parse_subway_code_table_file (file_path : TablePath)
    (encoding : Encoding) : Result (gmap Z SubwayInfo) * list LogRecord :=
  let '(t, log, exc) :=
    match open_file file_path encoding with
    | OpenRaises e => (∅, [], Some e)
    | Reads text failure =>
      (fold_left subway_line (iter_lines [] text) (∅, []), failure)
    end in
  match exc with
  | None => (Returns t, log)
  | Some e =>
    if issubclass e FileNotFoundError
    then (Returns t, log ++ [SubwayFileNotFound])
    else if issubclass e Exception
    then (Returns t, log ++ [SubwayUnknownError e])
    else (Raises e, log)
  end.

(** [d.update(temp)] on the three generic dictionaries. *)
Definition update_generic (g : Globals) (t : GenericTables) : Globals :=
  mkGlobals (parsed_items t ∪ item_dict g)
            (main_weapons t ∪ main_weapon_dict g)
            (sub_to_main t ∪ sub_to_main_dict g)
            (subway_item_dict g).

Definition update_subway (g : Globals) (t : gmap Z SubwayInfo) : Globals :=
  mkGlobals (item_dict g) (main_weapon_dict g) (sub_to_main_dict g)
            (t ∪ subway_item_dict g).

(** First [try] statement of [load_code_table]: the globals and the log
    after it, and the exception that leaves it, if any (one raised inside
    the [except UnicodeDecodeError] handler is not caught). *)
Definition load_generic (g : Globals)
  : Globals * list LogRecord * option Exn :=
  match parse_generic_code_table code_table_path utf_8 with
  | (Returns t, log) => (update_generic g t, log, None)
  | (Raises e, log) =>
    if issubclass e UnicodeDecodeError then
      match parse_generic_code_table code_table_path gbk with
      | (Returns t, log') =>
        (update_generic g t, log ++ [GenericGbkFallback] ++ log', None)
      | (Raises e', log') =>
        (g, log ++ [GenericGbkFallback] ++ log', Some e')
      end
    else if issubclass e Exception
    then (g, log ++ [GenericLoadError e], None)
    else (g, log, Some e)
  end.

(** Second [try] statement. *)
Definition load_subway (g : Globals)
  : Globals * list LogRecord * option Exn :=
  match parse_subway_code_table_file subway_code_table_path utf_8 with
  | (Returns t, log) => (update_subway g t, log, None)
  | (Raises e, log) =>
    if issubclass e UnicodeDecodeError then
      match parse_subway_code_table_file subway_code_table_path gbk with
      | (Returns t, log') =>
        (update_subway g t, log ++ [SubwayGbkFallback] ++ log', None)
      | (Raises e', log') =>
        (g, log ++ [SubwayGbkFallback] ++ log', Some e')
      end
    else if issubclass e Exception
    then (g, log ++ [SubwayLoadError e], None)
    else (g, log, Some e)
  end.

(** [load_code_table()]: the globals it leaves, what it logs, and the
    exception that leaves it, if any. *)
Definition load_code_table : Globals * list LogRecord * option Exn :=
  let g0 := mkGlobals ∅ ∅ ∅ ∅ in
  match load_generic g0 with
  | (g1, log1, Some e) => (g1, log1, Some e)
  | (g1, log1, None) =>
    match load_subway g1 with
    | (g2, log2, Some e) => (g2, log1 ++ log2, Some e)
    | (g2, log2, None) =>
      (g2,
       log1 ++ log2
       ++ [LoadDone (size (item_dict g2)) (size (main_weapon_dict g2))
                    (size (subway_item_dict g2))],
       None)
    end
  end.

(** The dictionaries the request handler reads: those left by the call of
    [load_code_table] at import time. *)
Definition loaded : Globals := load_code_table.1.1.

End Loader.

(** ** Query *)

(** One turn of the loop of [query_item]: the text appended for [code].
    A dictionary stored in [item_dict] or [subway_item_dict] is never empty,
    so the tests [if item_info] and [elif subway_info] ask whether the key
    is present. *)
Definition resolve (g : Globals) (code : Z) : str :=
  match item_dict g !! code with
  | Some item_info => item_name item_info
  | None =>
    match subway_item_dict g !! code with
    | Some subway_info =>
      subway_name subway_info ++ u " (地铁, " ++ hex_code subway_info ++ u ")"
    | None => u "未找到ID " ++ Py.str_int code
    end
  end.

Definition query_item (g : Globals) (codes : list Z) : str :=
  Py.join (u ", ")
          (fold_left (fun results code => results ++ [resolve g code])
                     codes []).

(** ** Line annotator *)

(** The pattern of the leading ids: white space, then group 1, a [\d+]
    followed by any number of [\s*,\s*\d+].  (The pattern starts with a
    caret, which [re.match] implies.) *)
Definition id_pattern : Re.regex :=
  Re.Seq spaces
         (Re.Group
            (Re.Seq digits
                    (Re.Star (Re.cat [spaces; Re.Chr 44; spaces; digits])))).

(** The conditional expression that builds [output_line]: the ids, then
    [ #] and the comment unless the comment is empty. *)
Definition output_line (id_string comment : str) : str :=
  if Py.is_empty comment then id_string else id_string ++ u " #" ++ comment.

(** Body of the loop of [index] over the lines of the input: the text
    appended to [results] for [line]. *)
Definition annotate_line (g : Globals) (line : str) : str :=
  let stripped_line := Py.strip line in
  if Py.is_empty stripped_line then []
  else
    match Re.match_ id_pattern stripped_line with
    | None => stripped_line
    | Some id_match =>
      let numbers_str := Re.group 1 id_match in
      match mapM Py.int (Re.findall digits numbers_str) with
      | None => stripped_line                  (* except ValueError *)
      | Some numbers =>
        if Py.is_empty numbers then stripped_line
        else
          let final_comment_from_bot := query_item g numbers in
          let id_string := Py.join (u ", ") (map Py.str_int numbers) in
          Py.strip (output_line id_string final_comment_from_bot)
      end
    end.

Inductive Method := GET | POST.

(** The two values [index] hands to the template. *)
Record Rendered := mkRendered {
  final_text : str;
  error_message : str
}.

Definition tables_not_loaded : str :=
  u "物品代码表和地铁美化代码表均未加载，请联系管理员检查服务器日志。".

(** The [else] branch of [index]: the loop over the lines of the input and
    the join of the results.  (The source splits the input before it tests
    the dictionaries; the lines are used in this branch only.) *)
Definition annotate (g : Globals) (user_input : str) : str :=
  let lines := Py.split [10] user_input in
  let results :=
    fold_left (fun results line => results ++ [annotate_line g line])
              lines [] in
  Py.join [10] results.

(** The request handler [index], [g] being the module-level dictionaries
    and [user_input] the form field. *)
Definition index (g : Globals) (method : Method) (user_input : str)
  : Rendered :=
  match method with
  | GET => mkRendered [] []
  | POST =>
    if (size (item_dict g) =? 0)%nat && (size (subway_item_dict g) =? 0)%nat
    then mkRendered [] tables_not_loaded
    else mkRendered (annotate g user_input) []
  end.

(** ** The classification as the specification words it

    An ordered list of keyword classes; the first class one of whose
    keywords occurs in the name gives the part type, and a name with no
    keyword is a main weapon. *)

Definition keyword_classes : list (list str * PartType) :=
  [([u "弹匣"], Magazine);
   ([u "枪口"], Muzzle);
   ([u "握把"], Grip);
   ([u "瞄具"; u "瞄准镜"; u "机瞄"], Sight)].

Definition has_keyword (name : str) (keywords : list str) : Prop :=
  ∃ k, In k keywords ∧ Py.contains k name = true.

(** [first_class classes name t]: [t] is the type of the first class with a
    keyword in [name], [MainWeapon] when there is none. *)
Inductive first_class (name : str)
  : list (list str * PartType) -> PartType -> Prop :=
| fc_default : first_class name [] MainWeapon
| fc_here ks t rest :
    has_keyword name ks -> first_class name ((ks, t) :: rest) t
| fc_later ks t rest t' :
    ~ has_keyword name ks -> first_class name rest t' ->
    first_class name ((ks, t) :: rest) t'.

(** ** Table files and inputs of the scenarios *)

Definition lines_text (lines : list str) : str := Py.join [10] lines.

(** The tables of the scenario of the specification, as it writes them: the
    two generic lines have three fields. *)
Definition spec_files (p : TablePath) (e : Encoding) : Opened :=
  match p with
  | code_table_path =>
    Reads (lines_text [u "1 -- 101 -- AK47步枪"; u "101 -- 201 -- AK47弹匣"])
          None
  | subway_code_table_path =>
    Reads (lines_text [u "{501}--{0}--[金色涂装]--[0xFFD700]"]) None
  end.

(** The same tables with a fourth field on the generic lines. *)
Definition scenario_files (p : TablePath) (e : Encoding) : Opened :=
  match p with
  | code_table_path =>
    Reads (lines_text [u "1 -- 101 -- AK47步枪 -- x";
                       u "101 -- 201 -- AK47弹匣 -- x"]) None
  | subway_code_table_path =>
    Reads (lines_text [u "{501}--{0}--[金色涂装]--[0xFFD700]"]) None
  end.

Definition scenario_input : str :=
  lines_text [u "101"; u "201"; u "501"; u "999"; u "hello world"].

Definition scenario_output : str :=
  lines_text [u "101 #AK47步枪"; u "201 #AK47弹匣";
              u "501 #金色涂装 (地铁, 0xFFD700)"; u "999 #未找到ID 999";
              u "hello world"].

(** A generic table whose one line has an empty name field. *)
Definition blank_name_files (p : TablePath) (e : Encoding) : Opened :=
  match p with
  | code_table_path => Reads (lines_text [u "1 -- 123 --  -- x"]) None
  | subway_code_table_path => Reads [] None
  end.

(** Neither table file exists. *)
Definition missing_files (p : TablePath) (e : Encoding) : Opened :=
  OpenRaises FileNotFoundError.

(** A generic table stored in GBK: read as UTF-8 the first line already
    fails to decode, read as GBK the file has one item. *)
Definition gbk_files (p : TablePath) (e : Encoding) : Opened :=
  match p, e with
  | code_table_path, utf_8 => Reads [] (Some UnicodeDecodeError)
  | code_table_path, gbk =>
    Reads (lines_text [u "1 -- 101 -- AK47步枪 -- x"]) None
  | subway_code_table_path, _ =>
    Reads (lines_text [u "{501}--{0}--[金色涂装]--[0xFFD700]"]) None
  end.

(** A run of digits one longer than [int] converts. *)
Definition overlong_id : str :=
  repeat 49 (S (N.to_nat Py.max_str_digits)).

(** A generic table whose one item has a negative id. *)
Definition negative_id_files (p : TablePath) (e : Encoding) : Opened :=
  match p with
  | code_table_path => Reads (lines_text [u "1 -- -5 -- knife -- x"]) None
  | subway_code_table_path => Reads [] None
  end.

(** A table file that is read without failure and holds [text], whatever
    the path and the encoding asked for. *)
Definition table_file (text : str) (p : TablePath) (e : Encoding) : Opened :=
  Reads text None.

(** ** What the patterns of the program come to

    The patterns are sequences of literals and greedy repetitions of a
    character class.  What follows a repetition either cannot fail (an
    optional further id) or starts with a character outside the class, so
    the matcher never gains by giving a character back: every repetition
    takes the longest run.  The functions below read a text in one pass
    that way; they are proved equal to the matcher on the patterns of the
    program and serve to reason about them. *)

(** Longest prefix of characters in the class, and what follows it. *)
Fixpoint span (cls : N -> bool) (s : str) : str * str :=
  match s with
  | [] => ([], [])
  | c :: r =>
    if cls c then let '(a, b) := span cls r in (c :: a, b) else ([], s)
  end.

(** A literal: the rest of the input after it. *)
Fixpoint lit (p s : str) : option str :=
  match p, s with
  | [], _ => Some s
  | a :: p', b :: s' => if a =? b then lit p' s' else None
  | _ :: _, [] => None
  end.

(** [cls+]: the run must not be empty. *)
Definition plus (cls : N -> bool) (s : str) : option (str * str) :=
  match span cls s with
  | ([], _) => None
  | (a, b) => Some (a, b)
  end.

(** [re.findall] of [\d+]: the maximal runs of digits, left to right;
    [cur] is the run being read. *)
Fixpoint findall_digits_from (cur : str) (s : str) : list str :=
  match s with
  | [] => Py.flush cur
  | c :: r =>
    if isdigit c then findall_digits_from (c :: cur) r
    else Py.flush cur ++ findall_digits_from [] r
  end.

Definition findall_digits (s : str) : list str := findall_digits_from [] s.

(** The subway pattern read in one pass: its three groups and the text
    after the match. *)
Definition subway_scan (s : str) : option (str * str * str * str) :=
  s1 ← lit (u "{") s;
  '(g1, s2) ← plus isdigit s1;
  s3 ← lit (u "}--{") s2;
  '(_, s4) ← plus isdigit s3;
  s5 ← lit (u "}--[") s4;
  '(g2, s6) ← plus not_close s5;
  s7 ← lit (u "]--[") s6;
  s8 ← lit (u "0x") s7;
  '(h, s9) ← plus ishex s8;
  s10 ← lit (u "]") s9;
  Some (g1, g2, u "0x" ++ h, s10).

(** The repetition of [\s*,\s*\d+]: the text it matches and what follows it.
    Every turn consumes at least two characters; [fuel] bounds the turns. *)
Fixpoint ids_more (fuel : nat) (s : str) : str * str :=
  match fuel with
  | O => ([], s)
  | S f =>
    let '(ws1, s1) := span isspace s in
    match lit (u ",") s1 with
    | Some s2 =>
      let '(ws2, s3) := span isspace s2 in
      match plus isdigit s3 with
      | Some (ds, s4) =>
        let '(more, rest) := ids_more f s4 in
        (ws1 ++ u "," ++ ws2 ++ ds ++ more, rest)
      | None => ([], s)
      end
    | None => ([], s)
    end
  end.

(** The pattern of the leading ids read in one pass: group 1 and the text
    after the match, [None] when there is no match. *)
Definition leading_ids (s : str) : option (str * str) :=
  let '(_, s1) := span isspace s in
  match plus isdigit s1 with
  | Some (ds, s2) =>
    let '(more, rest) := ids_more (length s2) s2 in Some (ds ++ more, rest)
  | None => None
  end.

(** ** Notions used to state the properties *)

(** A token of [findall_digits]: a run of digits that is not empty. *)
Definition token (t : list N) : Prop := t ≠ [] ∧ forallb isdigit t = true.

(** The digits [str] writes are ASCII digits. *)
Definition ascii_digit (c : N) : bool := (48 <=? c) && (c <=? 57).

(** A run of digits short enough for [int]. *)
Definition within_limit (t : list N) : bool :=
  N.of_nat (length t) <=? Py.max_str_digits.

(** What [int] gives on a run of digits it converts: an integer that is not
    negative and has no more digits than the limit, so that [str] writes
    it. *)
Definition convertible (n : Z) : Prop :=
  (0 <= n < 10 ^ Z.of_N Py.max_str_digits)%Z.

(** What follows the ids in a line the annotator wrote: nothing, or [ #] and
    the comment. *)
Definition comment_tail (tail : list N) : Prop :=
  tail = [] ∨ ∃ c, tail = 32 :: 35 :: c.

(** The text after the first id of a canonical id string: every further id
    behind a comma and a blank. *)
Definition more_ids (ts : list (list N)) : list N :=
  flat_map (fun t => 44 :: 32 :: t) ts.

(** A text without line feed. *)
Definition one_line (s : list N) : Prop := Forall (fun c => c ≠ 10) s.

(** What the parsers guarantee of the names they store: a generic name is a
    stripped field of one table line, a subway name and its code are parts
    of one table line. *)
Definition names_ok (m : gmap Z ItemInfo) : Prop :=
  ∀ id info, m !! id = Some info ->
    one_line (item_name info) ∧ Py.strip (item_name info) = item_name info.

Definition subway_ok (m : gmap Z SubwayInfo) : Prop :=
  ∀ id info, m !! id = Some info ->
    one_line (subway_name info) ∧ one_line (hex_code info).

Definition tidy (g : Globals) : Prop :=
  names_ok (item_dict g) ∧ subway_ok (subway_item_dict g).

(** The records the parsers log: everything but the records of the loader
    itself. *)
Definition parser_record (r : LogRecord) : Prop :=
  match r with
  | GenericGbkFallback | SubwayGbkFallback
  | GenericLoadError _ | SubwayLoadError _ | LoadDone _ _ _ => False
  | _ => True
  end.

(** What [gbk_files] stands for: the generic table raises the decoding error
    when read as UTF-8, and read as GBK it parses to item 101. *)
Definition open_file_decodes_gbk_only : Prop :=
  gbk_files code_table_path utf_8 = Reads [] (Some UnicodeDecodeError)
  ∧ ∃ t, parse_generic_code_table gbk_files code_table_path gbk
         = (Returns t, [])
         ∧ parsed_items t !! 101%Z
           = Some (mkItem (u "AK47步枪") MainWeapon None).

(** A continuation of the matcher that fails on every text that starts in
    the class: a repetition of the class in front of it gives nothing
    back. *)
Definition stops_at {A} (cls : N -> bool)
           (k : list (list N) -> list N -> option A) : Prop :=
  ∀ x r g, cls x = true -> k g (x :: r) = None.

(** One further id of the pattern of the leading ids. *)
Definition further_id : Re.regex :=
  Re.cat [spaces; Re.Chr 44; spaces; digits].

(** The three generic dictionaries agree: the type of an item is the one its
    name gives; a main weapon has no parent and its name is in the
    dictionary of the main weapons; any other part has a parent, the one
    the dictionary of the parts gives. *)
Definition generic_consistent (items : gmap Z ItemInfo) (mains : gmap Z str)
           (subs : gmap Z Z) : Prop :=
  ∀ id info, items !! id = Some info ->
    item_type info = classify (item_name info)
    ∧ match item_parent info with
      | None => item_type info = MainWeapon
                ∧ mains !! id = Some (item_name info)
      | Some parent => item_type info ≠ MainWeapon
                       ∧ subs !! id = Some parent
      end.

(** A subway record as the pattern lets it through: an id that is not
    negative, a name that is not empty and holds no closing bracket, a code
    made of [0x] and hexadecimal digits. *)
Definition subway_record_ok (id : Z) (info : SubwayInfo) : Prop :=
  (0 <= id)%Z
  ∧ subway_name info ≠ []
  ∧ forallb not_close (subway_name info) = true
  ∧ ∃ h, hex_code info = u "0x" ++ h ∧ h ≠ [] ∧ forallb ishex h = true.

(** The texts the subway pattern matches at their start: two ids between
    braces, a name and a code between brackets, double hyphens between
    the four, anything after the last bracket. *)
Definition subway_form (s : str) : Prop :=
  ∃ g1 d g2 h rest,
    s = u "{" ++ g1 ++ u "}--{" ++ d ++ u "}--[" ++ g2 ++ u "]--[0x" ++ h
        ++ u "]" ++ rest
    ∧ token g1 ∧ token d
    ∧ g2 ≠ [] ∧ forallb not_close g2 = true
    ∧ h ≠ [] ∧ forallb ishex h = true.

(** The fields of a generic table line as the parser cuts them. *)
Definition generic_fields (raw : str) : list str :=
  map Py.strip (Py.split (u " -- ") (Py.strip raw)).

(** * Properties *)

(** ** The built-ins and the patterns on sample inputs *)

Example strip_sample :
  Py.strip (u "  12 ,  34   some note ") = u "12 ,  34   some note"
  ∧ Py.strip [32; 97; 32; 28; 12288] = [97].
Proof. vm_compute. split; reflexivity. Qed.

Example split_sample :
  Py.split (u " -- ") (u "1 -- 123 --  -- x") = [u "1"; u "123"; []; u "x"]
  ∧ Py.split (u " -- ") (u "a -- -- b") = [u "a"; u "-- b"]
  ∧ Py.split (u " -- ") [] = [[]]
  ∧ Py.split [10] [97; 10; 10; 98; 10] = [[97]; []; [98]; []].
Proof. vm_compute. repeat split. Qed.

Example int_sample :
  map Py.int [u "007"; u " 5 "; u "-5"; u "+5"; u "1_0"; u "１２"]
  = [Some 7; Some 5; Some (-5); Some 5; Some 10; Some 12]%Z
  ∧ map Py.int [u ""; u "+"; u "- 5"; u "1__0"; u "_1"; u "1 2"; u "0x10";
                [28; 53]]
    = [None; None; None; None; None; None; None; None].
Proof. vm_compute. split; reflexivity. Qed.

Example str_sample :
  map Py.str_int [0; 7; 10; 123; -5; 4294967296]%Z
  = [u "0"; u "7"; u "10"; u "123"; u "-5"; u "4294967296"].
Proof. vm_compute. reflexivity. Qed.

Example id_pattern_sample :
  Re.match_ id_pattern (u "12 ,  34   some note")
  = Some ([u "12 ,  34"], u "   some note")
  ∧ Re.match_ id_pattern (u "123abc") = Some ([u "123"], u "abc")
  ∧ Re.match_ id_pattern (u "12,34,") = Some ([u "12,34"], u ",")
  ∧ Re.match_ id_pattern (u "12 , , 3") = Some ([u "12"], u " , , 3")
  ∧ Re.match_ id_pattern (u "１２，3") = Some ([u "１２"], u "，3")
  ∧ Re.match_ id_pattern (u "x 1") = None
  ∧ Re.match_ id_pattern (u ", 1") = None.
Proof. vm_compute. repeat split. Qed.

Example findall_sample :
  Re.findall digits (u "12 ,  34") = [u "12"; u "34"]
  ∧ Re.findall digits (u "007,１２") = [u "007"; u "１２"].
Proof. vm_compute. split; reflexivity. Qed.

Example subway_pattern_sample :
  Re.match_ subway_pattern (u "{501}--{0}--[金色涂装]--[0xFFD700], // gold")
  = Some ([u "501"; u "金色涂装"; u "0xFFD700"], u ", // gold")
  ∧ Re.match_ subway_pattern (u "{5}--{}--[a]--[0x1]") = None
  ∧ Re.match_ subway_pattern (u "{5}--{0}--[]--[0x1]") = None
  ∧ Re.match_ subway_pattern (u "{5}--{0}--[a]--[0X1]") = None
  ∧ Re.match_ subway_pattern (u "{5}--{0}--[a]--[0xFg]") = None
  ∧ Re.match_ subway_pattern (u "{5}--{0}--[a]]--[0x1]") = None
  ∧ Re.match_ subway_pattern (u " {5}--{0}--[a]--[0x1]") = None.
Proof. vm_compute. repeat split. Qed.

(** A repetition gives characters back when what follows needs them, as
    [re] does (the patterns of the program never need it). *)
Example backtracking_sample :
  Re.match_ (Re.cat [Re.Group (Re.Star (Re.Cls isdigit)); Re.Chr 49])
            (u "2111x")
  = Some ([u "211"], u "x").
Proof. vm_compute. reflexivity. Qed.

(** ** Characters *)

Section CharFacts.

Lemma decimal_in_inv zeros c d :
  decimal_in zeros c = Some d ->
  ∃ z, In z zeros ∧ c = z + d ∧ In d offsets.
Proof.
  induction zeros as [|z rest IH]; simpl; [discriminate|].
  destruct ((z <=? c) && (c <? z + 10)) eqn:E.
  - intros [= <-]. apply andb_true_iff in E as [H1 H2].
    apply N.leb_le in H1. apply N.ltb_lt in H2.
    exists z. split; [now left|]. split; [lia|].
    assert (Hk : c - z < 10) by lia.
    unfold offsets.
    destruct (c - z) as [|p] eqn:Ep; [now left|].
    do 9 (destruct p as [p|p|]; simpl; try lia; auto 12).
  - intros H. destruct (IH H) as (z' & Hin & Hc & Hd).
    exists z'. auto.
Qed.

(** A boolean property checked on the 660 decimal digits holds of every
    character [\d] accepts. *)
Lemma digits_forall (P : N -> bool) :
  forallb (fun z => forallb (fun k => P (z + k)) offsets) decimal_zeros
  = true ->
  ∀ c, isdigit c = true -> P c = true.
Proof.
  intros Hall c Hc. unfold isdigit in Hc.
  destruct (decimal c) as [d|] eqn:Hd; [|discriminate].
  destruct (decimal_in_inv _ _ _ Hd) as (z & Hz & -> & Hk).
  rewrite forallb_forall in Hall. specialize (Hall z Hz).
  rewrite forallb_forall in Hall. now apply Hall.
Qed.

Lemma digit_not_space c : isdigit c = true -> isspace c = false.
Proof.
  intros H. apply negb_true_iff.
  revert c H. apply digits_forall. vm_compute. reflexivity.
Qed.

Lemma digit_not_in c (l : list N) :
  forallb (fun z => forallb (fun k => negb (existsb (N.eqb (z + k)) l))
                            offsets) decimal_zeros = true ->
  isdigit c = true -> ¬ In c l.
Proof.
  intros Hall Hc Hin.
  pose proof (digits_forall (fun c => negb (existsb (N.eqb c) l)) Hall c Hc)
    as H.
  apply negb_true_iff in H.
  assert (existsb (N.eqb c) l = true) as H'.
  { apply existsb_exists. exists c. split; [easy|apply N.eqb_refl]. }
  congruence.
Qed.

(** Digits are none of the characters the patterns and [int] treat
    specially: [#] [+] [,] [-] [_] and the brackets. *)
Lemma digit_not_special c :
  isdigit c = true -> ¬ In c [35; 43; 44; 45; 91; 93; 95; 123; 125].
Proof. apply digit_not_in. vm_compute. reflexivity. Qed.

Lemma decimal_ascii k : k < 10 -> decimal (48 + k) = Some k.
Proof.
  intros Hk. unfold decimal, decimal_zeros. cbn [decimal_in].
  destruct ((48 <=? 48 + k) && (48 + k <? 48 + 10)) eqn:E.
  - f_equal. lia.
  - apply andb_false_iff in E as [E|E];
      [apply N.leb_gt in E|apply N.ltb_ge in E]; lia.
Qed.

Lemma isdigit_ascii k : k < 10 -> isdigit (48 + k) = true.
Proof. intros Hk. unfold isdigit. now rewrite decimal_ascii. Qed.

Lemma int_isspace_isspace c : Py.int_isspace c = true -> isspace c = true.
Proof. unfold Py.int_isspace. intros H. now apply andb_true_iff in H. Qed.

Lemma digit_not_int_space c : isdigit c = true -> Py.int_isspace c = false.
Proof.
  intros H. destruct (Py.int_isspace c) eqn:E; [|reflexivity].
  apply int_isspace_isspace in E. apply digit_not_space in H. congruence.
Qed.

Lemma newline_is_space : isspace 10 = true.
Proof. reflexivity. Qed.

End CharFacts.

(** ** [str.strip] *)

Section StripFacts.

Lemma lstrip_app l m :
  Py.lstrip (l ++ m)
  = match Py.lstrip l with [] => Py.lstrip m | l' => l' ++ m end.
Proof.
  induction l as [|c l IH]; simpl; [reflexivity|].
  destruct (isspace c); [exact IH|reflexivity].
Qed.

Lemma lstrip_idem s : Py.lstrip (Py.lstrip s) = Py.lstrip s.
Proof.
  induction s as [|c s IH]; simpl; [reflexivity|].
  destruct (isspace c) eqn:E; [exact IH|]. simpl. now rewrite E.
Qed.

Lemma lstrip_suffix s : ∃ p, s = p ++ Py.lstrip s ∧ forallb isspace p = true.
Proof.
  induction s as [|c s (p & IH & Hp)]; simpl; [now exists []|].
  destruct (isspace c) eqn:E.
  - exists (c :: p). simpl. rewrite E, Hp. split; [now f_equal|easy].
  - now exists [].
Qed.

Lemma lstrip_head s c r :
  Py.lstrip s = c :: r -> isspace c = false.
Proof.
  induction s as [|a s IH]; simpl; [discriminate|].
  destruct (isspace a) eqn:E; [exact IH|]. now intros [= -> _].
Qed.

Lemma lstrip_nonspace c r : isspace c = false -> Py.lstrip (c :: r) = c :: r.
Proof. intros E. simpl. now rewrite E. Qed.

(** The recursive reading of [rstrip]. *)
Lemma rstrip_cons c s :
  Py.rstrip (c :: s)
  = match Py.rstrip s with
    | [] => if isspace c then [] else [c]
    | r => c :: r
    end.
Proof.
  unfold Py.rstrip. simpl rev. rewrite lstrip_app.
  destruct (Py.lstrip (rev s)) as [|a l] eqn:E.
  - simpl. now destruct (isspace c).
  - rewrite rev_app_distr. simpl.
    destruct (rev l ++ [a]) eqn:E'; [|reflexivity].
    now apply app_eq_nil in E' as [_ E'].
Qed.

Lemma rstrip_nil : Py.rstrip [] = [].
Proof. reflexivity. Qed.

Lemma rstrip_prefix s : ∃ q, s = Py.rstrip s ++ q ∧ forallb isspace q = true.
Proof.
  induction s as [|c s (q & IH & Hq)]; [now exists []|].
  rewrite rstrip_cons.
  destruct (Py.rstrip s) as [|a r] eqn:E.
  - destruct (isspace c) eqn:Ec.
    + exists (c :: q). simpl in *. rewrite Ec, Hq. now subst s.
    + exists q. simpl in *. now subst s.
  - exists q. split; [|easy]. simpl. f_equal. exact IH.
Qed.

Lemma rstrip_app_nonspace a c b :
  isspace c = false -> Py.rstrip (a ++ c :: b) = a ++ c :: Py.rstrip b.
Proof.
  intros Ec. induction a as [|x a IH]; simpl.
  - rewrite rstrip_cons. rewrite Ec. now destruct (Py.rstrip b).
  - rewrite rstrip_cons, IH. now destruct a.
Qed.

Lemma rstrip_all_space q : forallb isspace q = true -> Py.rstrip q = [].
Proof.
  induction q as [|c q IH]; [reflexivity|]. simpl.
  intros H. apply andb_true_iff in H as [Hc Hq].
  rewrite rstrip_cons, (IH Hq). now rewrite Hc.
Qed.

Lemma rstrip_idem s : Py.rstrip (Py.rstrip s) = Py.rstrip s.
Proof.
  induction s as [|c s IH]; [reflexivity|].
  rewrite rstrip_cons.
  destruct (Py.rstrip s) as [|a r] eqn:E.
  - destruct (isspace c) eqn:Ec; [reflexivity|].
    rewrite rstrip_cons. simpl. now rewrite Ec.
  - rewrite rstrip_cons, IH. reflexivity.
Qed.

Lemma rstrip_head s c r :
  s = c :: r -> isspace c = false -> ∃ r', Py.rstrip s = c :: r'.
Proof.
  intros -> Ec. rewrite rstrip_cons.
  destruct (Py.rstrip r); rewrite ?Ec; eauto.
Qed.

Lemma strip_idem s : Py.strip (Py.strip s) = Py.strip s.
Proof.
  unfold Py.strip.
  destruct (Py.lstrip s) as [|c r] eqn:E; [reflexivity|].
  pose proof (lstrip_head _ _ _ E) as Ec.
  destruct (rstrip_head (c :: r) c r eq_refl Ec) as (r' & Hr).
  rewrite Hr, (lstrip_nonspace _ _ Ec), <- Hr. apply rstrip_idem.
Qed.

(** A text that starts with a character that is no space keeps its start. *)
Lemma strip_nonspace_head c r :
  isspace c = false -> Py.strip (c :: r) = Py.rstrip (c :: r).
Proof. intros E. unfold Py.strip. now rewrite lstrip_nonspace. Qed.

Lemma strip_parts s :
  ∃ p q, s = p ++ Py.strip s ++ q
         ∧ forallb isspace p = true ∧ forallb isspace q = true.
Proof.
  destruct (lstrip_suffix s) as (p & Hs & Hp).
  destruct (rstrip_prefix (Py.lstrip s)) as (q & Hq & Hq').
  exists p, q. unfold Py.strip. now rewrite <- Hq.
Qed.

Lemma strip_Forall (P : N -> Prop) s : Forall P s -> Forall P (Py.strip s).
Proof.
  intros H. destruct (strip_parts s) as (p & q & Hs & _).
  rewrite Hs in H. apply Forall_app in H as [_ H].
  now apply Forall_app in H as [H _].
Qed.

(** A trailing line terminator does not survive [strip]. *)
Lemma strip_app_space s q :
  forallb isspace q = true -> Py.strip (s ++ q) = Py.strip s.
Proof.
  intros Hq. unfold Py.strip. rewrite lstrip_app.
  destruct (Py.lstrip s) as [|c r] eqn:E.
  - destruct (lstrip_suffix q) as (p & Hp & _).
    rewrite rstrip_all_space; [reflexivity|].
    rewrite Hp in Hq. rewrite forallb_app in Hq.
    now apply andb_true_iff in Hq.
  - pose proof (lstrip_head _ _ _ E) as Ec.
    destruct (rstrip_prefix (c :: r)) as (q' & Hq' & Hsp).
    destruct (rstrip_head (c :: r) c r eq_refl Ec) as (r' & Hr).
    rewrite Hr in Hq'. rewrite Hr.
    assert (Hrev : ∃ a x, c :: r' = a ++ [x] ∧ isspace x = false).
    { destruct (rev (c :: r')) as [|x a] eqn:Erev.
      - apply (f_equal (@length N)) in Erev. rewrite length_rev in Erev.
        discriminate.
      - exists (rev a), x. split.
        + rewrite <- (rev_involutive (c :: r')), Erev. reflexivity.
        + assert (Hx : Py.lstrip (rev (c :: r')) = rev (c :: r')).
          { rewrite <- Hr. unfold Py.rstrip. rewrite rev_involutive.
            apply lstrip_idem. }
          rewrite Erev in Hx. simpl in Hx.
          destruct (isspace x) eqn:Ex; [|reflexivity].
          destruct (lstrip_suffix a) as (p & Hp & _).
          apply (f_equal (@length N)) in Hx, Hp.
          rewrite length_app in Hp. simpl in Hx. lia. }
    destruct Hrev as (a & x & Hax & Ex).
    rewrite Hq', Hax, <- !app_assoc. simpl.
    rewrite rstrip_app_nonspace by exact Ex.
    rewrite rstrip_all_space; [reflexivity|].
    rewrite forallb_app. now rewrite Hsp, Hq.
Qed.

End StripFacts.

(** ** [split], [join] and the lines of a text *)

Section SplitFacts.

Lemma split_from_length sep skip cur s :
  (1 <= length (Py.split_from sep skip cur s))%nat.
Proof.
  revert skip cur. induction s as [|c s IH]; intros skip cur; simpl; [lia|].
  destruct skip; [|apply IH].
  destruct (Py.startswith sep (c :: s)); simpl; [lia|apply IH].
Qed.

Lemma split_not_nil sep s : Py.split sep s ≠ [].
Proof.
  unfold Py.split. pose proof (split_from_length sep 0 [] s) as H.
  destruct (Py.split_from sep 0 [] s); simpl in H; [lia|discriminate].
Qed.

(** Every field of a split is made of characters of the text. *)
Lemma split_from_Forall (P : N -> Prop) sep skip cur s :
  Forall P cur -> Forall P s ->
  Forall (Forall P) (Py.split_from sep skip cur s).
Proof.
  revert skip cur. induction s as [|c s IH]; intros skip cur Hcur Hs; simpl.
  - constructor; [|constructor]. now apply Forall_rev.
  - inversion Hs; subst. destruct skip; [|now apply IH].
    destruct (Py.startswith sep (c :: s)).
    + constructor; [now apply Forall_rev|]. now apply IH.
    + apply IH; [now constructor|assumption].
Qed.

Lemma split_Forall (P : N -> Prop) sep s :
  Forall P s -> Forall (Forall P) (Py.split sep s).
Proof. intros H. now apply split_from_Forall. Qed.

Lemma split_lines_from_cons cur c s :
  Py.split_from [10] 0 cur (c :: s)
  = if c =? 10 then rev cur :: Py.split_from [10] 0 [] s
    else Py.split_from [10] 0 (c :: cur) s.
Proof.
  cbn [Py.split_from Py.startswith length pred].
  now rewrite andb_true_r, N.eqb_sym.
Qed.

(** Splitting at line feeds: no field holds a line feed. *)
Lemma split_lines_from_clean cur s :
  Forall (fun c => c ≠ 10) cur ->
  Forall (Forall (fun c => c ≠ 10)) (Py.split_from [10] 0 cur s).
Proof.
  revert cur. induction s as [|c s IH]; intros cur Hcur.
  - constructor; [|constructor]. now apply Forall_rev.
  - rewrite split_lines_from_cons. destruct (c =? 10) eqn:E.
    + constructor; [now apply Forall_rev|]. now apply IH.
    + apply IH. constructor; [|assumption]. now apply N.eqb_neq in E.
Qed.

Lemma split_lines_clean s :
  Forall (Forall (fun c => c ≠ 10)) (Py.split [10] s).
Proof. now apply split_lines_from_clean. Qed.

Lemma split_lines_from_app cur x rest :
  Forall (fun c => c ≠ 10) x ->
  Py.split_from [10] 0 cur (x ++ 10 :: rest)
  = (rev cur ++ x) :: Py.split_from [10] 0 [] rest.
Proof.
  revert cur. induction x as [|c x IH]; intros cur Hx.
  - simpl app. rewrite split_lines_from_cons. simpl.
    now rewrite app_nil_r.
  - inversion Hx; subst. simpl app. rewrite split_lines_from_cons.
    destruct (c =? 10) eqn:E; [apply N.eqb_eq in E; congruence|].
    rewrite IH by assumption. simpl. now rewrite <- app_assoc.
Qed.

Lemma split_lines_from_last cur x :
  Forall (fun c => c ≠ 10) x ->
  Py.split_from [10] 0 cur x = [rev cur ++ x].
Proof.
  revert cur. induction x as [|c x IH]; intros cur Hx.
  - simpl. now rewrite app_nil_r.
  - inversion Hx; subst. rewrite split_lines_from_cons.
    destruct (c =? 10) eqn:E; [apply N.eqb_eq in E; congruence|].
    rewrite IH by assumption. simpl. now rewrite <- app_assoc.
Qed.

(** [split] undoes [join] on fields without line feed. *)
Lemma split_join_lines (rs : list (list N)) :
  rs ≠ [] -> Forall (Forall (fun c => c ≠ 10)) rs ->
  Py.split [10] (Py.join [10] rs) = rs.
Proof.
  unfold Py.split.
  induction rs as [|r rs IH]; [congruence|]. intros _ Hall.
  inversion Hall as [|? ? Hr Hrs]; subst.
  destruct rs as [|r' rs].
  - simpl. now rewrite split_lines_from_last.
  - change (Py.join [10] (r :: r' :: rs))
      with (r ++ 10 :: Py.join [10] (r' :: rs)).
    rewrite split_lines_from_app by assumption. simpl rev. simpl app at 1.
    f_equal. now apply IH.
Qed.

Lemma join_Forall (P : N -> Prop) sep (l : list (list N)) :
  Forall P sep -> Forall (Forall P) l -> Forall P (Py.join sep l).
Proof.
  intros Hsep. induction l as [|x l IH]; intros H; [constructor|].
  inversion H; subst. destruct l as [|y l]; [assumption|].
  change (Py.join sep (x :: y :: l)) with (x ++ sep ++ Py.join sep (y :: l)).
  rewrite !Forall_app. auto.
Qed.

(** The loops that append one result per element are maps. *)
Lemma fold_append_map {A B} (f : A -> B) (l : list A) (acc : list B) :
  fold_left (fun results x => results ++ [f x]) l acc = acc ++ map f l.
Proof.
  revert acc. induction l as [|x l IH]; intros acc; simpl.
  - now rewrite app_nil_r.
  - rewrite IH, <- app_assoc. reflexivity.
Qed.

(** The lines a file yields: after [strip] they hold no line feed. *)
Lemma iter_lines_clean cur text :
  Forall (fun c => c ≠ 10) cur ->
  Forall (fun l => Forall (fun c => c ≠ 10) (Py.strip l))
         (iter_lines cur text).
Proof.
  revert cur. induction text as [|c text IH]; intros cur Hcur; simpl.
  - unfold Py.flush. destruct cur; constructor; [|constructor].
    apply strip_Forall. now apply Forall_rev.
  - destruct (c =? 10) eqn:E.
    + apply N.eqb_eq in E. subst c. constructor; [|now apply IH].
      simpl rev.
      rewrite strip_app_space by reflexivity.
      apply strip_Forall. now apply Forall_rev.
    + apply IH. constructor; [|assumption]. now apply N.eqb_neq in E.
Qed.

End SplitFacts.

(** ** Pieces of patterns *)

Section PatternFacts.

Lemma span_app cls s : let '(a, b) := span cls s in s = a ++ b.
Proof.
  induction s as [|c s IH]; simpl; [reflexivity|].
  destruct (cls c); [|reflexivity].
  destruct (span cls s) as [a b]. simpl. now f_equal.
Qed.

Lemma span_eq cls s a b : span cls s = (a, b) -> s = a ++ b.
Proof. intros H. pose proof (span_app cls s) as H'. now rewrite H in H'. Qed.

Lemma span_all cls s a b :
  span cls s = (a, b) -> forallb cls a = true.
Proof.
  revert a b. induction s as [|c s IH]; simpl; intros a b.
  - now intros [= <- <-].
  - destruct (cls c) eqn:E; [|now intros [= <- <-]].
    destruct (span cls s) as [a' b'] eqn:E'. intros [= <- <-].
    simpl. rewrite E. now apply (IH a' b').
Qed.

Lemma span_rest cls s a c b :
  span cls s = (a, c :: b) -> cls c = false.
Proof.
  revert a. induction s as [|x s IH]; simpl; intros a.
  - discriminate.
  - destruct (cls x) eqn:E; [|now intros [= <- <- <-]].
    destruct (span cls s) as [a' b'] eqn:E'. intros [= <- ->].
    now apply (IH a').
Qed.

(** A run followed by a character outside the class ends there. *)
Lemma span_run cls a b :
  forallb cls a = true ->
  match b with [] => True | c :: _ => cls c = false end ->
  span cls (a ++ b) = (a, b).
Proof.
  intros Ha Hb. induction a as [|x a IH]; simpl.
  - destruct b as [|c b]; [reflexivity|]. simpl. now rewrite Hb.
  - simpl in Ha. apply andb_true_iff in Ha as [Hx Ha].
    rewrite Hx, (IH Ha). reflexivity.
Qed.

(** Text added after a run that has already ended changes nothing. *)
Lemma span_more cls s a c b t :
  span cls s = (a, c :: b) -> span cls (s ++ t) = (a, c :: b ++ t).
Proof.
  intros H. pose proof (span_eq _ _ _ _ H) as ->.
  rewrite <- app_assoc. apply (span_run cls a (c :: b ++ t)).
  - exact (span_all _ _ _ _ H).
  - exact (span_rest _ _ _ _ _ H).
Qed.

Lemma plus_run cls a b :
  a ≠ [] -> forallb cls a = true ->
  match b with [] => True | c :: _ => cls c = false end ->
  plus cls (a ++ b) = Some (a, b).
Proof.
  intros Hne Ha Hb. unfold plus. rewrite span_run by assumption.
  destruct a; [congruence|reflexivity].
Qed.

Lemma plus_inv cls s a b :
  plus cls s = Some (a, b) ->
  s = a ++ b ∧ a ≠ [] ∧ forallb cls a = true
  ∧ match b with [] => True | c :: _ => cls c = false end.
Proof.
  unfold plus. destruct (span cls s) as [a' b'] eqn:E.
  destruct a' as [|x a']; [discriminate|]. intros [= <- <-].
  split; [exact (span_eq _ _ _ _ E)|]. split; [discriminate|].
  split; [exact (span_all _ _ _ _ E)|].
  destruct b' as [|c b']; [exact I|]. exact (span_rest _ _ _ _ _ E).
Qed.

Lemma plus_more cls s a c b t :
  plus cls s = Some (a, c :: b) ->
  plus cls (s ++ t) = Some (a, c :: b ++ t).
Proof.
  intros H. apply plus_inv in H as (-> & Hne & Ha & Hc).
  rewrite <- app_assoc. now apply (plus_run cls a (c :: b ++ t)).
Qed.

Lemma lit_inv p s r : lit p s = Some r -> s = p ++ r.
Proof.
  revert s. induction p as [|a p IH]; intros s; simpl.
  - now intros [= ->].
  - destruct s as [|b s]; [discriminate|].
    destruct (a =? b) eqn:E; [|discriminate].
    apply N.eqb_eq in E. subst b. intros H. now rewrite (IH _ H).
Qed.

Lemma lit_app p r : lit p (p ++ r) = Some r.
Proof.
  induction p as [|a p IH]; simpl; [reflexivity|].
  now rewrite N.eqb_refl.
Qed.

Lemma lit_more p s r t : lit p s = Some r -> lit p (s ++ t) = Some (r ++ t).
Proof.
  intros H. rewrite (lit_inv _ _ _ H), <- app_assoc. apply lit_app.
Qed.

End PatternFacts.

(** ** [int] and [str] *)

Section IntFacts.

Lemma int_body_digits acc b s :
  forallb isdigit s = true -> s ≠ [] ∨ b = true ->
  ∃ v, Py.int_body acc b s = Some v.
Proof.
  revert acc b. induction s as [|c s IH]; intros acc b Hs Hne; simpl.
  - destruct Hne as [Hne| ->]; [congruence|eauto].
  - simpl in Hs. apply andb_true_iff in Hs as [Hc Hs].
    unfold isdigit in Hc. destruct (decimal c); [|discriminate].
    apply IH; auto.
Qed.

Lemma int_lstrip_head c r :
  Py.int_isspace c = false -> Py.int_lstrip (c :: r) = c :: r.
Proof. intros E. simpl. now rewrite E. Qed.

Lemma token_last t :
  token t -> ∃ x a, rev t = x :: a ∧ isdigit x = true.
Proof.
  intros [Hne Hall]. destruct (rev t) as [|x a] eqn:E.
  - apply (f_equal (@length N)) in E. rewrite length_rev in E.
    destruct t; [congruence|discriminate].
  - exists x, a. split; [reflexivity|].
    rewrite forallb_forall in Hall. apply Hall.
    apply in_rev. rewrite E. now left.
Qed.

(** [int] ignores no character of a token. *)
Lemma int_trim_token t :
  token t -> rev (Py.int_lstrip (rev (Py.int_lstrip t))) = t.
Proof.
  intros Ht. destruct (token_last t Ht) as (x & a & Hrev & Hx).
  destruct Ht as [Hne Hall]. destruct t as [|c r]; [congruence|].
  simpl in Hall. apply andb_true_iff in Hall as [Hc _].
  rewrite int_lstrip_head by now apply digit_not_int_space.
  rewrite Hrev, int_lstrip_head by now apply digit_not_int_space.
  rewrite <- Hrev. apply rev_involutive.
Qed.

(** Without the limit a token always converts, to a number that is not
    negative and is below the power of ten of its length. *)
Lemma int_body_bound acc b s v :
  forallb isdigit s = true -> Py.int_body acc b s = Some v ->
  v < (acc + 1) * 10 ^ N.of_nat (length s).
Proof.
  revert acc b. induction s as [|c s IH]; intros acc b Hs Hv.
  - cbn [Py.int_body] in Hv. destruct b; [|discriminate].
    injection Hv as <-. cbn [length]. change (10 ^ N.of_nat 0) with 1. lia.
  - cbn [forallb] in Hs. apply andb_true_iff in Hs as [Hc Hs].
    cbn [Py.int_body] in Hv. unfold isdigit in Hc.
    destruct (decimal c) as [d|] eqn:Ed; [|discriminate].
    destruct (decimal_in_inv _ _ _ Ed) as (z & _ & _ & Hd).
    assert (Hd9 : d < 10).
    { cbn in Hd. repeat (destruct Hd as [<-|Hd]; [lia|]). destruct Hd. }
    specialize (IH _ _ Hs Hv).
    cbn [length]. rewrite Nat2N.inj_succ, N.pow_succ_r'. nia.
Qed.

Lemma int_unlimited_token t :
  token t ->
  ∃ v, Py.int_unlimited t = Some (Z.of_N v) ∧ v < 10 ^ N.of_nat (length t).
Proof.
  intros Ht. unfold Py.int_unlimited. rewrite (int_trim_token t Ht).
  destruct Ht as [Hne Hall].
  destruct (int_body_digits 0 false t Hall (or_introl Hne)) as (v & Hv).
  pose proof (int_body_bound 0 false t v Hall Hv) as Hb.
  exists v. split; [|lia]. destruct t as [|c r]; [congruence|].
  assert (Hc : isdigit c = true).
  { simpl in Hall. now apply andb_true_iff in Hall as [Hc _]. }
  pose proof (digit_not_special c Hc) as Hsp.
  destruct (N.eq_dec c 43) as [->|H43]; [exfalso; apply Hsp; simpl; auto|].
  destruct (N.eq_dec c 45) as [->|H45]; [exfalso; apply Hsp; simpl; auto|].
  rewrite Hv.
  destruct c as [|p]; [reflexivity|].
  do 6 (destruct p as [p|p|]; try reflexivity); congruence.
Qed.

Lemma count_digits_run t :
  forallb isdigit t = true -> Py.count_digits t = N.of_nat (length t).
Proof.
  induction t as [|c t IH]; [reflexivity|].
  cbn [forallb]. intros H. apply andb_true_iff in H as [Hc Ht].
  cbn [Py.count_digits length]. rewrite Hc, IH by exact Ht. lia.
Qed.

(** [int] on a token: the limit decides. *)
Lemma int_token_limit t :
  token t ->
  Py.int t = if within_limit t then Py.int_unlimited t else None.
Proof.
  intros [_ Hall]. unfold Py.int, within_limit.
  now rewrite count_digits_run.
Qed.

Lemma power_limit k :
  N.of_nat k <= Py.max_str_digits ->
  (Z.of_N (10 ^ N.of_nat k) <= 10 ^ Z.of_N Py.max_str_digits)%Z.
Proof.
  intros Hk.
  change 10%Z with (Z.of_N 10). rewrite <- N2Z.inj_pow.
  apply N2Z.inj_le. apply N.pow_le_mono_r; [discriminate|exact Hk].
Qed.

(** [int] converts a token that is within the limit, and what it gives is
    convertible. *)
Lemma int_token t :
  token t -> within_limit t = true ->
  ∃ n, Py.int t = Some n ∧ convertible n.
Proof.
  intros Ht Hlim. rewrite (int_token_limit t Ht), Hlim.
  destruct (int_unlimited_token t Ht) as (v & Hv & Hb).
  exists (Z.of_N v). split; [exact Hv|].
  unfold within_limit in Hlim. apply N.leb_le in Hlim.
  pose proof (power_limit _ Hlim). unfold convertible. lia.
Qed.

(** It raises on a token beyond the limit. *)
Lemma int_token_overlong t :
  token t -> within_limit t = false -> Py.int t = None.
Proof. intros Ht Hlim. now rewrite (int_token_limit t Ht), Hlim. Qed.

Lemma int_token_Some t n :
  token t -> Py.int t = Some n -> within_limit t = true ∧ convertible n.
Proof.
  intros Ht Hn. destruct (within_limit t) eqn:E.
  - split; [reflexivity|].
    destruct (int_token t Ht E) as (n' & Hn' & Hc). congruence.
  - rewrite (int_token_overlong t Ht E) in Hn. discriminate.
Qed.

(** The tokens of a text convert together or not at all. *)
Lemma mapM_int_tokens ts :
  Forall token ts ->
  if forallb within_limit ts
  then ∃ ns, mapM Py.int ts = Some ns ∧ Forall convertible ns
             ∧ length ns = length ts
  else mapM Py.int ts = None.
Proof.
  induction ts as [|t ts IH]; intros H.
  - exists []. repeat split. constructor.
  - inversion H as [|? ? Ht Hts]; subst. specialize (IH Hts).
    cbn [forallb]. destruct (within_limit t) eqn:E; cbn [andb].
    + destruct (int_token t Ht E) as (n & Hn & Hc).
      destruct (forallb within_limit ts).
      * destruct IH as (ns & Hns & Hpos & Hlen).
        exists (n :: ns). split; [|split].
        -- apply mapM_Some. constructor; [exact Hn|]. now apply mapM_Some.
        -- now constructor.
        -- simpl. now rewrite Hlen.
      * cbn [mapM]. rewrite Hn, IH. reflexivity.
    + cbn [mapM]. now rewrite (int_token_overlong t Ht E).
Qed.

Lemma mapM_int_Some ts ns :
  Forall token ts -> mapM Py.int ts = Some ns ->
  forallb within_limit ts = true ∧ Forall convertible ns
  ∧ length ns = length ts.
Proof.
  intros Hts Hns. pose proof (mapM_int_tokens ts Hts) as H.
  destruct (forallb within_limit ts).
  - destruct H as (ns' & Hns' & Hc & Hlen).
    assert (ns' = ns) as -> by congruence. auto.
  - congruence.
Qed.

Lemma ascii_digit_isdigit c : ascii_digit c = true -> isdigit c = true.
Proof.
  unfold ascii_digit. intros H. apply andb_true_iff in H as [H1 H2].
  apply N.leb_le in H1, H2.
  replace c with (48 + (c - 48)) by lia. apply isdigit_ascii. lia.
Qed.

Lemma ascii_digits_isdigit s :
  forallb ascii_digit s = true -> forallb isdigit s = true.
Proof.
  rewrite !forallb_forall. intros H c Hc. apply ascii_digit_isdigit. auto.
Qed.

Lemma ascii_digit_offset k : k < 10 -> ascii_digit (48 + k) = true.
Proof.
  intros Hk. unfold ascii_digit.
  apply andb_true_iff. split; apply N.leb_le; lia.
Qed.

Lemma str_digits_S f n acc :
  Py.str_digits (S f) n acc
  = if n / 10 =? 0 then (48 + n mod 10) :: acc
    else Py.str_digits f (n / 10) ((48 + n mod 10) :: acc).
Proof. reflexivity. Qed.

(** What [str_digits] writes in front of [acc], read back by [int_body]. *)
Lemma str_digits_spec f n acc :
  n < 10 ^ N.of_nat (S f) ->
  ∃ ds, Py.str_digits (S f) n acc = ds ++ acc
        ∧ ds ≠ [] ∧ forallb ascii_digit ds = true
        ∧ ∀ a b rest,
            Py.int_body a b (ds ++ rest)
            = Py.int_body (a * 10 ^ N.of_nat (length ds) + n) true rest.
Proof.
  revert n acc. induction f as [|f IH]; intros n acc Hn.
  - change (10 ^ N.of_nat 1) with 10 in Hn.
    assert (Hq : n / 10 = 0) by now apply N.div_small.
    assert (Hm : n mod 10 = n) by now apply N.mod_small.
    exists [48 + n]. rewrite str_digits_S, Hq, Hm.
    change (0 =? 0) with true. cbv iota.
    split; [reflexivity|]. split; [discriminate|]. split.
    + cbn [forallb]. rewrite andb_true_r. now apply ascii_digit_offset.
    + intros a b rest. simpl app. cbn [Py.int_body].
      rewrite decimal_ascii by exact Hn. reflexivity.
  - assert (Hm : n mod 10 < 10) by (apply N.mod_lt; lia).
    assert (Hdm : n = 10 * (n / 10) + n mod 10)
      by (apply N.div_mod; lia).
    rewrite str_digits_S. destruct (n / 10 =? 0) eqn:Eq.
    + apply N.eqb_eq in Eq. exists [48 + n mod 10].
      split; [reflexivity|]. split; [discriminate|]. split.
      * cbn [forallb]. rewrite andb_true_r. now apply ascii_digit_offset.
      * intros a b rest. simpl app. cbn [Py.int_body].
        rewrite decimal_ascii by exact Hm.
        change (N.of_nat (length [48 + n mod 10])) with 1.
        rewrite N.pow_1_r. f_equal. lia.
    + assert (Hn' : n / 10 < 10 ^ N.of_nat (S f)).
      { apply N.Div0.div_lt_upper_bound.
        replace (N.of_nat (S (S f))) with (N.succ (N.of_nat (S f))) in Hn
          by lia.
        now rewrite N.pow_succ_r' in Hn. }
      destruct (IH (n / 10) ((48 + n mod 10) :: acc) Hn')
        as (ds & Hds & Hne & Hall & Hback).
      exists (ds ++ [48 + n mod 10]).
      split; [now rewrite Hds, <- app_assoc|].
      split; [now destruct ds|]. split.
      * rewrite forallb_app, Hall. cbn [forallb andb].
        rewrite andb_true_r. now apply ascii_digit_offset.
      * intros a b rest. rewrite <- app_assoc, Hback. simpl app.
        cbn [Py.int_body]. rewrite decimal_ascii by exact Hm. f_equal.
        rewrite length_app. simpl length.
        replace (N.of_nat (length ds + 1)) with (N.succ (N.of_nat (length ds)))
          by lia.
        rewrite N.pow_succ_r'. clear - Hdm. nia.
Qed.

Lemma size_bound n : n < 10 ^ N.of_nat (S (N.to_nat (N.size n))).
Proof.
  replace (N.of_nat (S (N.to_nat (N.size n)))) with (N.succ (N.size n))
    by lia.
  apply N.lt_le_trans with (2 ^ N.succ (N.size n)).
  - destruct n as [|p]; [reflexivity|].
    apply N.lt_trans with (2 ^ N.size (N.pos p)).
    + apply N.size_gt.
    + apply N.pow_lt_mono_r; lia.
  - apply N.pow_le_mono_l. lia.
Qed.

Lemma str_N_spec n :
  Py.str_N n ≠ [] ∧ forallb ascii_digit (Py.str_N n) = true
  ∧ Py.int_body 0 false (Py.str_N n) = Some n.
Proof.
  unfold Py.str_N.
  destruct (str_digits_spec (N.to_nat (N.size n)) n [] (size_bound n))
    as (ds & Hds & Hne & Hall & Hback).
  rewrite Hds, app_nil_r. split; [exact Hne|]. split; [exact Hall|].
  specialize (Hback 0 false []). rewrite app_nil_r in Hback.
  rewrite Hback. simpl. reflexivity.
Qed.

Lemma str_N_token n : token (Py.str_N n).
Proof.
  destruct (str_N_spec n) as (Hne & Hall & _).
  split; [exact Hne|]. now apply ascii_digits_isdigit.
Qed.

Lemma token_head t : token t -> ∃ c r, t = c :: r ∧ isdigit c = true.
Proof.
  intros [Hne Hall]. destruct t as [|c r]; [congruence|].
  exists c, r. split; [reflexivity|].
  simpl in Hall. now apply andb_true_iff in Hall as [Hc _].
Qed.

Lemma int_unlimited_str_N n : Py.int_unlimited (Py.str_N n) = Some (Z.of_N n).
Proof.
  pose proof (str_N_token n) as Ht. destruct (str_N_spec n) as (_ & _ & Hv).
  unfold Py.int_unlimited. rewrite (int_trim_token _ Ht).
  destruct (token_head _ Ht) as (c & r & Hcr & Hc).
  pose proof (digit_not_special c Hc) as Hsp.
  rewrite Hcr in *.
  destruct (N.eq_dec c 43) as [->|H43]; [exfalso; apply Hsp; simpl; auto|].
  destruct (N.eq_dec c 45) as [->|H45]; [exfalso; apply Hsp; simpl; auto|].
  rewrite Hv.
  destruct c as [|p]; [reflexivity|].
  do 6 (destruct p as [p|p|]; try reflexivity); congruence.
Qed.

(** The text [str] writes names [z] and nothing else. *)
Lemma int_unlimited_str_int z : Py.int_unlimited (Py.str_int z) = Some z.
Proof.
  unfold Py.str_int. destruct (z <? 0)%Z eqn:E.
  - apply Z.ltb_lt in E.
    pose proof (str_N_token (Z.to_N (- z))) as Ht.
    destruct (str_N_spec (Z.to_N (- z))) as (_ & _ & Hv).
    destruct (token_last _ Ht) as (x & a & Hrev & Hx).
    unfold Py.int_unlimited.
    rewrite int_lstrip_head by reflexivity.
    simpl rev. rewrite Hrev. simpl app.
    rewrite int_lstrip_head by now apply digit_not_int_space.
    change (x :: a ++ [45]) with ((x :: a) ++ [45]).
    rewrite rev_app_distr, <- Hrev, rev_involutive. simpl.
    rewrite Hv. simpl. f_equal. lia.
  - apply Z.ltb_ge in E. rewrite int_unlimited_str_N. f_equal. lia.
Qed.

(** [str] writes no more digits than the number asks for. *)
Lemma str_digits_length f n acc k :
  n < 10 ^ N.of_nat (S k) ->
  (length (Py.str_digits f n acc) <= S k + length acc)%nat.
Proof.
  revert n acc k. induction f as [|f IH]; intros n acc k Hn.
  - cbn [Py.str_digits]. lia.
  - rewrite str_digits_S. destruct (n / 10 =? 0) eqn:Eq.
    + cbn [length]. lia.
    + apply N.eqb_neq in Eq. destruct k as [|k].
      * change (10 ^ N.of_nat 1) with 10 in Hn.
        rewrite N.div_small in Eq by exact Hn. congruence.
      * assert (Hn' : n / 10 < 10 ^ N.of_nat (S k)).
        { apply N.Div0.div_lt_upper_bound.
          replace (N.of_nat (S (S k))) with (N.succ (N.of_nat (S k))) in Hn
            by lia.
          now rewrite N.pow_succ_r' in Hn. }
        specialize (IH (n / 10) ((48 + n mod 10) :: acc) k Hn').
        cbn [length] in IH. lia.
Qed.

Lemma str_N_within_limit n :
  n < 10 ^ Py.max_str_digits -> within_limit (Py.str_N n) = true.
Proof.
  intros Hn. unfold within_limit, Py.str_N. apply N.leb_le.
  pose proof (str_digits_length (S (N.to_nat (N.size n))) n []
                                (pred (N.to_nat Py.max_str_digits))) as H.
  replace (N.of_nat (S (pred (N.to_nat Py.max_str_digits))))
    with Py.max_str_digits in H by reflexivity.
  specialize (H Hn). cbn [length] in H.
  replace (S (pred (N.to_nat Py.max_str_digits)))
    with (N.to_nat Py.max_str_digits) in H by reflexivity.
  lia.
Qed.

(** [int(str(z)) == z] for what [int] gives on digits. *)
Lemma int_str_int z : convertible z -> Py.int (Py.str_int z) = Some z.
Proof.
  intros [H0 Hz].
  assert (Hs : Py.str_int z = Py.str_N (Z.to_N z)).
  { unfold Py.str_int. destruct (z <? 0)%Z eqn:E; [|reflexivity].
    apply Z.ltb_lt in E. lia. }
  pose proof (int_unlimited_str_int z) as Hu.
  rewrite Hs in *. rewrite (int_token_limit _ (str_N_token _)).
  rewrite str_N_within_limit; [exact Hu|].
  apply N2Z.inj_lt. rewrite N2Z.inj_pow, Z2N.id by exact H0. exact Hz.
Qed.

(** [str] writes what [int] gave within the limit, so it raises on none of
    the numbers the request handler hands it. *)
Lemma str_int_within_limit z :
  convertible z -> within_limit (Py.str_int z) = true.
Proof.
  intros [H0 Hz].
  assert (Hs : Py.str_int z = Py.str_N (Z.to_N z)).
  { unfold Py.str_int. destruct (z <? 0)%Z eqn:E; [|reflexivity].
    apply Z.ltb_lt in E. lia. }
  rewrite Hs. apply str_N_within_limit.
  apply N2Z.inj_lt. rewrite N2Z.inj_pow, Z2N.id by exact H0. exact Hz.
Qed.

Lemma mapM_int_str nums :
  Forall convertible nums -> mapM Py.int (map Py.str_int nums) = Some nums.
Proof.
  intros H. apply mapM_Some.
  induction H as [|n ns Hn _ IH]; [constructor|].
  cbn [map]. constructor; [now apply int_str_int|exact IH].
Qed.

Lemma str_int_token z : (0 <= z)%Z -> token (Py.str_int z).
Proof.
  intros Hz. unfold Py.str_int.
  destruct (z <? 0)%Z eqn:E; [apply Z.ltb_lt in E; lia|].
  apply str_N_token.
Qed.

Lemma str_int_not_nil z : Py.str_int z ≠ [].
Proof.
  unfold Py.str_int. destruct (z <? 0)%Z; [discriminate|].
  apply str_N_spec.
Qed.

End IntFacts.

(** ** [findall_digits] and the pattern of the leading ids *)

Section IdsFacts.

Lemma findall_from_tokens cur s :
  forallb isdigit cur = true ->
  Forall token (findall_digits_from cur s).
Proof.
  revert cur. induction s as [|c s IH]; intros cur Hcur; simpl.
  - unfold Py.flush. destruct cur as [|x cur]; constructor; [|constructor].
    split.
    + intros H. apply (f_equal (@length N)) in H.
      rewrite length_rev in H. discriminate.
    + rewrite forallb_forall in *. intros y Hy. apply Hcur.
      now apply in_rev.
  - destruct (isdigit c) eqn:E.
    + apply IH. simpl. now rewrite E.
    + apply Forall_app. split; [|now apply IH].
      unfold Py.flush. destruct cur as [|x cur]; constructor; [|constructor].
      split.
      * intros H. apply (f_equal (@length N)) in H.
        rewrite length_rev in H. discriminate.
      * rewrite forallb_forall in *. intros y Hy. apply Hcur.
        now apply in_rev.
Qed.

(** Every string [findall_digits] returns is a token. *)
Lemma findall_tokens s : Forall token (findall_digits s).
Proof. now apply findall_from_tokens. Qed.

Lemma findall_from_not_nil cur s :
  cur ≠ [] -> findall_digits_from cur s ≠ [].
Proof.
  revert cur. induction s as [|c s IH]; intros cur Hcur; simpl.
  - destruct cur; [congruence|discriminate].
  - destruct (isdigit c); [now apply IH|].
    destruct cur; [congruence|discriminate].
Qed.

Lemma findall_head_digit c s :
  isdigit c = true -> findall_digits (c :: s) ≠ [].
Proof.
  intros Hc. unfold findall_digits. simpl. rewrite Hc.
  now apply findall_from_not_nil.
Qed.

Lemma findall_from_run cur d s :
  forallb isdigit d = true ->
  findall_digits_from cur (d ++ s)
  = findall_digits_from (rev d ++ cur) s.
Proof.
  revert cur. induction d as [|x d IH]; intros cur Hd; [reflexivity|].
  simpl in Hd. apply andb_true_iff in Hd as [Hx Hd].
  simpl. rewrite Hx, IH by assumption. now rewrite <- app_assoc.
Qed.

(** The tokens of a canonical id string are its ids. *)
Lemma findall_canonical t ts :
  token t -> Forall token ts ->
  findall_digits (t ++ more_ids ts) = t :: ts.
Proof.
  unfold findall_digits. revert t.
  induction ts as [|t' ts IH]; intros t [Hne Ht] Hts.
  - simpl. rewrite app_nil_r.
    rewrite <- (app_nil_r t) at 1.
    rewrite findall_from_run by assumption. simpl.
    rewrite app_nil_r. unfold Py.flush.
    destruct (rev t) eqn:E; [|now rewrite <- E, rev_involutive].
    apply (f_equal (@length N)) in E. rewrite length_rev in E.
    destruct t; [congruence|discriminate].
  - inversion Hts as [|? ? Ht' Hts']; subst.
    change (more_ids (t' :: ts)) with (44 :: 32 :: t' ++ more_ids ts).
    rewrite findall_from_run by assumption. rewrite app_nil_r.
    cbn [findall_digits_from].
    change (isdigit 44) with false. change (isdigit 32) with false.
    cbv iota. rewrite (IH t' Ht' Hts'). unfold Py.flush.
    destruct (rev t) eqn:E; [|now rewrite <- E, rev_involutive].
    apply (f_equal (@length N)) in E. rewrite length_rev in E.
    destruct t; [congruence|discriminate].
Qed.

Lemma join_more_ids t ts : Py.join [44; 32] (t :: ts) = t ++ more_ids ts.
Proof.
  revert t. induction ts as [|t' ts IH]; intros t.
  - simpl. now rewrite app_nil_r.
  - change (Py.join [44; 32] (t :: t' :: ts))
      with (t ++ [44; 32] ++ Py.join [44; 32] (t' :: ts)).
    now rewrite IH.
Qed.

Lemma ids_more_unfold f s :
  ids_more (S f) s
  = let '(ws1, s1) := span isspace s in
    match s1 with
    | 44 :: s2 =>
      let '(ws2, s3) := span isspace s2 in
      match plus isdigit s3 with
      | Some (ds, s4) =>
        let '(more, rest) := ids_more f s4 in
        (ws1 ++ 44 :: ws2 ++ ds ++ more, rest)
      | None => ([], s)
      end
    | _ => ([], s)
    end.
Proof.
  cbn [ids_more]. destruct (span isspace s) as [ws1 s1].
  destruct s1 as [|c s2]; [reflexivity|].
  change (u ",") with [44]. cbn [lit].
  destruct (44 =? c) eqn:E.
  - apply N.eqb_eq in E. subst c. reflexivity.
  - destruct c as [|p]; [reflexivity|].
    do 6 (destruct p as [p|p|]; try reflexivity); discriminate.
Qed.

(** The repetition returns a split of its input. *)
Lemma ids_more_app f s more rest :
  ids_more f s = (more, rest) -> s = more ++ rest.
Proof.
  revert s more rest. induction f as [|f IH]; intros s more rest.
  - simpl. now intros [= <- <-].
  - rewrite ids_more_unfold.
    destruct (span isspace s) as [ws1 s1] eqn:E1.
    pose proof (span_eq _ _ _ _ E1) as Hs.
    destruct s1 as [|c s2]; [now intros [= <- <-]|].
    destruct (N.eq_dec c 44) as [->|Hc].
    + destruct (span isspace s2) as [ws2 s3] eqn:E2.
      pose proof (span_eq _ _ _ _ E2) as Hs2.
      destruct (plus isdigit s3) as [[ds s4]|] eqn:E3;
        [|now intros [= <- <-]].
      apply plus_inv in E3 as (Hs3 & _).
      destruct (ids_more f s4) as [m r] eqn:E4.
      apply IH in E4. intros [= <- <-].
      rewrite Hs, Hs2, Hs3, E4, <- !app_assoc. simpl.
      now rewrite <- !app_assoc.
    + destruct c as [|p]; [now intros [= <- <-]|].
      do 6 (destruct p as [p|p|]; try (now intros [= <- <-])); congruence.
Qed.

(** A text that does not go on with a comma holds no further id. *)
Lemma ids_more_stop f s :
  (let '(_, s1) := span isspace s in
   match s1 with 44 :: _ => False | _ => True end) ->
  ids_more f s = ([], s).
Proof.
  destruct f as [|f]; [reflexivity|]. rewrite ids_more_unfold.
  destruct (span isspace s) as [ws1 s1].
  destruct s1 as [|c s2]; [reflexivity|].
  destruct c as [|p]; [reflexivity|].
  do 6 (destruct p as [p|p|]; try reflexivity). intros [].
Qed.

Lemma ids_more_comment_tail f tail :
  comment_tail tail -> ids_more f tail = ([], tail).
Proof.
  intros [->|(c & ->)]; apply ids_more_stop; reflexivity.
Qed.

Lemma comment_tail_no_digit tail :
  comment_tail tail ->
  match tail with [] => True | c :: _ => isdigit c = false end.
Proof. intros [->|(c & ->)]; [exact I|reflexivity]. Qed.

Lemma more_ids_tail_no_digit ts tail :
  comment_tail tail ->
  match more_ids ts ++ tail with
  | [] => True
  | c :: _ => isdigit c = false
  end.
Proof.
  intros Htail. destruct ts as [|t ts]; [|reflexivity].
  now apply comment_tail_no_digit.
Qed.

(** The repetition reads the further ids of a canonical id string. *)
Lemma ids_more_canonical ts f tail :
  Forall token ts -> comment_tail tail ->
  (length (more_ids ts ++ tail) <= f)%nat ->
  ids_more f (more_ids ts ++ tail) = (more_ids ts, tail).
Proof.
  intros Hts Htail. revert f.
  induction Hts as [|t ts [Hne Ht] Hts IH]; intros f Hf.
  - simpl. now apply ids_more_comment_tail.
  - change (more_ids (t :: ts)) with (44 :: 32 :: t ++ more_ids ts) in *.
    rewrite <- !app_comm_cons, <- app_assoc in *.
    destruct f as [|f]; [simpl in Hf; lia|].
    rewrite ids_more_unfold.
    change (span isspace (44 :: 32 :: t ++ more_ids ts ++ tail))
      with (@nil N, 44 :: 32 :: t ++ more_ids ts ++ tail).
    cbv iota beta.
    destruct (token_head t (conj Hne Ht)) as (c & r & -> & Hc).
    assert (Hsp : span isspace (32 :: (c :: r) ++ more_ids ts ++ tail)
                  = ([32], (c :: r) ++ more_ids ts ++ tail)).
    { apply (span_run isspace [32]); [reflexivity|].
      simpl. now apply digit_not_space. }
    rewrite Hsp.
    rewrite (plus_run isdigit (c :: r) (more_ids ts ++ tail));
      [|discriminate|exact Ht|now apply more_ids_tail_no_digit].
    rewrite IH.
    + reflexivity.
    + simpl in Hf. rewrite !length_app in *. simpl in *. lia.
Qed.

(** The pattern reads a canonical id string back, whatever comment
    follows it. *)
Lemma leading_ids_canonical t ts tail :
  token t -> Forall token ts -> comment_tail tail ->
  leading_ids (t ++ more_ids ts ++ tail) = Some (t ++ more_ids ts, tail).
Proof.
  intros Ht Hts Htail. unfold leading_ids.
  destruct (token_head t Ht) as (c & r & -> & Hc).
  destruct Ht as [Hne Ht].
  assert (Hsp : span isspace ((c :: r) ++ more_ids ts ++ tail)
                = ([], (c :: r) ++ more_ids ts ++ tail)).
  { simpl. now rewrite (digit_not_space c Hc). }
  rewrite Hsp.
  rewrite (plus_run isdigit (c :: r) (more_ids ts ++ tail));
    [|discriminate|exact Ht|now apply more_ids_tail_no_digit].
  rewrite ids_more_canonical by (assumption || lia). reflexivity.
Qed.

(** What a match of the pattern looks like: the line is the group, which
    starts with a digit, and the text after it; no space comes first when
    the line is stripped. *)
Lemma leading_ids_inv s grp rest :
  leading_ids s = Some (grp, rest) ->
  ∃ ws c r, s = ws ++ grp ++ rest ∧ grp = c :: r ∧ isdigit c = true
            ∧ forallb isspace ws = true.
Proof.
  unfold leading_ids.
  destruct (span isspace s) as [ws s1] eqn:E1.
  destruct (plus isdigit s1) as [[ds s2]|] eqn:E2; [|discriminate].
  destruct (ids_more (length s2) s2) as [more r] eqn:E3.
  intros [= <- <-].
  apply plus_inv in E2 as (Hs1 & Hne & Hds & _).
  apply ids_more_app in E3.
  destruct ds as [|c ds]; [congruence|].
  exists ws, c, (ds ++ more). split; [|split; [reflexivity|split]].
  - rewrite (span_eq _ _ _ _ E1), Hs1, E3. simpl.
    now rewrite <- !app_assoc.
  - simpl in Hds. now apply andb_true_iff in Hds as [Hc _].
  - exact (span_all _ _ _ _ E1).
Qed.

(** Digits glued to a character that is no digit, space or comma. *)
Lemma leading_ids_glued ds c rest :
  token ds -> isdigit c = false -> isspace c = false -> c ≠ 44 ->
  leading_ids (ds ++ c :: rest) = Some (ds, c :: rest).
Proof.
  intros Hds Hc Hsp Hcomma. unfold leading_ids.
  destruct (token_head ds Hds) as (x & r & -> & Hx).
  destruct Hds as [Hne Hds].
  assert (E1 : span isspace ((x :: r) ++ c :: rest)
               = ([], (x :: r) ++ c :: rest)).
  { simpl. now rewrite (digit_not_space x Hx). }
  rewrite E1.
  rewrite (plus_run isdigit (x :: r) (c :: rest));
    [|discriminate|exact Hds|exact Hc].
  rewrite ids_more_stop.
  - now rewrite app_nil_r.
  - simpl. rewrite Hsp.
    destruct c as [|p]; [exact I|].
    do 6 (destruct p as [p|p|]; try exact I). congruence.
Qed.

(** The bound on the turns never cuts the repetition short: any bound
    that is at least the length of the text gives the same match. *)
Lemma ids_more_enough f f' s :
  (length s <= f)%nat -> (length s <= f')%nat ->
  ids_more f s = ids_more f' s.
Proof.
  revert f' s. induction f as [|f IH]; intros f' s Hf Hf'.
  - destruct s; [|simpl in Hf; lia]. now destruct f'.
  - destruct f' as [|f'].
    + destruct s; [reflexivity|simpl in Hf'; lia].
    + rewrite !ids_more_unfold.
      destruct (span isspace s) as [ws1 s1] eqn:E1.
      pose proof (span_eq _ _ _ _ E1) as Hs.
      destruct s1 as [|c s2]; [reflexivity|].
      destruct (N.eq_dec c 44) as [->|Hc].
      * destruct (span isspace s2) as [ws2 s3] eqn:E2.
        pose proof (span_eq _ _ _ _ E2) as Hs2.
        destruct (plus isdigit s3) as [[ds s4]|] eqn:E3; [|reflexivity].
        apply plus_inv in E3 as (Hs3 & Hne & _).
        assert (Hlen : (S (length s4) <= length s)%nat).
        { rewrite Hs, Hs2, Hs3, !length_app. simpl.
          rewrite !length_app. lia. }
        rewrite (IH f' s4) by lia. reflexivity.
      * destruct c as [|p]; [reflexivity|].
        do 6 (destruct p as [p|p|]; try reflexivity). congruence.
Qed.

Lemma span_space_lstrip s : (span isspace s).2 = Py.lstrip s.
Proof.
  induction s as [|c s IH]; simpl; [reflexivity|].
  destruct (isspace c); [|reflexivity].
  destruct (span isspace s). exact IH.
Qed.

(** A line has leading ids exactly when its first character that is no
    white space is a digit. *)
Lemma leading_ids_none_iff s :
  leading_ids s = None
  ↔ match Py.lstrip s with [] => True | c :: _ => isdigit c = false end.
Proof.
  unfold leading_ids. rewrite <- span_space_lstrip.
  destruct (span isspace s) as [ws s1]. cbn [snd].
  unfold plus. destruct s1 as [|c r]; [easy|]. simpl.
  destruct (isdigit c).
  - destruct (span isdigit r) as [a b].
    destruct (ids_more _ _). split; [discriminate|congruence].
  - easy.
Qed.

End IdsFacts.

(** ** The subway pattern *)

Section SubwayFacts.

(** The shape of a text the pattern matches. *)
Lemma subway_scan_inv s g1 g2 g3 rest :
  subway_scan s = Some (g1, g2, g3, rest) ->
  ∃ d h,
    s = [123] ++ g1 ++ [125; 45; 45; 123] ++ d ++ [125; 45; 45; 91] ++ g2
        ++ [93; 45; 45; 91] ++ [48; 120] ++ h ++ [93] ++ rest
    ∧ token g1 ∧ token d
    ∧ g2 ≠ [] ∧ forallb not_close g2 = true
    ∧ h ≠ [] ∧ forallb ishex h = true
    ∧ g3 = [48; 120] ++ h.
Proof.
  unfold subway_scan.
  destruct (lit (u "{") s) as [s1|] eqn:E1; [|discriminate].
  cbn [mbind option_bind].
  destruct (plus isdigit s1) as [[a1 s2]|] eqn:E2; [|discriminate].
  cbn [mbind option_bind].
  destruct (lit (u "}--{") s2) as [s3|] eqn:E3; [|discriminate].
  cbn [mbind option_bind].
  destruct (plus isdigit s3) as [[d s4]|] eqn:E4; [|discriminate].
  cbn [mbind option_bind].
  destruct (lit (u "}--[") s4) as [s5|] eqn:E5; [|discriminate].
  cbn [mbind option_bind].
  destruct (plus not_close s5) as [[a2 s6]|] eqn:E6;
    [|discriminate].
  cbn [mbind option_bind].
  destruct (lit (u "]--[") s6) as [s7|] eqn:E7; [|discriminate].
  cbn [mbind option_bind].
  destruct (lit (u "0x") s7) as [s8|] eqn:E8; [|discriminate].
  cbn [mbind option_bind].
  destruct (plus ishex s8) as [[h s9]|] eqn:E9; [|discriminate].
  cbn [mbind option_bind].
  destruct (lit (u "]") s9) as [s10|] eqn:E10; [|discriminate].
  cbn [mbind option_bind].
  intros [= <- <- <- <-].
  apply lit_inv in E1, E3, E5, E7, E8, E10.
  apply plus_inv in E2 as (H2 & N2 & A2 & _).
  apply plus_inv in E4 as (H4 & N4 & A4 & _).
  apply plus_inv in E6 as (H6 & N6 & A6 & _).
  apply plus_inv in E9 as (H9 & N9 & A9 & _).
  exists d, h. repeat split; try assumption.
  subst. reflexivity.
Qed.

Lemma subway_scan_intro g1 d g2 h rest :
  token g1 -> token d -> g2 ≠ [] -> forallb not_close g2 = true ->
  h ≠ [] -> forallb ishex h = true ->
  subway_scan
    ([123] ++ g1 ++ [125; 45; 45; 123] ++ d ++ [125; 45; 45; 91] ++ g2
     ++ [93; 45; 45; 91] ++ [48; 120] ++ h ++ [93] ++ rest)
  = Some (g1, g2, [48; 120] ++ h, rest).
Proof.
  intros [N1 A1] [Nd Ad] N2 A2 Nh Ah. unfold subway_scan.
  change (u "{") with [123]. rewrite lit_app. cbn [mbind option_bind].
  rewrite plus_run; [|assumption|assumption|reflexivity].
  cbn [mbind option_bind].
  change (u "}--{") with [125; 45; 45; 123]. rewrite lit_app.
  cbn [mbind option_bind].
  rewrite plus_run; [|assumption|assumption|reflexivity].
  cbn [mbind option_bind].
  change (u "}--[") with [125; 45; 45; 91]. rewrite lit_app.
  cbn [mbind option_bind].
  rewrite (plus_run not_close);
    [|assumption|assumption|reflexivity].
  cbn [mbind option_bind].
  change (u "]--[") with [93; 45; 45; 91]. rewrite lit_app.
  cbn [mbind option_bind].
  change (u "0x") with [48; 120]. rewrite lit_app.
  cbn [mbind option_bind].
  rewrite plus_run; [|assumption|assumption|reflexivity].
  cbn [mbind option_bind].
  change (u "]") with [93]. rewrite lit_app. reflexivity.
Qed.

(** The pattern is anchored at the start only: text added after a match
    stays outside the groups. *)
Lemma subway_scan_more p g1 g2 g3 tail :
  subway_scan p = Some (g1, g2, g3, []) ->
  subway_scan (p ++ tail) = Some (g1, g2, g3, tail).
Proof.
  intros H.
  destruct (subway_scan_inv _ _ _ _ _ H)
    as (d & h & -> & T1 & Td & N2 & A2 & Nh & Ah & ->).
  rewrite <- !app_assoc. rewrite app_nil_l.
  now apply subway_scan_intro.
Qed.

Lemma strip_framed c a x tail :
  isspace c = false -> isspace x = false ->
  Py.strip ((c :: a ++ [x]) ++ tail) = (c :: a ++ [x]) ++ Py.rstrip tail.
Proof.
  intros Hc Hx. cbn [app]. rewrite strip_nonspace_head by exact Hc.
  rewrite <- !app_assoc. cbn [app].
  change (c :: a ++ x :: tail) with ((c :: a) ++ x :: tail).
  now rewrite rstrip_app_nonspace.
Qed.

(** A match starts with an opening brace and, when nothing follows it,
    ends with a closing bracket: [strip] leaves it alone and only trims
    what comes after. *)
Lemma subway_match_strip p g1 g2 g3 tail :
  subway_scan p = Some (g1, g2, g3, []) ->
  Py.strip (p ++ tail) = p ++ Py.rstrip tail.
Proof.
  intros H.
  destruct (subway_scan_inv _ _ _ _ _ H)
    as (d & h & -> & _).
  rewrite app_nil_r.
  match goal with
  | |- Py.strip (([123] ++ ?a ++ ?b ++ ?c ++ ?d ++ ?e ++ ?f ++ ?g ++ ?h
                  ++ [93]) ++ tail) = _ =>
    replace ([123] ++ a ++ b ++ c ++ d ++ e ++ f ++ g ++ h ++ [93])
      with (123 :: (a ++ b ++ c ++ d ++ e ++ f ++ g ++ h) ++ [93])
      by (rewrite <- ?app_assoc; reflexivity)
  end.
  now apply strip_framed.
Qed.

End SubwayFacts.

(** ** The matcher on the patterns of the program *)

Section MatcherFacts.

Context {A : Type}.

Implicit Types (k : list (list N) -> list N -> option A).

Lemma bt_Seq r1 r2 s g k :
  Re.bt (Re.Seq r1 r2) s g k
  = Re.bt r1 s g (fun g' s' => Re.bt r2 s' g' k).
Proof. reflexivity. Qed.

Lemma bt_Cls cls s g k :
  Re.bt (Re.Cls cls) s g k
  = match s with
    | x :: s' => if cls x then k g s' else None
    | [] => None
    end.
Proof. reflexivity. Qed.

Lemma bt_Star r s g k :
  Re.bt (Re.Star r) s g k = Re.star (Re.bt r) k (S (length s)) s g.
Proof. reflexivity. Qed.

Lemma bt_Group r s g k :
  Re.bt (Re.Group r) s g k
  = Re.bt r s g (fun g' s' => k (g' ++ [take (length s - length s') s]) s').
Proof. reflexivity. Qed.

Lemma bt_cat_cons r rs s g k :
  Re.bt (Re.cat (r :: rs)) s g k
  = Re.bt r s g (fun g' s' => Re.bt (Re.cat rs) s' g' k).
Proof. reflexivity. Qed.

Lemma bt_cat_nil s g k : Re.bt (Re.cat []) s g k = k g s.
Proof. reflexivity. Qed.

Lemma bt_Chr c s g k :
  Re.bt (Re.Chr c) s g k
  = match lit [c] s with Some r => k g r | None => None end.
Proof.
  destruct s as [|x s]; [reflexivity|]. simpl. now destruct (c =? x).
Qed.

Lemma bt_Lit p s g k :
  Re.bt (Re.Lit p) s g k
  = match lit p s with Some r => k g r | None => None end.
Proof.
  revert s. induction p as [|c p IH]; intros s; [reflexivity|].
  change (Re.Lit (c :: p)) with (Re.Seq (Re.Chr c) (Re.Lit p)).
  cbn [Re.bt]. destruct s as [|x s]; [reflexivity|]. cbn [lit].
  destruct (c =? x); [apply IH|reflexivity].
Qed.

(** A repetition of a class takes the longest run when what follows fails
    on shorter runs, or succeeds on the longest. *)
Lemma star_cls cls k fuel s g :
  (length s < fuel)%nat ->
  stops_at cls k ∨ k g (span cls s).2 ≠ None ->
  Re.star (Re.bt (Re.Cls cls)) k fuel s g = k g (span cls s).2.
Proof.
  revert fuel. induction s as [|x s IH]; intros fuel Hfuel Hk.
  - destruct fuel; reflexivity.
  - destruct fuel as [|f]; [simpl in Hfuel; lia|].
    assert (Hspan : (span cls (x :: s)).2
                    = if cls x then (span cls s).2 else x :: s).
    { cbn [span]. destruct (cls x); [|reflexivity].
      now destruct (span cls s). }
    rewrite Hspan in *. cbn [Re.star Re.bt].
    destruct (cls x) eqn:Ex; [|reflexivity].
    assert (Hlt : (length s <? length (x :: s))%nat = true)
      by (apply Nat.ltb_lt; simpl; lia).
    rewrite Hlt.
    rewrite IH; [|simpl in Hfuel; lia|exact Hk].
    destruct (k g (span cls s).2) eqn:Ekb; [reflexivity|].
    destruct Hk as [Hk|Hk]; [now apply Hk|congruence].
Qed.

Lemma bt_star_cls cls k s g :
  stops_at cls k ∨ k g (span cls s).2 ≠ None ->
  Re.bt (Re.Star (Re.Cls cls)) s g k = k g (span cls s).2.
Proof. intros Hk. rewrite bt_Star. apply star_cls; [lia|exact Hk]. Qed.

Lemma bt_plus_cls cls k s g :
  stops_at cls k ∨ (∀ a b, plus cls s = Some (a, b) -> k g b ≠ None) ->
  Re.bt (Re.Plus (Re.Cls cls)) s g k
  = match plus cls s with Some (a, b) => k g b | None => None end.
Proof.
  intros Hk. unfold Re.Plus. rewrite bt_Seq, bt_Cls. unfold plus.
  destruct s as [|x s]; [reflexivity|]. cbn [span].
  destruct (cls x) eqn:Ex; [|reflexivity].
  destruct (span cls s) as [a b] eqn:Espan.
  rewrite bt_star_cls; [now rewrite Espan|].
  destruct Hk as [Hk|Hk]; [now left|right].
  rewrite Espan. apply (Hk (x :: a)).
  unfold plus. cbn [span]. now rewrite Ex, Espan.
Qed.

(** A group around a repetition captures the run. *)
Lemma bt_group_plus_cls cls k s g :
  stops_at cls k ∨ (∀ a b g', plus cls s = Some (a, b) -> k g' b ≠ None) ->
  Re.bt (Re.Group (Re.Plus (Re.Cls cls))) s g k
  = match plus cls s with
    | Some (a, b) => k (g ++ [a]) b
    | None => None
    end.
Proof.
  intros Hk. rewrite bt_Group, bt_plus_cls.
  - destruct (plus cls s) as [[a b]|] eqn:E; [|reflexivity].
    apply plus_inv in E as (-> & _).
    rewrite length_app.
    replace (length a + length b - length b)%nat with (length a) by lia.
    now rewrite take_app_length.
  - destruct Hk as [Hk|Hk]; [left|right].
    + intros x r g' Hx. now apply Hk.
    + intros a b Hab. now apply (Hk a b).
Qed.

Lemma star_total body k fuel s g :
  (∀ g' s', k g' s' ≠ None) -> Re.star body k fuel s g ≠ None.
Proof.
  intros Hk. destruct fuel as [|f]; cbn [Re.star]; [apply Hk|].
  destruct (body s g _); [discriminate|apply Hk].
Qed.

Lemma stops_space_chr c rs k :
  isspace c = false -> stops_at isspace (fun g' s' =>
    Re.bt (Re.cat (Re.Chr c :: rs)) s' g' k).
Proof.
  intros Hc x r g Hx. cbn.
  destruct (c =? x) eqn:E; [|reflexivity].
  apply N.eqb_eq in E. congruence.
Qed.

Lemma stops_space_digits rs k :
  stops_at isspace (fun g' s' => Re.bt (Re.cat (digits :: rs)) s' g' k).
Proof.
  intros x r g Hx. cbn.
  destruct (isdigit x) eqn:E; [|reflexivity].
  apply digit_not_space in E. congruence.
Qed.

(** The repetition of further ids takes them all. *)
Lemma star_further_ids k fuel s g :
  (∀ g' s', k g' s' ≠ None) -> (length s < fuel)%nat ->
  Re.star (Re.bt further_id) k fuel s g = k g (ids_more (length s) s).2.
Proof.
  intros Hk. revert s.
  induction fuel as [|f IH]; intros s Hfuel; [lia|].
  cbn [Re.star]. unfold further_id at 1.
  rewrite bt_cat_cons. unfold spaces at 1.
  rewrite bt_star_cls by (left; now apply stops_space_chr).
  destruct s as [|c0 s0] eqn:Es.
  { cbn. reflexivity. }
  rewrite <- Es in *.
  assert (Hs_len : (0 < length s)%nat) by (rewrite Es; simpl; lia).
  assert (Hids : ids_more (length s) s = ids_more (S (pred (length s))) s)
    by (f_equal; lia).
  rewrite Hids, ids_more_unfold.
  destruct (span isspace s) as [ws1 s1] eqn:E1. cbn [snd].
  pose proof (span_eq _ _ _ _ E1) as Hs1.
  rewrite bt_cat_cons, bt_Chr.
  destruct s1 as [|c s2]; [reflexivity|]. cbn [lit].
  destruct (44 =? c) eqn:Ec.
  2:{ destruct c as [|p]; [reflexivity|].
      do 6 (destruct p as [p|p|]; try reflexivity). discriminate. }
  apply N.eqb_eq in Ec. subst c.
  rewrite bt_cat_cons. unfold spaces at 1.
  rewrite bt_star_cls by (left; apply stops_space_digits).
  destruct (span isspace s2) as [ws2 s3] eqn:E2. cbn [snd].
  pose proof (span_eq _ _ _ _ E2) as Hs2.
  rewrite bt_cat_cons. unfold digits at 1.
  assert (Hshort : ∀ a b, plus isdigit s3 = Some (a, b) ->
                          (S (length b) < length s)%nat).
  { intros a b Hab. apply plus_inv in Hab as (Hs3 & Hne & _).
    rewrite Hs1, Hs2, Hs3, !length_app. cbn [length].
    rewrite !length_app. destruct a; [congruence|simpl; lia]. }
  rewrite bt_plus_cls.
  - destruct (plus isdigit s3) as [[ds s4]|] eqn:E3; [|reflexivity].
    pose proof (Hshort ds s4 eq_refl) as Hlen.
    rewrite bt_cat_nil.
    assert (Hlt : (length s4 <? length s)%nat = true)
      by (apply Nat.ltb_lt; lia).
    rewrite Hlt, IH by lia.
    rewrite (ids_more_enough (pred (length s)) (length s4) s4) by lia.
    destruct (ids_more (length s4) s4) as [more rest] eqn:E4. cbn [snd].
    destruct (k g rest) eqn:Ek; [reflexivity|]. now apply Hk in Ek.
  - right. intros a b Hab. rewrite bt_cat_nil.
    pose proof (Hshort a b Hab) as Hlen.
    assert (Hlt : (length b <? length s)%nat = true)
      by (apply Nat.ltb_lt; lia).
    rewrite Hlt. now apply star_total.
Qed.

End MatcherFacts.

Section PatternsOfTheProgram.

(** [re.findall] of [\d+] finds the maximal runs of digits. *)
Lemma match_digits s :
  Re.match_ digits s
  = match plus isdigit s with Some (a, b) => Some ([], b) | None => None end.
Proof.
  unfold Re.match_, digits. rewrite bt_plus_cls; [reflexivity|].
  right. discriminate.
Qed.

Lemma findall_digits_after_run a b :
  a ≠ [] -> match b with [] => True | x :: _ => isdigit x = false end ->
  findall_digits_from (rev a) b = a :: findall_digits b.
Proof.
  intros Hne Hb. unfold findall_digits.
  assert (Hflush : Py.flush (rev a) = [a]).
  { unfold Py.flush. destruct (rev a) eqn:E.
    - apply (f_equal (@length N)) in E. rewrite length_rev in E.
      destruct a; [congruence|discriminate].
    - now rewrite <- E, rev_involutive. }
  destruct b as [|x b]; cbn [findall_digits_from].
  - exact Hflush.
  - rewrite Hb, Hflush. reflexivity.
Qed.

Lemma findall_from_digits fuel s :
  (length s < fuel)%nat ->
  Re.findall_from digits fuel s = findall_digits s.
Proof.
  revert s. induction fuel as [|f IH]; intros s Hfuel; [lia|].
  cbn [Re.findall_from]. rewrite match_digits.
  destruct (plus isdigit s) as [[a b]|] eqn:E.
  - apply plus_inv in E as (-> & Hne & Ha & Hb).
    rewrite length_app.
    replace (length a + length b - length b)%nat with (length a) by lia.
    rewrite take_app_length.
    rewrite length_app in Hfuel.
    assert (Hpos : (0 < length a)%nat)
      by (destruct a; [congruence|simpl; lia]).
    rewrite IH by lia.
    unfold findall_digits at 2.
    rewrite findall_from_run by exact Ha. rewrite app_nil_r.
    rewrite findall_digits_after_run by assumption.
    destruct a; [congruence|reflexivity].
  - unfold plus in E. destruct s as [|x s]; [reflexivity|].
    cbn [span] in E. destruct (isdigit x) eqn:Ex.
    + destruct (span isdigit s). discriminate.
    + rewrite IH by (simpl in Hfuel; lia).
      unfold findall_digits. cbn [findall_digits_from]. now rewrite Ex.
Qed.

Lemma findall_digits_eq s : Re.findall digits s = findall_digits s.
Proof. apply findall_from_digits. lia. Qed.

(** The pattern of the leading ids, matched by backtracking, is what one
    pass over the text reads. *)
Lemma match_id_pattern s :
  Re.match_ id_pattern s
  = match leading_ids s with
    | Some (grp, rest) => Some ([grp], rest)
    | None => None
    end.
Proof.
  unfold Re.match_, id_pattern, leading_ids. cbn [Re.bt].
  fold spaces.
  change (Re.Seq (Re.Cls isdigit) (Re.Star (Re.Cls isdigit))) with digits.
  unfold spaces at 1. fold (@Re.bt (list (list N) * list N)).
  rewrite (bt_star_cls isspace
             (fun g' s' => Re.bt digits s' g' _)).
  2:{ left. intros x r g Hx. cbn.
      destruct (isdigit x) eqn:E; [|reflexivity].
      apply digit_not_space in E. congruence. }
  destruct (span isspace s) as [ws s1] eqn:E1. cbn [snd].
  unfold digits at 1. rewrite bt_plus_cls.
  - destruct (plus isdigit s1) as [[ds s2]|] eqn:E2; [|reflexivity].
    cbn [Re.bt]. fold further_id.
    rewrite (star_further_ids _ (S (length s2)) s2 []) by (discriminate || lia).
    destruct (ids_more (length s2) s2) as [more rest] eqn:E3. cbn [snd app].
    apply plus_inv in E2 as (-> & _). apply ids_more_app in E3 as ->.
    rewrite !length_app.
    replace (length ds + (length more + length rest) - length rest)%nat
      with (length (ds ++ more)) by (rewrite length_app; lia).
    rewrite app_assoc, take_app_length. reflexivity.
  - right. intros a b Hab. cbn [Re.bt]. now apply star_total.
Qed.

(** The subway pattern, matched by backtracking, is what one pass reads. *)
Lemma match_subway_pattern s :
  Re.match_ subway_pattern s
  = match subway_scan s with
    | Some (g1, g2, g3, rest) => Some ([g1; g2; g3], rest)
    | None => None
    end.
Proof.
  unfold Re.match_, subway_pattern, subway_scan.
  rewrite bt_cat_cons, bt_Chr. change (u "{") with [123].
  destruct (lit [123] s) as [s1|]; [|reflexivity].
  cbn [mbind option_bind].
  rewrite bt_cat_cons. unfold digits at 1. rewrite bt_group_plus_cls.
  2:{ left. intros x r g Hx. rewrite bt_cat_cons, bt_Lit.
      change (u "}--{") with [125; 45; 45; 123]. cbn [lit].
      destruct (125 =? x) eqn:E; [|reflexivity].
      apply N.eqb_eq in E. subst x. discriminate. }
  destruct (plus isdigit s1) as [[g1 s2]|]; [|reflexivity].
  cbn [mbind option_bind app].
  rewrite bt_cat_cons, bt_Lit.
  destruct (lit (u "}--{") s2) as [s3|]; [|reflexivity].
  cbn [mbind option_bind].
  rewrite bt_cat_cons. unfold digits at 1. rewrite bt_plus_cls.
  2:{ left. intros x r g Hx. rewrite bt_cat_cons, bt_Lit.
      change (u "}--[") with [125; 45; 45; 91]. cbn [lit].
      destruct (125 =? x) eqn:E; [|reflexivity].
      apply N.eqb_eq in E. subst x. discriminate. }
  destruct (plus isdigit s3) as [[d s4]|]; [|reflexivity].
  cbn [mbind option_bind].
  rewrite bt_cat_cons, bt_Lit.
  destruct (lit (u "}--[") s4) as [s5|]; [|reflexivity].
  cbn [mbind option_bind].
  rewrite bt_cat_cons, bt_group_plus_cls.
  2:{ left. intros x r g Hx. rewrite bt_cat_cons, bt_Lit.
      change (u "]--[") with [93; 45; 45; 91]. cbn [lit].
      destruct (93 =? x) eqn:E; [|reflexivity].
      apply N.eqb_eq in E. subst x. discriminate. }
  destruct (plus not_close s5) as [[g2 s6]|]; [|reflexivity].
  cbn [mbind option_bind app].
  rewrite bt_cat_cons, bt_Lit.
  destruct (lit (u "]--[") s6) as [s7|]; [|reflexivity].
  cbn [mbind option_bind].
  rewrite bt_cat_cons. cbn [Re.bt].
  fold (Re.Plus (Re.Cls ishex)). rewrite bt_Lit.
  destruct (lit (u "0x") s7) as [s8|] eqn:E8; [|reflexivity].
  cbn [mbind option_bind].
  rewrite bt_plus_cls.
  2:{ left. intros x r g Hx. rewrite bt_cat_cons, bt_Chr. cbn [lit].
      destruct (93 =? x) eqn:E; [|reflexivity].
      apply N.eqb_eq in E. subst x. discriminate. }
  destruct (plus ishex s8) as [[h s9]|] eqn:E9; [|reflexivity].
  cbn [mbind option_bind].
  rewrite bt_cat_cons, bt_Chr. change (u "]") with [93].
  destruct (lit [93] s9) as [s10|]; [|reflexivity].
  cbn [mbind option_bind]. rewrite bt_cat_nil.
  apply lit_inv in E8. apply plus_inv in E9 as (E9 & _).
  subst s7 s8. rewrite !length_app.
  replace (length (u "0x") + (length h + length s9) - length s9)%nat
    with (length (u "0x" ++ h)) by (rewrite length_app; lia).
  rewrite app_assoc, take_app_length. reflexivity.
Qed.

(** The two loop bodies, with the patterns read in one pass. *)
Lemma subway_line_scan t log raw :
  subway_line (t, log) raw
  = if Py.is_empty (Py.strip raw) then (t, log)
    else
      match subway_scan (Py.strip raw) with
      | Some (g1, g2, g3, _) =>
        match Py.int g1 with
        | Some item_id => (<[item_id := mkSubway g2 g3]> t, log)
        | None => (t, log ++ [SubwayBadId (Py.strip raw)])
        end
      | None => (t, log ++ [SubwayNoMatch (Py.strip raw)])
      end.
Proof.
  unfold subway_line. rewrite match_subway_pattern.
  destruct (Py.is_empty (Py.strip raw)); [reflexivity|].
  now destruct (subway_scan (Py.strip raw)) as [[[[g1 g2] g3] rest]|].
Qed.

Lemma annotate_line_scan g line :
  annotate_line g line
  = if Py.is_empty (Py.strip line) then []
    else
      match leading_ids (Py.strip line) with
      | None => Py.strip line
      | Some (numbers_str, _) =>
        match mapM Py.int (findall_digits numbers_str) with
        | None => Py.strip line
        | Some numbers =>
          if Py.is_empty numbers then Py.strip line
          else
            Py.strip (output_line (Py.join (u ", ") (map Py.str_int numbers))
                                  (query_item g numbers))
        end
      end.
Proof.
  unfold annotate_line. rewrite match_id_pattern.
  destruct (Py.is_empty (Py.strip line)); [reflexivity|].
  destruct (leading_ids (Py.strip line)) as [[grp rest]|]; [|reflexivity].
  unfold Re.group. cbn [fst pred nth]. now rewrite findall_digits_eq.
Qed.


Lemma match_id_pattern_Some s grp rest :
  Re.match_ id_pattern s = Some ([grp], rest)
  ↔ leading_ids s = Some (grp, rest).
Proof.
  rewrite match_id_pattern.
  destruct (leading_ids s) as [[grp' rest']|]; split; congruence.
Qed.

Lemma match_id_pattern_None s :
  Re.match_ id_pattern s = None ↔ leading_ids s = None.
Proof.
  rewrite match_id_pattern.
  destruct (leading_ids s) as [[grp' rest']|]; split; congruence.
Qed.

Lemma match_subway_pattern_Some s g1 g2 g3 rest :
  Re.match_ subway_pattern s = Some ([g1; g2; g3], rest)
  ↔ subway_scan s = Some (g1, g2, g3, rest).
Proof.
  rewrite match_subway_pattern.
  destruct (subway_scan s) as [[[[a b] c] d]|]; split; congruence.
Qed.

End PatternsOfTheProgram.

(** ** The parsers and the loader *)

Section LoaderFacts.

Variable open_file : TablePath -> Encoding -> Opened.

Lemma nth_Forall {A} (P : A -> Prop) (l : list A) n d :
  Forall P l -> P d -> P (nth n l d).
Proof.
  intros Hl Hd. revert n. induction Hl; intros [|n]; simpl; auto.
Qed.

Lemma generic_line_names t log raw :
  names_ok (parsed_items t) -> one_line (Py.strip raw) ->
  names_ok (parsed_items (generic_line (t, log) raw).1).
Proof.
  intros Hok Hraw. unfold generic_line.
  destruct (Py.is_empty (Py.strip raw)); [exact Hok|].
  set (parts := map Py.strip (Py.split (u " -- ") (Py.strip raw))).
  destruct (length parts <? 4)%nat; [exact Hok|].
  destruct (Py.int (nth 0 parts [])) as [id1|]; [|exact Hok].
  destruct (Py.int (nth 1 parts [])) as [id2|]; [|exact Hok].
  cbn [fst parsed_items]. intros id info Hlook.
  destruct (decide (id2 = id)) as [->|Hne].
  - rewrite lookup_insert_eq in Hlook. injection Hlook as <-.
    cbn [item_name].
    apply (nth_Forall (fun s => one_line s ∧ Py.strip s = s));
      [|split; [constructor|reflexivity]].
    unfold parts. apply Forall_map.
    pose proof (split_Forall _ (u " -- ") _ Hraw) as Hsplit.
    eapply Forall_impl; [exact Hsplit|].
    intros s Hs. cbn beta. split; [now apply strip_Forall|apply strip_idem].
  - rewrite lookup_insert_ne in Hlook by exact Hne. eauto.
Qed.

Lemma generic_fold_names lines st :
  names_ok (parsed_items st.1) ->
  Forall (fun l => one_line (Py.strip l)) lines ->
  names_ok (parsed_items (fold_left generic_line lines st).1).
Proof.
  revert st. induction lines as [|l lines IH]; intros [t log] Hok Hl;
    [exact Hok|].
  inversion Hl; subst. simpl fold_left. apply IH; [|assumption].
  now apply generic_line_names.
Qed.

Lemma subway_groups_one_line line g1 g2 g3 rest :
  subway_scan line = Some (g1, g2, g3, rest) -> one_line line ->
  one_line g2 ∧ one_line g3.
Proof.
  intros H Hline.
  destruct (subway_scan_inv _ _ _ _ _ H) as (d & h & -> & _ & _ & _ & _ & _ & _ & ->).
  unfold one_line in *. rewrite !Forall_app in Hline.
  destruct Hline as (_ & _ & _ & _ & _ & H2 & _ & H0x & Hh & _).
  split; [exact H2|]. apply Forall_app. now split.
Qed.

Lemma subway_line_names t log raw :
  subway_ok t -> one_line (Py.strip raw) ->
  subway_ok (subway_line (t, log) raw).1.
Proof.
  intros Hok Hraw. rewrite subway_line_scan.
  destruct (Py.is_empty (Py.strip raw)); [exact Hok|].
  destruct (subway_scan (Py.strip raw)) as [[[[g1 g2] g3] rest]|] eqn:E;
    [|exact Hok].
  destruct (Py.int g1) as [item_id|]; [|exact Hok].
  cbn [fst]. intros id info Hlook.
  destruct (decide (item_id = id)) as [->|Hne].
  - rewrite lookup_insert_eq in Hlook. injection Hlook as <-.
    exact (subway_groups_one_line _ _ _ _ _ E Hraw).
  - rewrite lookup_insert_ne in Hlook by exact Hne. eauto.
Qed.

Lemma subway_fold_names lines st :
  subway_ok st.1 ->
  Forall (fun l => one_line (Py.strip l)) lines ->
  subway_ok (fold_left subway_line lines st).1.
Proof.
  revert st. induction lines as [|l lines IH]; intros [t log] Hok Hl;
    [exact Hok|].
  inversion Hl; subst. simpl fold_left. apply IH; [|assumption].
  now apply subway_line_names.
Qed.

(** No exception leaves [parse_generic_code_table]: [except Exception] takes
    every exception [except FileNotFoundError] leaves, the decoding error
    included. *)
Lemma parse_generic_returns p e :
  ∃ t log, parse_generic_code_table open_file p e = (Returns t, log)
           ∧ names_ok (parsed_items t).
Proof.
  unfold parse_generic_code_table.
  destruct (open_file p e) as [exc|text failure].
  - exists empty_generic.
    destruct exc; eexists; (split; [reflexivity|]); intros id info;
      cbn; now rewrite lookup_empty.
  - pose proof (generic_fold_names (iter_lines [] text) (empty_generic, []))
      as Hok.
    destruct (fold_left generic_line (iter_lines [] text)
                        (empty_generic, [])) as [t log].
    exists t.
    assert (names_ok (parsed_items t)) as Ht.
    { apply Hok.
      - intros id info. cbn. now rewrite lookup_empty.
      - apply iter_lines_clean. constructor. }
    destruct failure as [[| |]|]; eexists; (split; [reflexivity|exact Ht]).
Qed.

Lemma parse_subway_returns p e :
  ∃ t log, parse_subway_code_table_file open_file p e = (Returns t, log)
           ∧ subway_ok t.
Proof.
  unfold parse_subway_code_table_file.
  destruct (open_file p e) as [exc|text failure].
  - exists ∅.
    destruct exc; eexists; (split; [reflexivity|]); intros id info;
      now rewrite lookup_empty.
  - pose proof (subway_fold_names (iter_lines [] text) (∅, [])) as Hok.
    destruct (fold_left subway_line (iter_lines [] text) (∅, []))
      as [t log].
    exists t.
    assert (subway_ok t) as Ht.
    { apply Hok.
      - intros id info. cbn. now rewrite lookup_empty.
      - apply iter_lines_clean. constructor. }
    destruct failure as [[| |]|]; eexists; (split; [reflexivity|exact Ht]).
Qed.

(** What [load_code_table] comes to: the two UTF-8 parses, nothing else. *)
Lemma load_code_table_shape :
  ∃ t log1 s log2,
    parse_generic_code_table open_file code_table_path utf_8
    = (Returns t, log1)
    ∧ parse_subway_code_table_file open_file subway_code_table_path utf_8
      = (Returns s, log2)
    ∧ names_ok (parsed_items t) ∧ subway_ok s
    ∧ load_code_table open_file
      = (mkGlobals (parsed_items t) (main_weapons t) (sub_to_main t) s,
         log1 ++ log2
         ++ [LoadDone (size (parsed_items t)) (size (main_weapons t))
                      (size s)],
         None).
Proof.
  destruct (parse_generic_returns code_table_path utf_8)
    as (t & log1 & Ht & Hnames).
  destruct (parse_subway_returns subway_code_table_path utf_8)
    as (s & log2 & Hs & Hsub).
  exists t, log1, s, log2.
  split; [exact Ht|]. split; [exact Hs|].
  split; [exact Hnames|]. split; [exact Hsub|].
  unfold load_code_table, load_generic, load_subway.
  rewrite Ht, Hs. unfold update_subway, update_generic.
  cbn [item_dict main_weapon_dict sub_to_main_dict subway_item_dict].
  now rewrite !(right_id_L ∅ (∪)).
Qed.

(** The names of a loaded index are tidy. *)
Lemma loaded_tidy : tidy (loaded open_file).
Proof.
  destruct load_code_table_shape
    as (t & log1 & s & log2 & _ & _ & Hnames & Hsub & Hload).
  unfold loaded. rewrite Hload. split; [exact Hnames|exact Hsub].
Qed.

End LoaderFacts.

(** ** Query and line annotation *)

Section AnnotateFacts.

Variable g : Globals.

Lemma query_item_map codes :
  query_item g codes = Py.join [44; 32] (map (resolve g) codes).
Proof. unfold query_item. now rewrite fold_append_map. Qed.

Lemma query_item_one code : query_item g [code] = resolve g code.
Proof. now rewrite query_item_map. Qed.

Lemma annotate_line_blank line :
  Py.strip line = [] -> annotate_line g line = [].
Proof. intros H. rewrite annotate_line_scan. now rewrite H. Qed.

Lemma annotate_line_no_ids line :
  leading_ids (Py.strip line) = None ->
  annotate_line g line = Py.strip line.
Proof.
  intros H. rewrite annotate_line_scan. rewrite H.
  now destruct (Py.strip line).
Qed.

(** On a line with leading ids whose runs of digits [int] converts, the
    list of numbers is not empty and the annotator writes the ids and the
    comment. *)
Lemma annotate_line_ids line grp rest nums :
  leading_ids (Py.strip line) = Some (grp, rest) ->
  mapM Py.int (findall_digits grp) = Some nums ->
  nums ≠ [] ∧ Forall convertible nums
  ∧ annotate_line g line
    = Py.strip (output_line (Py.join [44; 32] (map Py.str_int nums))
                            (query_item g nums)).
Proof.
  intros H Hnums.
  destruct (leading_ids_inv _ _ _ H) as (ws & c & r & Hs & -> & Hc & _).
  destruct (mapM_int_Some _ _ (findall_tokens (c :: r)) Hnums)
    as (_ & Hpos & Hlen).
  assert (Hne : nums ≠ []).
  { pose proof (findall_head_digit c r Hc) as Hne.
    destruct nums; [|discriminate].
    destruct (findall_digits (c :: r)); [congruence|discriminate]. }
  split; [exact Hne|]. split; [exact Hpos|].
  rewrite annotate_line_scan. rewrite H, Hnums.
  destruct (Py.strip line) eqn:E.
  - destruct ws; discriminate.
  - destruct nums; [congruence|reflexivity].
Qed.

(** Where [int] raises on one of the runs the line is written back
    stripped. *)
Lemma annotate_line_overlong line grp rest :
  leading_ids (Py.strip line) = Some (grp, rest) ->
  mapM Py.int (findall_digits grp) = None ->
  annotate_line g line = Py.strip line.
Proof.
  intros H Hnums. rewrite annotate_line_scan. rewrite H, Hnums.
  now destruct (Py.strip line).
Qed.

(** Which of the two it is: the lengths of the runs decide. *)
Lemma annotate_line_limit line grp rest :
  leading_ids (Py.strip line) = Some (grp, rest) ->
  if forallb within_limit (findall_digits grp)
  then ∃ nums, mapM Py.int (findall_digits grp) = Some nums
  else mapM Py.int (findall_digits grp) = None.
Proof.
  intros _. pose proof (mapM_int_tokens _ (findall_tokens grp)) as H.
  destruct (forallb within_limit (findall_digits grp)); [|exact H].
  destruct H as (ns & Hns & _). now exists ns.
Qed.

Lemma canonical_last t ts :
  token t -> Forall token ts ->
  ∃ a x, t ++ more_ids ts = a ++ [x] ∧ isdigit x = true.
Proof.
  intros Ht Hts. revert t Ht.
  induction Hts as [|t' ts Ht' Hts IH]; intros t Ht.
  - destruct (token_last t Ht) as (x & a & Hrev & Hx).
    exists (rev a), x. split; [|exact Hx].
    simpl. rewrite app_nil_r, <- (rev_involutive t), Hrev. reflexivity.
  - destruct (IH t' Ht') as (a & x & Ha & Hx).
    exists (t ++ 44 :: 32 :: a), x. split; [|exact Hx].
    change (more_ids (t' :: ts)) with (44 :: 32 :: t' ++ more_ids ts).
    rewrite Ha, <- app_assoc. reflexivity.
Qed.

(** The line written for ids: the canonical id string, then nothing or
    [ #] and the comment without the white space that ended it. *)
Lemma output_shape t ts comment :
  token t -> Forall token ts ->
  Py.strip (output_line (t ++ more_ids ts) comment)
  = t ++ more_ids ts
    ++ (if Py.is_empty comment then []
        else 32 :: 35 :: Py.rstrip comment).
Proof.
  intros Ht Hts.
  destruct (token_head t Ht) as (c & r & Hcr & Hc).
  destruct (canonical_last t ts Ht Hts) as (a & x & Ha & Hx).
  pose proof (digit_not_space c Hc) as Hcs.
  pose proof (digit_not_space x Hx) as Hxs.
  unfold output_line. destruct comment as [|y comment]; cbn [Py.is_empty].
  - rewrite !app_nil_r.
    assert (E : t ++ more_ids ts = c :: r ++ more_ids ts)
      by now rewrite Hcr.
    rewrite E, strip_nonspace_head by exact Hcs. rewrite <- E, Ha.
    rewrite rstrip_app_nonspace by exact Hxs. reflexivity.
  - change (u " #") with [32; 35].
    assert (E : (t ++ more_ids ts) ++ [32; 35] ++ y :: comment
                = c :: (r ++ more_ids ts ++ [32]) ++ 35 :: y :: comment).
    { rewrite Hcr. cbn [app]. rewrite <- !app_assoc. reflexivity. }
    rewrite E, strip_nonspace_head by exact Hcs.
    change (c :: (r ++ more_ids ts ++ [32]) ++ 35 :: y :: comment)
      with ((c :: r ++ more_ids ts ++ [32]) ++ 35 :: y :: comment).
    rewrite rstrip_app_nonspace by reflexivity.
    rewrite Hcr. cbn [app]. rewrite <- !app_assoc. reflexivity.
Qed.

Lemma output_tail comment :
  comment_tail (if Py.is_empty comment then []
                else 32 :: 35 :: Py.rstrip comment).
Proof. destruct comment; [now left|right; eauto]. Qed.

Lemma str_ints_tokens nums :
  Forall (fun n => (0 <= n)%Z) nums -> Forall token (map Py.str_int nums).
Proof.
  intros H. apply Forall_map. eapply Forall_impl; [exact H|].
  intros n Hn. now apply str_int_token.
Qed.

Lemma convertible_nonneg nums :
  Forall convertible nums -> Forall (fun n => (0 <= n)%Z) nums.
Proof. intros H. eapply Forall_impl; [exact H|]. now intros n [Hn _]. Qed.

(** Annotating the line the annotator wrote for these numbers writes it
    again. *)
Lemma annotate_written nums :
  nums ≠ [] -> Forall convertible nums ->
  let written :=
    Py.strip (output_line (Py.join [44; 32] (map Py.str_int nums))
                          (query_item g nums)) in
  annotate_line g written = written.
Proof.
  intros Hne Hpos written.
  pose proof (str_ints_tokens nums (convertible_nonneg nums Hpos)) as Htok.
  pose proof (mapM_int_str nums Hpos) as Hback.
  destruct nums as [|n nums]; [congruence|].
  cbn [map] in *. inversion Htok as [|? ? Ht Hts]; subst.
  assert (Hw : written
               = Py.str_int n ++ more_ids (map Py.str_int nums)
                 ++ (if Py.is_empty (query_item g (n :: nums)) then []
                     else 32 :: 35 :: Py.rstrip (query_item g (n :: nums)))).
  { unfold written. rewrite join_more_ids. now apply output_shape. }
  assert (Hstrip : Py.strip written = written)
    by (unfold written; apply strip_idem).
  assert (Hlead : leading_ids written
                  = Some (Py.str_int n ++ more_ids (map Py.str_int nums),
                          if Py.is_empty (query_item g (n :: nums)) then []
                          else 32 :: 35
                               :: Py.rstrip (query_item g (n :: nums)))).
  { rewrite Hw. apply leading_ids_canonical; try assumption.
    apply output_tail. }
  assert (Hfull : Py.is_empty written = false).
  { rewrite Hw. destruct (token_head _ Ht) as (c & r & -> & _).
    reflexivity. }
  rewrite annotate_line_scan. rewrite Hstrip, Hfull, Hlead.
  rewrite findall_canonical by assumption.
  rewrite Hback. reflexivity.
Qed.

End AnnotateFacts.

(** ** Lines of the output *)

Section OutputFacts.

Variable g : Globals.
Hypothesis g_tidy : tidy g.

Lemma one_line_check s :
  forallb (fun c => negb (c =? 10)) s = true -> one_line s.
Proof.
  intros H. apply Forall_forall. intros c Hc.
  rewrite forallb_forall in H. apply list_elem_of_In in Hc.
  specialize (H c Hc).
  apply negb_true_iff in H. now apply N.eqb_neq in H.
Qed.

Lemma ascii_digits_one_line s :
  forallb ascii_digit s = true -> one_line s.
Proof.
  intros H. apply one_line_check.
  rewrite forallb_forall in *. intros c Hc. specialize (H c Hc).
  unfold ascii_digit in H. apply andb_true_iff in H as [H _].
  apply N.leb_le in H. apply negb_true_iff. apply N.eqb_neq. lia.
Qed.

Lemma str_int_one_line z : one_line (Py.str_int z).
Proof.
  unfold Py.str_int.
  destruct (z <? 0)%Z; [constructor; [discriminate|]|];
    apply ascii_digits_one_line; apply str_N_spec.
Qed.

Lemma resolve_one_line code : one_line (resolve g code).
Proof.
  destruct g_tidy as [Hnames Hsub]. unfold resolve.
  destruct (item_dict g !! code) as [info|] eqn:E.
  - now apply (Hnames code).
  - destruct (subway_item_dict g !! code) as [info|] eqn:E'.
    + destruct (Hsub code info E') as [H1 H2].
      unfold one_line. rewrite !Forall_app.
      repeat split; try assumption; now apply one_line_check.
    + unfold one_line. rewrite Forall_app. split.
      * now apply one_line_check.
      * apply str_int_one_line.
Qed.

Lemma query_item_one_line codes : one_line (query_item g codes).
Proof.
  rewrite query_item_map. apply join_Forall.
  - now apply one_line_check.
  - apply Forall_map. apply Forall_forall. intros c _.
    apply resolve_one_line.
Qed.

(** A line without line feed is annotated into one. *)
Lemma annotate_line_one_line line :
  one_line line -> one_line (annotate_line g line).
Proof.
  intros Hline.
  destruct (leading_ids (Py.strip line)) as [[grp rest]|] eqn:E;
    [|rewrite annotate_line_no_ids by exact E; now apply strip_Forall].
  destruct (mapM Py.int (findall_digits grp)) as [nums|] eqn:En;
    [|rewrite (annotate_line_overlong g line grp rest E En);
      now apply strip_Forall].
  - destruct (annotate_line_ids g line grp rest nums E En) as (_ & _ & ->).
    apply strip_Forall. unfold output_line.
    assert (Hids : one_line (Py.join [44; 32] (map Py.str_int nums))).
    { apply join_Forall; [now apply one_line_check|].
      apply Forall_map. apply Forall_forall. intros z _.
      apply str_int_one_line. }
    destruct (Py.is_empty (query_item g nums)); [exact Hids|].
    unfold one_line. rewrite !Forall_app. repeat split.
    + exact Hids.
    + now apply one_line_check.
    + apply query_item_one_line.
Qed.

(** The names a loaded index answers end with no white space. *)
Lemma resolve_rstrip code : Py.rstrip (resolve g code) = resolve g code.
Proof.
  destruct g_tidy as [Hnames Hsub]. unfold resolve.
  destruct (item_dict g !! code) as [info|] eqn:E.
  - destruct (Hnames code info E) as [_ H].
    rewrite <- H at 1. unfold Py.strip. rewrite rstrip_idem. exact H.
  - destruct (subway_item_dict g !! code) as [info|] eqn:E'.
    + change (u ")") with [41]. rewrite !app_assoc.
      now rewrite rstrip_app_nonspace by reflexivity.
    + destruct (token_last (Py.str_N (Z.to_N (Z.abs code))))
        as (x & a & Hrev & Hx); [apply str_N_token|].
      assert (Hstr : Py.str_N (Z.to_N (Z.abs code)) = rev a ++ [x]).
      { rewrite <- (rev_involutive (Py.str_N (Z.to_N (Z.abs code)))).
        now rewrite Hrev. }
      assert (Hs : ∃ b, Py.str_int code = b ++ [x]).
      { unfold Py.str_int. destruct (code <? 0)%Z eqn:Ez.
        - apply Z.ltb_lt in Ez.
          replace (- code)%Z with (Z.abs code) by lia.
          exists (45 :: rev a). now rewrite Hstr.
        - apply Z.ltb_ge in Ez.
          replace (Z.abs code) with code in Hstr by lia.
          exists (rev a). exact Hstr. }
      destruct Hs as (b & ->). rewrite app_assoc.
      now rewrite rstrip_app_nonspace by now apply digit_not_space.
Qed.

(** The annotated text, cut at line feeds again, is the list of the
    annotated lines. *)
Lemma annotate_lines text :
  Py.split [10] (annotate g text)
  = map (annotate_line g) (Py.split [10] text).
Proof.
  unfold annotate. rewrite fold_append_map. cbn [app].
  apply split_join_lines.
  - pose proof (split_not_nil [10] text) as Hne.
    destruct (Py.split [10] text); [congruence|discriminate].
  - apply Forall_map. eapply Forall_impl; [apply split_lines_clean|].
    intros line Hline. now apply annotate_line_one_line.
Qed.

End OutputFacts.

(** ** Runs of digits beyond the limit of [int] *)

Section LimitFacts.

Lemma forallb_repeat {A} (P : A -> bool) x n :
  P x = true -> forallb P (repeat x n) = true.
Proof.
  intros H. induction n as [|n IH]; [reflexivity|].
  cbn [repeat forallb]. now rewrite H, IH.
Qed.

Lemma overlong_id_token : token overlong_id.
Proof.
  split; [discriminate|]. now apply forallb_repeat.
Qed.

Lemma overlong_id_limit : within_limit overlong_id = false.
Proof.
  unfold within_limit, overlong_id. rewrite repeat_length.
  apply N.leb_gt. unfold Py.max_str_digits. lia.
Qed.

Lemma findall_single ds : token ds -> findall_digits ds = [ds].
Proof.
  intros Hds. rewrite <- (app_nil_r ds) at 1.
  now apply (findall_canonical ds []).
Qed.

(** One id and a text that goes on with no comma and no digit. *)
Lemma leading_ids_single ds tail :
  token ds ->
  match tail with [] => True | c :: _ => isdigit c = false end ->
  match Py.lstrip tail with 44 :: _ => False | _ => True end ->
  leading_ids (ds ++ tail) = Some (ds, tail).
Proof.
  intros Hds Htail Hcomma. unfold leading_ids.
  destruct (token_head ds Hds) as (x & r & -> & Hx).
  destruct Hds as [Hne Hds].
  assert (E1 : span isspace ((x :: r) ++ tail) = ([], (x :: r) ++ tail)).
  { simpl. now rewrite (digit_not_space x Hx). }
  rewrite E1.
  rewrite (plus_run isdigit (x :: r) tail);
    [|discriminate|exact Hds|exact Htail].
  rewrite ids_more_stop.
  - now rewrite app_nil_r.
  - pose proof (span_space_lstrip tail) as Hl.
    destruct (span isspace tail) as [ws s1]. cbn [snd] in Hl.
    now rewrite Hl.
Qed.

(** A line that starts with a digit and ends with a character that is no
    white space is stripped already. *)
Lemma strip_digit_line ds a y :
  token ds -> isspace y = false -> Py.strip (ds ++ a ++ [y]) = ds ++ a ++ [y].
Proof.
  intros Hds Hy. destruct (token_head ds Hds) as (x & r & -> & Hx).
  cbn [app]. rewrite strip_nonspace_head by now apply digit_not_space.
  change (x :: r ++ a ++ [y]) with ((x :: r) ++ a ++ [y]).
  rewrite app_assoc, rstrip_app_nonspace by exact Hy.
  now rewrite rstrip_nil.
Qed.

(** The line of one id: annotated when [int] converts the run, written
    back when the run is beyond the limit. *)
Lemma annotate_line_run g line ds rest :
  leading_ids (Py.strip line) = Some (ds, rest) -> token ds ->
  if within_limit ds
  then ∃ n, Py.int ds = Some n ∧ convertible n
            ∧ annotate_line g line
              = Py.strip (output_line (Py.str_int n) (resolve g n))
  else Py.int ds = None ∧ annotate_line g line = Py.strip line.
Proof.
  intros Hlead Hds. pose proof (findall_single ds Hds) as Hfind.
  destruct (within_limit ds) eqn:E.
  - destruct (int_token ds Hds E) as (n & Hn & Hc).
    exists n. split; [exact Hn|]. split; [exact Hc|].
    assert (Hnums : mapM Py.int (findall_digits ds) = Some [n]).
    { rewrite Hfind. cbn [mapM]. now rewrite Hn. }
    destruct (annotate_line_ids g line ds rest [n] Hlead Hnums)
      as (_ & _ & ->).
    now rewrite query_item_one.
  - pose proof (int_token_overlong ds Hds E) as Hn.
    split; [exact Hn|].
    apply (annotate_line_overlong g line ds rest Hlead).
    rewrite Hfind. cbn [mapM]. now rewrite Hn.
Qed.

(** At the limit and one digit beyond it. *)
Example int_limit_sample :
  (∃ n, Py.int (repeat 49 (N.to_nat Py.max_str_digits)) = Some n)
  ∧ Py.int overlong_id = None.
Proof.
  split.
  - destruct (int_token (repeat 49 (N.to_nat Py.max_str_digits)))
      as (n & Hn & _).
    + split; [discriminate|]. now apply forallb_repeat.
    + unfold within_limit. rewrite repeat_length, N2Nat.id.
      apply N.leb_refl.
    + now exists n.
  - apply int_token_overlong;
      [apply overlong_id_token|apply overlong_id_limit].
Qed.

End LimitFacts.

(** * The specification against the code *)

(** ** Annotation of a line with leading ids *)

(** Annotating the line the annotator wrote gives that line again, for every
    line and every index. *)
Lemma annotate_line_twice g line :
  annotate_line g (annotate_line g line) = annotate_line g line.
Proof.
  destruct (leading_ids (Py.strip line)) as [[grp rest]|] eqn:E.
  - destruct (mapM Py.int (findall_digits grp)) as [nums|] eqn:En.
    + destruct (annotate_line_ids g line grp rest nums E En)
        as (Hne & Hpos & ->).
      now apply annotate_written.
    + rewrite (annotate_line_overlong g line grp rest E En).
      assert (E' : leading_ids (Py.strip (Py.strip line)) = Some (grp, rest))
        by now rewrite strip_idem.
      rewrite (annotate_line_overlong g (Py.strip line) grp rest E' En).
      apply strip_idem.
  - rewrite (annotate_line_no_ids g line E).
    assert (E' : leading_ids (Py.strip (Py.strip line)) = None)
      by now rewrite strip_idem.
    rewrite (annotate_line_no_ids g (Py.strip line) E').
    apply strip_idem.
Qed.

(** A request is annotated when a table has been loaded. *)
Lemma index_annotates g text :
  item_dict g ≠ ∅ ∨ subway_item_dict g ≠ ∅ ->
  index g POST text = mkRendered (annotate g text) [].
Proof.
  intros Hloaded. unfold index.
  assert (E : (size (item_dict g) =? 0)%nat
              && (size (subway_item_dict g) =? 0)%nat = false).
  { destruct Hloaded as [H|H]; apply andb_false_iff; [left|right];
      apply Nat.eqb_neq; now rewrite map_size_empty_iff. }
  now rewrite E.
Qed.

(** C5.  Annotating an annotated text changes nothing: for the index the
    program has loaded and every input text, single-line or not,
    [annotate (annotate x) = annotate x].  On the second pass every line
    yields the ids it yielded on the first, the comment written after them is
    dropped and written again.  The equation holds in particular for the
    lines whose leading ids one pass leaves unchanged. *)
Theorem annotate_twice open_file text :
  let g := loaded open_file in
  annotate g (annotate g text) = annotate g text.
Proof.
  intros g.
  pose proof (loaded_tidy open_file) as Htidy. fold g in Htidy.
  unfold annotate at 1. rewrite fold_append_map. cbn [app].
  rewrite (annotate_lines g Htidy text), map_map.
  rewrite (map_ext _ _ (annotate_line_twice g)).
  unfold annotate. now rewrite fold_append_map.
Qed.

(** C6 as the code has it.  On a line that starts with ids whose runs of
    digits are within the limit of [int], the text after them is dropped and
    the ids are written again in canonical form: the decimal values of the
    digit runs of the matched text, joined by a comma and a blank; after
    them comes nothing, or [ #] and the comment, and two such lines with the
    same leading ids are annotated alike whatever follows the ids.  Where a
    run of digits is beyond the limit [int] raises, and the line is written
    back stripped, the text after the ids with it. *)
Theorem trailing_text_discarded g line grp rest :
  Re.match_ id_pattern (Py.strip line) = Some ([grp], rest) ->
  if forallb within_limit (Re.findall digits grp)
  then
    ∃ nums,
      mapM Py.int (Re.findall digits grp) = Some nums ∧ nums ≠ []
      ∧ annotate_line g line
        = Py.join (u ", ") (map Py.str_int nums)
          ++ (if Py.is_empty (query_item g nums) then []
              else u " #" ++ Py.rstrip (query_item g nums))
      ∧ ∀ line' rest',
          Re.match_ id_pattern (Py.strip line') = Some ([grp], rest') ->
          annotate_line g line' = annotate_line g line
  else
    mapM Py.int (Re.findall digits grp) = None
    ∧ annotate_line g line = Py.strip line.
Proof.
  intros H. apply match_id_pattern_Some in H.
  pose proof (annotate_line_limit line grp rest H) as Hlim.
  rewrite findall_digits_eq.
  destruct (forallb within_limit (findall_digits grp)).
  - destruct Hlim as (nums & Hnums).
    destruct (annotate_line_ids g line grp rest nums H Hnums)
      as (Hne & Hpos & Hline).
    exists nums.
    split; [exact Hnums|]. split; [exact Hne|]. split.
    + rewrite Hline. change (u ", ") with [44; 32].
      pose proof (str_ints_tokens nums (convertible_nonneg nums Hpos))
        as Htok.
      destruct nums as [|n nums]; [congruence|].
      cbn [map] in *. inversion Htok as [|? ? Ht Hts]; subst.
      rewrite join_more_ids, output_shape by assumption.
      rewrite <- app_assoc. reflexivity.
    + intros line' rest' H'. apply match_id_pattern_Some in H'.
      destruct (annotate_line_ids g line' grp rest' nums H' Hnums)
        as (_ & _ & Hline').
      now rewrite Hline, Hline'.
  - split; [exact Hlim|].
    now apply (annotate_line_overlong g line grp rest).
Qed.

Lemma trailing_text_discarded_note :
  let g := loaded scenario_files in
  let line := u "  12 ,  34   some note" in
  (Re.match_ id_pattern (Py.strip line)
   = Some ([u "12 ,  34"], u "   some note")
   ∧ forallb within_limit (Re.findall digits (u "12 ,  34")) = true)
  ∧ ∃ nums,
      mapM Py.int (Re.findall digits (u "12 ,  34")) = Some nums ∧ nums ≠ []
      ∧ annotate_line g line
        = Py.join (u ", ") (map Py.str_int nums)
          ++ (if Py.is_empty (query_item g nums) then []
              else u " #" ++ Py.rstrip (query_item g nums))
      ∧ ∀ line' rest',
          Re.match_ id_pattern (Py.strip line')
          = Some ([u "12 ,  34"], rest') ->
          annotate_line g line' = annotate_line g line.
Proof.
  intros g line.
  assert (Hm : Re.match_ id_pattern (Py.strip line)
               = Some ([u "12 ,  34"], u "   some note"))
    by (vm_compute; reflexivity).
  assert (Hl : forallb within_limit (Re.findall digits (u "12 ,  34")) = true)
    by (vm_compute; reflexivity).
  split; [split; [exact Hm|exact Hl]|].
  pose proof (trailing_text_discarded g line _ _ Hm) as H.
  rewrite Hl in H. exact H.
Defined.

(** C6 as stated fails on a run of digits beyond the limit of [int]: the
    line made of 4301 digits and a note is written back as it is, the note
    with it. *)
Lemma trailing_text_echoed :
  let g := loaded scenario_files in
  let line := overlong_id ++ u " some note" in
  Re.match_ id_pattern (Py.strip line)
  = Some ([overlong_id], u " some note")
  ∧ mapM Py.int (Re.findall digits overlong_id) = None
  ∧ annotate_line g line = line.
Proof.
  intros g line.
  assert (Hs : Py.strip line = line).
  { unfold line. change (u " some note") with (u " some not" ++ [101]).
    now apply strip_digit_line; [apply overlong_id_token|]. }
  assert (Hlead : leading_ids (Py.strip line)
                  = Some (overlong_id, u " some note")).
  { rewrite Hs. apply leading_ids_single;
      [apply overlong_id_token|reflexivity|exact I]. }
  pose proof (annotate_line_run g line _ _ Hlead overlong_id_token) as H.
  rewrite overlong_id_limit in H. destruct H as [Hint Hline].
  split; [now apply match_id_pattern_Some|]. split.
  - rewrite findall_digits_eq, (findall_single _ overlong_id_token).
    cbn [mapM]. rewrite Hint. reflexivity.
  - rewrite Hline. exact Hs.
Qed.

(** The line of the scenario, under an index that knows neither id. *)
Example note_line_annotated :
  annotate_line (loaded scenario_files) (u "  12 ,  34   some note")
  = u "12, 34 #未找到ID 12, 未找到ID 34".
Proof. vm_compute. reflexivity. Qed.

(** C7.  One output line per input line: cut at line feeds, the annotated
    text is the list of the annotated input lines, so both have the same
    number of lines; a line that is blank once stripped comes out empty, and
    a line without leading ids comes out stripped and otherwise unchanged. *)
Theorem one_output_line_per_input_line open_file text :
  let g := loaded open_file in
  let out := annotate g text in
  Py.split [10] out = map (annotate_line g) (Py.split [10] text)
  ∧ length (Py.split [10] out) = length (Py.split [10] text)
  ∧ ∀ (i : nat) line,
      Py.split [10] text !! i = Some line ->
      (Py.strip line = [] -> Py.split [10] out !! i = Some [])
      ∧ (Re.match_ id_pattern (Py.strip line) = None ->
         Py.split [10] out !! i = Some (Py.strip line)).
Proof.
  intros g out.
  pose proof (loaded_tidy open_file) as Htidy. fold g in Htidy.
  pose proof (annotate_lines g Htidy text) as Hlines. fold out in Hlines.
  split; [exact Hlines|]. split.
  - rewrite Hlines. apply length_map.
  - intros i line Hi. rewrite Hlines.
    change (map (annotate_line g) (Py.split [10] text))
      with (annotate_line g <$> Py.split [10] text).
    rewrite list_lookup_fmap, Hi. cbn [fmap option_fmap option_map].
    split; intros H.
    + now rewrite annotate_line_blank.
    + apply match_id_pattern_None in H. now rewrite annotate_line_no_ids.
Qed.

(** Three input lines, three output lines. *)
Example three_lines :
  annotate (loaded scenario_files)
           (lines_text [u "101"; u "  "; u " hello world "])
  = lines_text [u "101 #AK47步枪"; u ""; u "hello world"].
Proof. vm_compute. reflexivity. Qed.

(** C10 as the code has it.  Digits glued to a character that is no digit,
    no white space and no comma are leading ids all the same.  When the run
    is within the limit of [int] the line is annotated for its value and
    the glued text is dropped: the line written is the value, then [ #] and
    the resolved name, or the value alone where the item was stored with an
    empty name.  When the run is beyond the limit [int] raises and the line
    is written back stripped, the glued text with it. *)
Theorem glued_suffix_annotated open_file ds c rest :
  token ds -> isdigit c = false -> isspace c = false -> c ≠ 44 ->
  let g := loaded open_file in
  if within_limit ds
  then ∃ n, Py.int ds = Some n
            ∧ annotate_line g (ds ++ c :: rest)
              = if Py.is_empty (resolve g n) then Py.str_int n
                else Py.str_int n ++ u " #" ++ resolve g n
  else Py.int ds = None
       ∧ annotate_line g (ds ++ c :: rest) = ds ++ c :: Py.rstrip rest.
Proof.
  intros Hds Hc Hsp Hcomma g.
  pose proof (loaded_tidy open_file) as Htidy. fold g in Htidy.
  destruct (token_head ds Hds) as (x & r & Hxr & Hx).
  assert (Hstrip : Py.strip (ds ++ c :: rest) = ds ++ c :: Py.rstrip rest).
  { rewrite Hxr. cbn [app].
    rewrite strip_nonspace_head by now apply digit_not_space.
    change (x :: r ++ c :: rest) with ((x :: r) ++ c :: rest).
    now rewrite rstrip_app_nonspace. }
  assert (Hlead : leading_ids (Py.strip (ds ++ c :: rest))
                  = Some (ds, c :: Py.rstrip rest)).
  { rewrite Hstrip. now apply leading_ids_glued. }
  pose proof (annotate_line_run g _ _ _ Hlead Hds) as H.
  destruct (within_limit ds).
  - destruct H as (n & Hn & Hconv & Hline).
    exists n. split; [exact Hn|]. rewrite Hline.
    rewrite <- (app_nil_r (Py.str_int n)) at 1.
    rewrite (output_shape (Py.str_int n) []) by
        (try apply str_int_token; try apply Hconv; auto).
    rewrite resolve_rstrip by exact Htidy.
    cbn [more_ids flat_map app].
    destruct (resolve g n); cbn [Py.is_empty];
      [apply app_nil_r|reflexivity].
  - destruct H as [Hn Hline]. split; [exact Hn|].
    now rewrite Hline.
Qed.

Lemma glued_suffix_annotated_abc :
  let g := loaded scenario_files in
  (token (u "101") ∧ isdigit 97 = false ∧ isspace 97 = false ∧ 97 ≠ 44
   ∧ within_limit (u "101") = true)
  ∧ ∃ n, Py.int (u "101") = Some n
         ∧ annotate_line g (u "101" ++ 97 :: u "bc")
           = if Py.is_empty (resolve g n) then Py.str_int n
             else Py.str_int n ++ u " #" ++ resolve g n.
Proof.
  intros g.
  assert (H : token (u "101") ∧ isdigit 97 = false ∧ isspace 97 = false
              ∧ 97 ≠ 44 ∧ within_limit (u "101") = true).
  { split; [split; [discriminate|reflexivity]|].
    split; [reflexivity|]. split; [reflexivity|].
    split; [discriminate|reflexivity]. }
  split; [exact H|].
  destruct H as (H1 & H2 & H3 & H4 & H5).
  pose proof (glued_suffix_annotated scenario_files _ _ (u "bc") H1 H2 H3 H4)
    as H.
  cbv zeta in H. rewrite H5 in H. exact H.
Defined.

(** C10 as stated fails, in two ways.  The generic table line
    [1 -- 123 --  -- x] stores item 123 with an empty name, and the line
    [123abc] is then annotated [123], without [ #].  And a run of 4301
    digits glued to [abc] is not annotated at all: [int] raises on it and
    the line is written back unchanged. *)
Lemma glued_suffix_blank_name :
  let g := loaded blank_name_files in
  (annotate_line g (u "123abc") = u "123"
   ∧ annotate_line g (u "123abc") ≠ u "123 #" ++ resolve g 123)
  ∧ Py.int overlong_id = None
  ∧ annotate_line g (overlong_id ++ u "abc") = overlong_id ++ u "abc".
Proof.
  intros g. split.
  - split; [vm_compute; reflexivity|].
    intros H. vm_compute in H. discriminate.
  - assert (Hs : Py.strip (overlong_id ++ u "abc") = overlong_id ++ u "abc").
    { change (u "abc") with (u "ab" ++ [99]).
      now apply strip_digit_line; [apply overlong_id_token|]. }
    assert (Hlead : leading_ids (Py.strip (overlong_id ++ u "abc"))
                    = Some (overlong_id, u "abc")).
    { rewrite Hs. apply leading_ids_single;
        [apply overlong_id_token|reflexivity|exact I]. }
    pose proof (annotate_line_run g _ _ _ Hlead overlong_id_token) as H.
    rewrite overlong_id_limit in H. destruct H as [Hint Hline].
    split; [exact Hint|]. now rewrite Hline.
Qed.

(** ** The scenario of the specification *)

(** C1.  The index of the scenario holds item 101 (a main weapon named as
    the scenario says) and item 201 (a magazine of 101) besides the subway
    item 501, and the five input lines are annotated as the specification
    says.  The index is the one loaded from table lines that carry the
    generic records of the scenario, with the fourth field the parser asks
    for. *)
Theorem scenario_annotated :
  let g := loaded scenario_files in
  item_dict g !! 101%Z = Some (mkItem (u "AK47步枪") MainWeapon None)
  ∧ item_dict g !! 201%Z = Some (mkItem (u "AK47弹匣") Magazine (Some 101%Z))
  ∧ subway_item_dict g !! 501%Z
    = Some (mkSubway (u "金色涂装") (u "0xFFD700"))
  ∧ index g POST scenario_input = mkRendered scenario_output [].
Proof. vm_compute. repeat split. Qed.

(** The generic records of the scenario are not table lines as they
    stand: written to the table file with their three fields, the parser
    skips both with a warning, the generic dictionary stays empty and the
    ids 101 and 201 are annotated as not found. *)
Example scenario_records_as_lines :
  let g := loaded spec_files in
  (load_code_table spec_files).1.2
  = [GenericBadFormat (u "1 -- 101 -- AK47步枪");
     GenericBadFormat (u "101 -- 201 -- AK47弹匣");
     LoadDone 0 0 1]
  ∧ item_dict g = ∅
  ∧ final_text (index g POST scenario_input)
    = lines_text [u "101 #未找到ID 101"; u "201 #未找到ID 201";
                  u "501 #金色涂装 (地铁, 0xFFD700)"; u "999 #未找到ID 999";
                  u "hello world"]
  ∧ final_text (index g POST scenario_input) ≠ scenario_output.
Proof.
  split; [vm_compute; reflexivity|].
  split; [vm_compute; reflexivity|].
  split; [vm_compute; reflexivity|].
  intros H. vm_compute in H. discriminate.
Qed.

(** ** Lookup *)

(** C2 as the code has it.  For every integer the lookup answers a text: the
    name of the generic item when there is one, whatever the subway table
    holds; else the subway name with its marker and code; else the
    not-found text, which ends with the decimal writing of the id: read as
    a number it is the id, and [int] reads it so for every id it gives on a
    run of digits.  The last two are never empty; the generic name is the
    name field of the table line, empty fields included. *)
Theorem resolve_result g code :
  match item_dict g !! code, subway_item_dict g !! code with
  | Some info, _ => resolve g code = item_name info
  | None, Some info =>
    resolve g code
    = subway_name info ++ u " (地铁, " ++ hex_code info ++ u ")"
    ∧ resolve g code ≠ []
  | None, None =>
    resolve g code = u "未找到ID " ++ Py.str_int code
    ∧ resolve g code ≠ []
    ∧ Py.int_unlimited (Py.str_int code) = Some code
    ∧ (convertible code -> Py.int (Py.str_int code) = Some code)
  end.
Proof.
  unfold resolve.
  destruct (item_dict g !! code) as [info|]; [reflexivity|].
  destruct (subway_item_dict g !! code) as [info|].
  - split; [reflexivity|]. intros H.
    apply (f_equal (@length N)) in H. rewrite !length_app in H.
    change (length (u " (地铁, ")) with 6%nat in H. simpl in H. lia.
  - split; [reflexivity|]. split; [discriminate|].
    split; [apply int_unlimited_str_int|apply int_str_int].
Qed.

(** C2 as stated fails.  The generic table line [1 -- 123 --  -- x] has four
    fields and an empty name; item 123 is stored and the lookup answers the
    empty text for it. *)
Lemma resolve_blank_name :
  let g := loaded blank_name_files in
  item_dict g !! 123%Z = Some (mkItem [] MainWeapon None)
  ∧ resolve g 123 = [].
Proof. vm_compute. split; reflexivity. Qed.

(** ** Generic table lines *)

Lemma has_keyword_existsb name ks :
  has_keyword name ks ↔ existsb (fun k => Py.contains k name) ks = true.
Proof.
  unfold has_keyword. rewrite existsb_exists. reflexivity.
Qed.

(** The chain of tests of the parser follows the order of the classes. *)
Lemma classify_first_class name :
  first_class name keyword_classes (classify name).
Proof.
  unfold classify, keyword_classes.
  destruct (existsb _ [u "弹匣"]) eqn:E1;
    [apply fc_here; now apply has_keyword_existsb|].
  apply fc_later; [rewrite has_keyword_existsb; congruence|].
  destruct (existsb _ [u "枪口"]) eqn:E2;
    [apply fc_here; now apply has_keyword_existsb|].
  apply fc_later; [rewrite has_keyword_existsb; congruence|].
  destruct (existsb _ [u "握把"]) eqn:E3;
    [apply fc_here; now apply has_keyword_existsb|].
  apply fc_later; [rewrite has_keyword_existsb; congruence|].
  destruct (existsb _ [u "瞄具"; u "瞄准镜"; u "机瞄"]) eqn:E4;
    [apply fc_here; now apply has_keyword_existsb|].
  apply fc_later; [rewrite has_keyword_existsb; congruence|].
  apply fc_default.
Qed.

(** The order of the classes settles the type. *)
Lemma first_class_unique name classes t t' :
  first_class name classes t -> first_class name classes t' -> t = t'.
Proof.
  intros H. revert t'. induction H; intros t'' H';
    inversion H'; subst; try reflexivity; try contradiction; auto.
Qed.

(** C3.  A generic line with four fields or more whose first two fields are
    integers is stored without warning, under the second integer; its type
    is that of the first keyword class met in the name, [MainWeapon] when no
    keyword occurs; its parent is the first integer exactly when the type is
    not [MainWeapon]. *)
Theorem generic_line_classified t log raw id1 id2 :
  let parts := map Py.strip (Py.split (u " -- ") (Py.strip raw)) in
  let name := nth 2 parts [] in
  (4 <= length parts)%nat ->
  Py.int (nth 0 parts []) = Some id1 ->
  Py.int (nth 1 parts []) = Some id2 ->
  ∃ ty,
    first_class name keyword_classes ty
    ∧ let item := mkItem name ty (if is_main ty then None else Some id1) in
      let t' := (generic_line (t, log) raw).1 in
      (generic_line (t, log) raw).2 = log
      ∧ parsed_items t' = <[id2 := item]> (parsed_items t)
      ∧ main_weapons t'
        = (if is_main ty then <[id2 := name]> (main_weapons t)
           else main_weapons t)
      ∧ sub_to_main t'
        = (if is_main ty then sub_to_main t
           else <[id2 := id1]> (sub_to_main t))
      ∧ parsed_items t' !! id2 = Some item
      ∧ (id1 ≠ id2 -> parsed_items t' !! id1 = parsed_items t !! id1)
      ∧ (item_parent item = Some id1 ↔ ty ≠ MainWeapon).
Proof.
  intros parts name Hlen H1 H2.
  exists (classify name). split; [apply classify_first_class|].
  assert (Hgl : generic_line (t, log) raw
                = (mkGeneric
                     (<[id2 := mkItem name (classify name)
                                      (if is_main (classify name)
                                       then None else Some id1)]>
                        (parsed_items t))
                     (if is_main (classify name)
                      then <[id2 := name]> (main_weapons t)
                      else main_weapons t)
                     (if is_main (classify name)
                      then sub_to_main t
                      else <[id2 := id1]> (sub_to_main t)),
                   log)).
  { assert (Hfull : Py.is_empty (Py.strip raw) = false).
    { destruct (Py.strip raw) as [|c r] eqn:E; [|reflexivity].
      unfold parts in Hlen. rewrite ?E in Hlen. simpl in Hlen. lia. }
    unfold generic_line. fold parts. rewrite Hfull.
    destruct (length parts <? 4)%nat eqn:E4;
      [apply Nat.ltb_lt in E4; lia|].
    rewrite H1, H2. reflexivity. }
  cbn zeta. rewrite Hgl. cbn [fst snd parsed_items main_weapons sub_to_main].
  repeat split; try reflexivity.
  - apply lookup_insert_eq.
  - intros Hne. now apply lookup_insert_ne.
  - destruct (classify name); cbn; congruence.
  - destruct (classify name); cbn; congruence.
Qed.

Lemma generic_line_classified_magazine :
  let raw := u "101 -- 201 -- AK47弹匣 -- x" ++ [10] in
  let parts := map Py.strip (Py.split (u " -- ") (Py.strip raw)) in
  let name := nth 2 parts [] in
  ((4 <= length parts)%nat
   ∧ Py.int (nth 0 parts []) = Some 101%Z
   ∧ Py.int (nth 1 parts []) = Some 201%Z)
  ∧ ∃ ty,
      first_class name keyword_classes ty
      ∧ let item :=
          mkItem name ty (if is_main ty then None else Some 101%Z) in
        let t' := (generic_line (empty_generic, []) raw).1 in
        (generic_line (empty_generic, []) raw).2 = []
        ∧ parsed_items t' = <[201%Z := item]> (parsed_items empty_generic)
        ∧ main_weapons t'
          = (if is_main ty then <[201%Z := name]> (main_weapons empty_generic)
             else main_weapons empty_generic)
        ∧ sub_to_main t'
          = (if is_main ty then sub_to_main empty_generic
             else <[201%Z := 101%Z]> (sub_to_main empty_generic))
        ∧ parsed_items t' !! 201%Z = Some item
        ∧ (101%Z ≠ 201%Z ->
           parsed_items t' !! 101%Z = parsed_items empty_generic !! 101%Z)
        ∧ (item_parent item = Some 101%Z ↔ ty ≠ MainWeapon).
Proof.
  intros raw parts name.
  assert (H : (4 <= length parts)%nat
              ∧ Py.int (nth 0 parts []) = Some 101%Z
              ∧ Py.int (nth 1 parts []) = Some 201%Z).
  { vm_compute. split; [lia|]. split; reflexivity. }
  split; [exact H|]. destruct H as (H0 & H1 & H2).
  exact (generic_line_classified empty_generic [] raw 101 201 H0 H1 H2).
Defined.

(** The magazine of the scenario: stored under 201 with parent 101. *)
Example magazine_line :
  generic_line (empty_generic, []) (u "101 -- 201 -- AK47弹匣 -- x")
  = (mkGeneric {[201%Z := mkItem (u "AK47弹匣") Magazine (Some 101%Z)]}
               ∅ {[201%Z := 101%Z]}, []).
Proof. vm_compute. reflexivity. Qed.

(** ** Subway table lines *)

(** A line that starts with a match of the pattern: the conversion of
    the first id decides, whatever follows the match. *)
Lemma subway_line_matched p g1 g2 g3 tail t log :
  subway_scan p = Some (g1, g2, g3, []) ->
  subway_line (t, log) (p ++ tail)
  = match Py.int g1 with
    | Some item_id => (<[item_id := mkSubway g2 g3]> t, log)
    | None => (t, log ++ [SubwayBadId (p ++ Py.rstrip tail)])
    end.
Proof.
  intros H. rewrite subway_line_scan.
  rewrite (subway_match_strip p g1 g2 g3 tail H).
  rewrite (subway_scan_more p g1 g2 g3 (Py.rstrip tail) H).
  destruct (subway_scan_inv _ _ _ _ _ H) as (d & h & Hp & _).
  rewrite Hp. reflexivity.
Qed.

(** C9 as the code has it.  The subway pattern is matched at the start of
    the line and nothing is asked of what follows the match: what a line
    does to the dictionary is what its matching prefix does.  When the
    first id is within the limit of [int], a line that goes on after the
    last closing bracket is stored without warning, with the record of the
    matching prefix, as if the rest of the line were not there.  When the
    first id is beyond the limit [int] raises, and the line is reported and
    not stored, with or without text after the match. *)
Theorem subway_trailing_text p g1 g2 g3 tail t log :
  Re.match_ subway_pattern p = Some ([g1; g2; g3], []) ->
  (subway_line (t, log) (p ++ tail)).1 = (subway_line (t, log) p).1
  ∧ if within_limit g1
    then ∃ item_id,
           Py.int g1 = Some item_id
           ∧ subway_line (t, log) (p ++ tail)
             = (<[item_id := mkSubway g2 g3]> t, log)
           ∧ subway_line (t, log) (p ++ tail) = subway_line (t, log) p
    else Py.int g1 = None
         ∧ subway_line (t, log) (p ++ tail)
           = (t, log ++ [SubwayBadId (Py.strip (p ++ tail))]).
Proof.
  intros H. apply match_subway_pattern_Some in H.
  destruct (subway_scan_inv _ _ _ _ _ H) as (d & h & Hp & T1 & _).
  pose proof (subway_line_matched p g1 g2 g3 tail t log H) as Htail.
  pose proof (subway_line_matched p g1 g2 g3 [] t log H) as Hnone.
  rewrite app_nil_r in Hnone.
  split.
  - rewrite Htail, Hnone. now destruct (Py.int g1).
  - destruct (within_limit g1) eqn:E.
    + destruct (int_token g1 T1 E) as (n & Hn & _).
      exists n. split; [exact Hn|].
      rewrite Htail, Hnone, Hn. split; reflexivity.
    + pose proof (int_token_overlong g1 T1 E) as Hn.
      split; [exact Hn|].
      rewrite Htail, Hn. now rewrite (subway_match_strip p g1 g2 g3 tail H).
Qed.

Lemma subway_trailing_text_comment :
  let p := u "{501}--{0}--[金色涂装]--[0xFFD700]" in
  let tail := u ", // gold" in
  (Re.match_ subway_pattern p
   = Some ([u "501"; u "金色涂装"; u "0xFFD700"], [])
   ∧ within_limit (u "501") = true)
  ∧ (subway_line (∅, []) (p ++ tail)).1 = (subway_line (∅, []) p).1
  ∧ ∃ item_id,
      Py.int (u "501") = Some item_id
      ∧ subway_line (∅, []) (p ++ tail)
        = (<[item_id := mkSubway (u "金色涂装") (u "0xFFD700")]> ∅, [])
      ∧ subway_line (∅, []) (p ++ tail) = subway_line (∅, []) p.
Proof.
  intros p tail.
  assert (H : Re.match_ subway_pattern p
              = Some ([u "501"; u "金色涂装"; u "0xFFD700"], []))
    by (vm_compute; reflexivity).
  assert (Hl : within_limit (u "501") = true) by reflexivity.
  split; [split; [exact H|exact Hl]|].
  pose proof (subway_trailing_text p _ _ _ tail ∅ [] H) as Hthm.
  rewrite Hl in Hthm. exact Hthm.
Defined.

(** C9 as stated fails on a first id beyond the limit of [int]: the line
    matches the pattern, and it is reported and not stored. *)
Lemma subway_overlong_id :
  let p := u "{" ++ overlong_id ++ u "}--{0}--[金色涂装]--[0xFFD700]" in
  Re.match_ subway_pattern p
  = Some ([overlong_id; u "金色涂装"; u "0xFFD700"], [])
  ∧ Py.int overlong_id = None
  ∧ subway_line (∅, []) p = (∅, [SubwayBadId p]).
Proof.
  intros p.
  assert (Hscan : subway_scan p
                  = Some (overlong_id, u "金色涂装", u "0xFFD700", [])).
  { change p with ([123] ++ overlong_id ++ [125; 45; 45; 123] ++ u "0"
                   ++ [125; 45; 45; 91] ++ u "金色涂装" ++ [93; 45; 45; 91]
                   ++ [48; 120] ++ u "FFD700" ++ [93] ++ []).
    apply subway_scan_intro;
      [apply overlong_id_token|split; [discriminate|reflexivity]
      |discriminate|reflexivity|discriminate|reflexivity]. }
  pose proof (int_token_overlong _ overlong_id_token overlong_id_limit)
    as Hint.
  split; [now apply match_subway_pattern_Some|]. split; [exact Hint|].
  pose proof (subway_line_matched p _ _ _ [] ∅ [] Hscan) as H.
  rewrite app_nil_r, Hint in H. exact H.
Qed.

(** ** Requests without tables *)

(** C8.  When both dictionaries are empty a request is refused: the
    handler returns the message that the tables are not loaded and no
    annotated text, whatever the input. *)
Theorem tables_unavailable g text :
  item_dict g = ∅ -> subway_item_dict g = ∅ ->
  index g POST text = mkRendered [] tables_not_loaded.
Proof.
  intros H1 H2. unfold index. rewrite H1, H2, !map_size_empty.
  reflexivity.
Qed.

Lemma tables_unavailable_missing_files :
  let g := loaded missing_files in
  (item_dict g = ∅ ∧ subway_item_dict g = ∅)
  ∧ index g POST scenario_input = mkRendered [] tables_not_loaded.
Proof.
  intros g.
  assert (H : item_dict g = ∅ ∧ subway_item_dict g = ∅)
    by (split; vm_compute; reflexivity).
  split; [exact H|]. destruct H as [H1 H2].
  exact (tables_unavailable g scenario_input H1 H2).
Defined.

(** ** Decoding failures *)

Lemma generic_line_log st raw :
  Forall parser_record st.2 ->
  Forall parser_record (generic_line st raw).2.
Proof.
  destruct st as [t log]. intros H. unfold generic_line.
  destruct (Py.is_empty _); [exact H|].
  destruct (_ <? _)%nat;
    [apply Forall_app; split; [exact H|repeat constructor]|].
  destruct (Py.int _);
    [|apply Forall_app; split; [exact H|repeat constructor]].
  destruct (Py.int _);
    [exact H|apply Forall_app; split; [exact H|repeat constructor]].
Qed.

Lemma subway_line_log st raw :
  Forall parser_record st.2 ->
  Forall parser_record (subway_line st raw).2.
Proof.
  destruct st as [t log]. intros H. rewrite subway_line_scan.
  destruct (Py.is_empty _); [exact H|].
  destruct (subway_scan _) as [[[[g1 g2] g3] rest]|];
    [|apply Forall_app; split; [exact H|repeat constructor]].
  destruct (Py.int g1);
    [exact H|apply Forall_app; split; [exact H|repeat constructor]].
Qed.

Lemma fold_log {T} (step : T * list LogRecord -> list N -> T * list LogRecord)
      lines st :
  (∀ st raw, Forall parser_record st.2 ->
             Forall parser_record (step st raw).2) ->
  Forall parser_record st.2 ->
  Forall parser_record (fold_left step lines st).2.
Proof.
  intros Hstep. revert st.
  induction lines as [|l lines IH]; intros st H; [exact H|].
  simpl. apply IH. now apply Hstep.
Qed.

Lemma parse_generic_log open_file p e :
  Forall parser_record (parse_generic_code_table open_file p e).2.
Proof.
  unfold parse_generic_code_table.
  destruct (open_file p e) as [exc|text failure].
  - destruct exc; repeat constructor.
  - pose proof (fold_log generic_line (iter_lines [] text)
                         (empty_generic, []) generic_line_log) as H.
    destruct (fold_left generic_line _ _) as [t log].
    specialize (H ltac:(constructor)). cbn [snd] in H.
    destruct failure as [[| |]|]; cbn [snd]; try exact H;
      (apply Forall_app; split; [exact H|repeat constructor]).
Qed.

Lemma parse_subway_log open_file p e :
  Forall parser_record (parse_subway_code_table_file open_file p e).2.
Proof.
  unfold parse_subway_code_table_file.
  destruct (open_file p e) as [exc|text failure].
  - destruct exc; repeat constructor.
  - pose proof (fold_log subway_line (iter_lines [] text) (∅, [])
                         subway_line_log) as H.
    destruct (fold_left subway_line _ _) as [t log].
    specialize (H ltac:(constructor)). cbn [snd] in H.
    destruct failure as [[| |]|]; cbn [snd]; try exact H;
      (apply Forall_app; split; [exact H|repeat constructor]).
Qed.

(** The handlers of [load_code_table] for [UnicodeDecodeError] never run:
    for all table files, decodable or not, the loader raises nothing, logs
    no fallback to GBK and reads no file as GBK. *)
Lemma gbk_fallback_unreachable open_file :
  (load_code_table open_file).2 = None
  ∧ ¬ In GenericGbkFallback (load_code_table open_file).1.2
  ∧ ¬ In SubwayGbkFallback (load_code_table open_file).1.2
  ∧ load_code_table open_file
    = load_code_table (fun p _ => open_file p utf_8).
Proof.
  destruct (load_code_table_shape open_file)
    as (t & log1 & s & log2 & Ht & Hs & _ & _ & Hload).
  destruct (load_code_table_shape (fun p _ => open_file p utf_8))
    as (t' & log1' & s' & log2' & Ht' & Hs' & _ & _ & Hload').
  change (parse_generic_code_table open_file code_table_path utf_8
          = (Returns t', log1')) in Ht'.
  change (parse_subway_code_table_file open_file subway_code_table_path utf_8
          = (Returns s', log2')) in Hs'.
  rewrite Ht in Ht'. rewrite Hs in Hs'.
  injection Ht' as <- <-. injection Hs' as <- <-.
  rewrite Hload, Hload'. cbn [fst snd].
  pose proof (parse_generic_log open_file code_table_path utf_8) as L1.
  pose proof (parse_subway_log open_file subway_code_table_path utf_8) as L2.
  rewrite Ht in L1. rewrite Hs in L2. cbn [snd] in L1, L2.
  assert (Hlog : ∀ r, In r (log1 ++ log2 ++ [LoadDone (size (parsed_items t))
                                       (size (main_weapons t)) (size s)]) ->
                      parser_record r ∨ ∃ a b c, r = LoadDone a b c).
  { intros r Hr. rewrite !in_app_iff in Hr.
    rewrite Forall_forall in L1, L2.
    destruct Hr as [Hr|[Hr|[<-|[]]]].
    - left. apply L1. now apply list_elem_of_In.
    - left. apply L2. now apply list_elem_of_In.
    - right. eauto. }
  repeat split.
  - intros Hin. destruct (Hlog _ Hin) as [[]|(a & b & c & [=])].
  - intros Hin. destruct (Hlog _ Hin) as [[]|(a & b & c & [=])].
Qed.

(** C4 fails on the code.  The generic table of [gbk_files] does not decode
    as UTF-8 and holds item 101 when read as GBK.  The loader logs the
    decoding error as an unknown error of the parser, logs no fallback,
    and leaves the generic dictionaries empty: the item is not loaded. *)
Theorem gbk_table_not_loaded :
  open_file_decodes_gbk_only
  ∧ load_code_table gbk_files
    = (mkGlobals ∅ ∅ ∅ {[501%Z := mkSubway (u "金色涂装") (u "0xFFD700")]},
       [GenericUnknownError UnicodeDecodeError; LoadDone 0 0 1],
       None).
Proof.
  split.
  - split; [reflexivity|]. eexists. split; vm_compute; reflexivity.
  - vm_compute. reflexivity.
Qed.

(** * Further properties of the code *)

(** ** The annotator and white space *)

Lemma lstrip_all_space ws : forallb isspace ws = true -> Py.lstrip ws = [].
Proof.
  induction ws as [|c ws IH]; [reflexivity|].
  cbn [forallb]. intros H. apply andb_true_iff in H as [Hc Hws].
  cbn [Py.lstrip]. rewrite Hc. now apply IH.
Qed.

Lemma strip_space_app ws s :
  forallb isspace ws = true -> Py.strip (ws ++ s) = Py.strip s.
Proof.
  intros H. unfold Py.strip.
  now rewrite lstrip_app, (lstrip_all_space ws H).
Qed.

(** The first character of a stripped text is no white space. *)
Lemma strip_head_nonspace s c r : Py.strip s = c :: r -> isspace c = false.
Proof.
  unfold Py.strip. intros H.
  destruct (Py.lstrip s) as [|c' r'] eqn:E; [discriminate|].
  pose proof (lstrip_head s c' r' E) as Hc'.
  destruct (rstrip_head (c' :: r') c' r' eq_refl Hc') as (r'' & Hr).
  rewrite Hr in H. now injection H as <- _.
Qed.

(** The annotator reads a line through [strip] only. *)
Lemma annotate_line_strip_eq g line line' :
  Py.strip line = Py.strip line' -> annotate_line g line = annotate_line g line'.
Proof. intros H. unfold annotate_line. now rewrite H. Qed.

(** X1.  No line the annotator writes starts or ends with white space:
    stripping an output line changes nothing, whatever the index and the
    input line. *)
Theorem output_line_stripped g line :
  Py.strip (annotate_line g line) = annotate_line g line.
Proof.
  rewrite annotate_line_scan.
  destruct (Py.is_empty (Py.strip line)); [reflexivity|].
  destruct (leading_ids (Py.strip line)) as [[grp rest]|];
    [|apply strip_idem].
  destruct (mapM Py.int (findall_digits grp)) as [nums|];
    [|apply strip_idem].
  destruct (Py.is_empty nums); apply strip_idem.
Qed.

(** X2.  White space around an input line is ignored: indentation before
    it and blanks, tabs or a carriage return after it change nothing in
    what is written for the line. *)
Theorem surrounding_space_ignored g ws line ws' :
  forallb isspace ws = true -> forallb isspace ws' = true ->
  annotate_line g (ws ++ line ++ ws') = annotate_line g line.
Proof.
  intros H H'. apply annotate_line_strip_eq.
  now rewrite strip_space_app, strip_app_space.
Qed.

Lemma surrounding_space_ignored_indented :
  let g := loaded scenario_files in
  (forallb isspace (u "  ") = true ∧ forallb isspace [9; 13] = true)
  ∧ annotate_line g (u "  " ++ u "101 x" ++ [9; 13])
    = annotate_line g (u "101 x").
Proof.
  split; [split; reflexivity|].
  apply surrounding_space_ignored; reflexivity.
Defined.

(** ** The annotator and the lines of the input *)

Lemma annotate_map g text :
  annotate g text = Py.join [10] (map (annotate_line g) (Py.split [10] text)).
Proof. unfold annotate. now rewrite fold_append_map. Qed.

Lemma split_lines_from_any cur a b :
  Py.split_from [10] 0 cur (a ++ 10 :: b)
  = Py.split_from [10] 0 cur a ++ Py.split_from [10] 0 [] b.
Proof.
  revert cur. induction a as [|c a IH]; intros cur.
  - cbn [app]. rewrite split_lines_from_cons. reflexivity.
  - cbn [app]. rewrite !split_lines_from_cons.
    destruct (c =? 10) eqn:E; [|apply IH].
    rewrite IH. reflexivity.
Qed.

Lemma split_lines_app a b :
  Py.split [10] (a ++ 10 :: b) = Py.split [10] a ++ Py.split [10] b.
Proof. apply split_lines_from_any. Qed.

Lemma join_app sep (l1 l2 : list (list N)) :
  l1 ≠ [] -> l2 ≠ [] ->
  Py.join sep (l1 ++ l2) = Py.join sep l1 ++ sep ++ Py.join sep l2.
Proof.
  intros H1 H2. induction l1 as [|x l1 IH]; [congruence|].
  destruct l1 as [|y l1].
  - cbn [app Py.join]. destruct l2; [congruence|reflexivity].
  - change ((x :: y :: l1) ++ l2) with (x :: (y :: l1) ++ l2).
    change (Py.join sep (x :: y :: l1))
      with (x ++ sep ++ Py.join sep (y :: l1)).
    transitivity (x ++ sep ++ Py.join sep ((y :: l1) ++ l2));
      [reflexivity|].
    rewrite IH by discriminate. now rewrite <- !app_assoc.
Qed.

(** X3.  The lines of the input are annotated one by one and independently:
    the annotation of two texts joined by a line feed is the two annotations
    joined by a line feed. *)
Theorem annotate_line_feed g a b :
  annotate g (a ++ 10 :: b) = annotate g a ++ 10 :: annotate g b.
Proof.
  rewrite !annotate_map, split_lines_app, map_app.
  rewrite join_app; [reflexivity| |];
    intros H; apply map_eq_nil in H; now apply split_not_nil in H.
Qed.

(** The lines of a text written with carriage return and line feed. *)
Lemma split_crlf (lines : list (list N)) :
  lines ≠ [] -> Forall one_line lines ->
  ∃ padded,
    Py.split [10] (Py.join [13; 10] lines) = padded
    ∧ Forall2 (fun p l => ∃ ws, p = l ++ ws ∧ forallb isspace ws = true)
              padded lines.
Proof.
  intros Hne Hall. induction Hall as [|l ls Hl Hls IH]; [congruence|].
  destruct ls as [|l' ls].
  - exists [l]. split.
    + cbn [Py.join]. unfold Py.split.
      now rewrite split_lines_from_last.
    + constructor; [|constructor]. exists []. now rewrite app_nil_r.
  - destruct IH as (padded & Hsplit & Hpad); [discriminate|].
    exists ((l ++ [13]) :: padded). split.
    + change (Py.join [13; 10] (l :: l' :: ls))
        with (l ++ [13; 10] ++ Py.join [13; 10] (l' :: ls)).
      replace (l ++ [13; 10] ++ Py.join [13; 10] (l' :: ls))
        with ((l ++ [13]) ++ 10 :: Py.join [13; 10] (l' :: ls))
        by now rewrite <- app_assoc.
      unfold Py.split. rewrite split_lines_from_app.
      * cbn [rev app]. f_equal. exact Hsplit.
      * apply Forall_app. split; [exact Hl|].
        constructor; [discriminate|constructor].
    + constructor; [|exact Hpad]. exists [13]. split; reflexivity.
Qed.

(** X4.  A text whose lines end with carriage return and line feed, as a
    browser sends it, is annotated like the same lines joined by line feeds
    alone: the carriage returns are dropped with the white space that ends
    the lines. *)
Theorem crlf_input_accepted g (lines : list (list N)) :
  Forall one_line lines ->
  annotate g (Py.join [13; 10] lines) = annotate g (Py.join [10] lines).
Proof.
  intros Hall. destruct lines as [|l ls]; [reflexivity|].
  destruct (split_crlf (l :: ls)) as (padded & Hsplit & Hpad);
    [discriminate|exact Hall|].
  rewrite !annotate_map, Hsplit, split_join_lines by (discriminate || exact Hall).
  f_equal. clear Hsplit Hall.
  induction Hpad as [|p x ps xs (ws & -> & Hws) _ IH]; [reflexivity|].
  cbn [map]. rewrite IH. f_equal.
  apply annotate_line_strip_eq. now apply strip_app_space.
Qed.

Lemma crlf_input_accepted_two_lines :
  let g := loaded scenario_files in
  let lines := [u "101"; u "hello"] in
  Forall one_line lines
  ∧ annotate g (Py.join [13; 10] lines) = annotate g (Py.join [10] lines).
Proof.
  intros g lines.
  assert (H : Forall one_line lines).
  { repeat constructor; discriminate. }
  split; [exact H|]. exact (crlf_input_accepted g lines H).
Defined.

(** ** Which lines are annotated *)

(** X5.  The first character of the stripped line decides: a line that
    starts with anything but a decimal digit is written back stripped and
    otherwise unchanged, and on a line that starts with a decimal digit, of
    any script, the pattern of the leading ids matches, its group starting
    with that digit. *)
Theorem first_character_decides g line c r :
  Py.strip line = c :: r ->
  (isdigit c = false -> annotate_line g line = c :: r)
  ∧ (isdigit c = true ->
     ∃ grp rest,
       Re.match_ id_pattern (Py.strip line) = Some ([c :: grp], rest)
       ∧ c :: r = (c :: grp) ++ rest).
Proof.
  intros Hs. pose proof (strip_head_nonspace line c r Hs) as Hc.
  split; intros Hd.
  - rewrite annotate_line_no_ids; [exact Hs|].
    apply leading_ids_none_iff. rewrite Hs, lstrip_nonspace by exact Hc.
    exact Hd.
  - destruct (leading_ids (Py.strip line)) as [[grp rest]|] eqn:E.
    + destruct (leading_ids_inv _ _ _ E) as (ws & x & y & Heq & -> & Hx & Hws).
      rewrite Hs in Heq.
      destruct ws as [|w ws].
      * cbn [app] in Heq. injection Heq as -> Hr.
        exists y, rest. split; [|now rewrite Hr].
        now apply match_id_pattern_Some.
      * cbn [app] in Heq. injection Heq as -> _.
        cbn [forallb] in Hws. rewrite Hc in Hws. discriminate.
    + apply leading_ids_none_iff in E.
      rewrite Hs, lstrip_nonspace in E by exact Hc. congruence.
Qed.

Lemma first_character_decides_sample :
  let g := loaded scenario_files in
  Py.strip (u " x101 ") = 120 :: u "101"
  ∧ (isdigit 120 = false -> annotate_line g (u " x101 ") = 120 :: u "101")
  ∧ (isdigit 120 = true ->
     ∃ grp rest,
       Re.match_ id_pattern (Py.strip (u " x101 ")) = Some ([120 :: grp], rest)
       ∧ 120 :: u "101" = (120 :: grp) ++ rest).
Proof.
  intros g.
  assert (H : Py.strip (u " x101 ") = 120 :: u "101") by reflexivity.
  split; [exact H|]. exact (first_character_decides g _ _ _ H).
Defined.

(** ** The ids of a line *)

Lemma resolve_ext g g' n :
  item_dict g !! n = item_dict g' !! n ->
  subway_item_dict g !! n = subway_item_dict g' !! n ->
  resolve g n = resolve g' n.
Proof. intros H1 H2. unfold resolve. now rewrite H1, H2. Qed.

(** X6.  The annotator looks up ids that are not negative and no others:
    two indexes that agree on every id from zero on annotate every text
    alike, so that an entry stored under a negative id (the generic parser
    accepts a signed id) is never shown. *)
Theorem negative_ids_never_queried g g' text :
  (∀ n, (0 <= n)%Z ->
        item_dict g !! n = item_dict g' !! n
        ∧ subway_item_dict g !! n = subway_item_dict g' !! n) ->
  annotate g text = annotate g' text.
Proof.
  intros Hagree. rewrite !annotate_map. f_equal.
  apply map_ext. intros line.
  destruct (leading_ids (Py.strip line)) as [[grp rest]|] eqn:E.
  - destruct (mapM Py.int (findall_digits grp)) as [nums|] eqn:En.
    + destruct (annotate_line_ids g line grp rest nums E En)
        as (_ & Hpos & ->).
      destruct (annotate_line_ids g' line grp rest nums E En)
        as (_ & _ & ->).
      rewrite !query_item_map. do 3 f_equal.
      clear En. induction Hpos as [|n ns Hn _ IH]; [reflexivity|].
      cbn [map]. rewrite IH. f_equal.
      destruct (Hagree n); [apply Hn|]. now apply resolve_ext.
    + now rewrite (annotate_line_overlong g line grp rest E En),
        (annotate_line_overlong g' line grp rest E En).
  - now rewrite !annotate_line_no_ids.
Qed.

Lemma negative_ids_never_queried_signed_id :
  let g := loaded negative_id_files in
  let g' := mkGlobals ∅ ∅ ∅ ∅ in
  (item_dict g !! (-5)%Z = Some (mkItem (u "knife") MainWeapon None)
   ∧ ∀ n, (0 <= n)%Z ->
          item_dict g !! n = item_dict g' !! n
          ∧ subway_item_dict g !! n = subway_item_dict g' !! n)
  ∧ annotate g (u "5") = annotate g' (u "5").
Proof.
  intros g g'.
  assert (Hg : g = mkGlobals {[(-5)%Z := mkItem (u "knife") MainWeapon None]}
                             {[(-5)%Z := u "knife"]} ∅ ∅)
    by (vm_compute; reflexivity).
  assert (H : ∀ n, (0 <= n)%Z ->
                   item_dict g !! n = item_dict g' !! n
                   ∧ subway_item_dict g !! n = subway_item_dict g' !! n).
  { intros n Hn. rewrite Hg. cbn [item_dict subway_item_dict g'].
    split; [|reflexivity].
    rewrite lookup_singleton_ne by lia. now rewrite lookup_empty. }
  split; [split; [now rewrite Hg|exact H]|].
  exact (negative_ids_never_queried g g' (u "5") H).
Defined.

(** X7.  Ids count by their value, not by their writing: two lines whose
    leading ids [int] converts to the same numbers in the same order are
    annotated alike, whatever the spacing around the commas, the leading
    zeros or the script of the digits. *)
Theorem ids_compared_by_value g line line' grp rest grp' rest' nums :
  Re.match_ id_pattern (Py.strip line) = Some ([grp], rest) ->
  Re.match_ id_pattern (Py.strip line') = Some ([grp'], rest') ->
  mapM Py.int (Re.findall digits grp) = Some nums ->
  mapM Py.int (Re.findall digits grp') = Some nums ->
  annotate_line g line = annotate_line g line'.
Proof.
  intros H H' Hv Hv'.
  apply match_id_pattern_Some in H. apply match_id_pattern_Some in H'.
  rewrite findall_digits_eq in Hv, Hv'.
  destruct (annotate_line_ids g line grp rest nums H Hv) as (_ & _ & ->).
  destruct (annotate_line_ids g line' grp' rest' nums H' Hv')
    as (_ & _ & ->).
  reflexivity.
Qed.

Lemma ids_compared_by_value_zeros :
  let g := loaded scenario_files in
  let line := u "0101 ,００２０１ magazine" in
  let line' := u "101, 201" in
  (Re.match_ id_pattern (Py.strip line)
   = Some ([u "0101 ,００２０１"], u " magazine")
   ∧ Re.match_ id_pattern (Py.strip line') = Some ([u "101, 201"], [])
   ∧ mapM Py.int (Re.findall digits (u "0101 ,００２０１"))
     = Some [101; 201]%Z
   ∧ mapM Py.int (Re.findall digits (u "101, 201")) = Some [101; 201]%Z)
  ∧ annotate_line g line = annotate_line g line'.
Proof.
  intros g line line'.
  assert (H : Re.match_ id_pattern (Py.strip line)
              = Some ([u "0101 ,００２０１"], u " magazine")
              ∧ Re.match_ id_pattern (Py.strip line')
                = Some ([u "101, 201"], [])
              ∧ mapM Py.int (Re.findall digits (u "0101 ,００２０１"))
                = Some [101; 201]%Z
              ∧ mapM Py.int (Re.findall digits (u "101, 201"))
                = Some [101; 201]%Z)
    by (vm_compute; repeat split).
  split; [exact H|]. destruct H as (H1 & H2 & H3 & H4).
  exact (ids_compared_by_value g line line' _ _ _ _ _ H1 H2 H3 H4).
Defined.

(** X8.  What the annotator writes it reads back: on a line made of the ids
    as it writes them, a blank, a number sign and any comment, the pattern
    of the leading ids matches the written ids and nothing more, and their
    digit runs read as the numbers they were written from; [int] converts
    them to these numbers when they are numbers [int] gives, that is,
    within its limit. *)
Theorem written_ids_read_back nums comment :
  nums ≠ [] -> Forall (fun n => (0 <= n)%Z) nums ->
  let id_string := Py.join (u ", ") (map Py.str_int nums) in
  Re.match_ id_pattern (id_string ++ u " #" ++ comment)
  = Some ([id_string], u " #" ++ comment)
  ∧ mapM Py.int_unlimited (Re.findall digits id_string) = Some nums
  ∧ (Forall convertible nums ->
     mapM Py.int (Re.findall digits id_string) = Some nums).
Proof.
  intros Hne Hpos id_string.
  pose proof (str_ints_tokens nums Hpos) as Htok.
  assert (Hids : ∃ t ts, map Py.str_int nums = t :: ts).
  { destruct nums as [|n ns]; [congruence|]. cbn [map]. eauto. }
  destruct Hids as (t & ts & Hids).
  unfold id_string. change (u ", ") with [44; 32].
  rewrite Hids in Htok |- *. inversion Htok as [|? ? Ht Hts]; subst.
  rewrite join_more_ids. split; [|split].
  - apply match_id_pattern_Some. rewrite <- app_assoc.
    apply leading_ids_canonical; [assumption|assumption|].
    right. now exists comment.
  - rewrite findall_digits_eq, findall_canonical by assumption.
    rewrite <- Hids. apply mapM_fmap_Some. apply int_unlimited_str_int.
  - intros Hconv.
    rewrite findall_digits_eq, findall_canonical by assumption.
    rewrite <- Hids. now apply mapM_int_str.
Qed.

Lemma written_ids_read_back_two :
  let nums := [12%Z; 0%Z] in
  let id_string := Py.join (u ", ") (map Py.str_int nums) in
  (nums ≠ [] ∧ Forall (fun n => (0 <= n)%Z) nums)
  ∧ Re.match_ id_pattern (id_string ++ u " #" ++ u "a, b")
    = Some ([id_string], u " #" ++ u "a, b")
  ∧ mapM Py.int_unlimited (Re.findall digits id_string) = Some nums
  ∧ (Forall convertible nums ->
     mapM Py.int (Re.findall digits id_string) = Some nums).
Proof.
  intros nums id_string.
  assert (H : nums ≠ [] ∧ Forall (fun n => (0 <= n)%Z) nums).
  { split; [discriminate|]. repeat constructor; lia. }
  split; [exact H|]. destruct H as [H1 H2].
  exact (written_ids_read_back nums (u "a, b") H1 H2).
Defined.

(** ** The comment of several ids *)

(** X9.  The comment of a list of ids is made id by id, in the order of the
    list: the comment of two lists put end to end is the two comments
    joined by a comma and a blank. *)
Theorem query_item_app g xs ys :
  xs ≠ [] -> ys ≠ [] ->
  query_item g (xs ++ ys) = query_item g xs ++ u ", " ++ query_item g ys.
Proof.
  intros Hx Hy. rewrite !query_item_map, map_app.
  apply join_app; intros H; apply map_eq_nil in H; contradiction.
Qed.

Lemma query_item_app_sample :
  let g := loaded scenario_files in
  ([101%Z] ≠ [] ∧ [7%Z; 501%Z] ≠ [])
  ∧ query_item g ([101%Z] ++ [7%Z; 501%Z])
    = query_item g [101%Z] ++ u ", " ++ query_item g [7%Z; 501%Z].
Proof.
  intros g.
  assert (H : [101%Z] ≠ [] ∧ [7%Z; 501%Z] ≠ []) by (split; discriminate).
  split; [exact H|]. destruct H as [H1 H2].
  exact (query_item_app g _ _ H1 H2).
Defined.

(** ** What the loader leaves in the dictionaries *)

Lemma generic_fold_invariant (P : GenericTables -> Prop) lines st :
  (∀ t log raw, P t -> P (generic_line (t, log) raw).1) ->
  P st.1 -> P (fold_left generic_line lines st).1.
Proof.
  intros Hstep. revert st.
  induction lines as [|l lines IH]; intros [t log] H; [exact H|].
  cbn [fold_left]. apply IH. now apply Hstep.
Qed.

Lemma subway_fold_invariant (P : gmap Z SubwayInfo -> Prop) lines st :
  (∀ t log raw, P t -> P (subway_line (t, log) raw).1) ->
  P st.1 -> P (fold_left subway_line lines st).1.
Proof.
  intros Hstep. revert st.
  induction lines as [|l lines IH]; intros [t log] H; [exact H|].
  cbn [fold_left]. apply IH. now apply Hstep.
Qed.

(** What the parsers return: the dictionaries the lines give that were
    read before any failure. *)
Lemma parse_generic_lines open_file p e :
  ∃ log,
    parse_generic_code_table open_file p e
    = (Returns (fold_left generic_line
                          (match open_file p e with
                           | Reads text _ => iter_lines [] text
                           | OpenRaises _ => []
                           end) (empty_generic, [])).1, log).
Proof.
  unfold parse_generic_code_table.
  destruct (open_file p e) as [exc|text failure];
    [destruct exc; eexists; reflexivity|].
  destruct (fold_left generic_line _ _) as [t0 log0].
  destruct failure as [[| |]|]; eexists; reflexivity.
Qed.

Lemma parse_subway_lines open_file p e :
  ∃ log,
    parse_subway_code_table_file open_file p e
    = (Returns (fold_left subway_line
                          (match open_file p e with
                           | Reads text _ => iter_lines [] text
                           | OpenRaises _ => []
                           end) (∅, [])).1, log).
Proof.
  unfold parse_subway_code_table_file.
  destruct (open_file p e) as [exc|text failure];
    [destruct exc; eexists; reflexivity|].
  destruct (fold_left subway_line _ _) as [t0 log0].
  destruct failure as [[| |]|]; eexists; reflexivity.
Qed.

Lemma load_code_table_lines open_file :
  let lines p :=
    match open_file p utf_8 with
    | Reads text _ => iter_lines [] text
    | OpenRaises _ => []
    end in
  let t := (fold_left generic_line (lines code_table_path)
                      (empty_generic, [])).1 in
  let s := (fold_left subway_line (lines subway_code_table_path) (∅, [])).1 in
  ∃ log,
    load_code_table open_file
    = (mkGlobals (parsed_items t) (main_weapons t) (sub_to_main t) s,
       log ++ [LoadDone (size (parsed_items t)) (size (main_weapons t))
                        (size s)],
       None).
Proof.
  intros lines t s.
  destruct (load_code_table_shape open_file)
    as (t' & log1 & s' & log2 & Ht & Hs & _ & _ & Hload).
  destruct (parse_generic_lines open_file code_table_path utf_8)
    as (l1 & Ht').
  destruct (parse_subway_lines open_file subway_code_table_path utf_8)
    as (l2 & Hs').
  rewrite Ht in Ht'. rewrite Hs in Hs'.
  injection Ht' as -> _. injection Hs' as -> _.
  exists (log1 ++ log2). rewrite Hload. now rewrite <- app_assoc.
Qed.

(** X10.  The dictionaries the loader leaves are those the lines of the two
    files give when read as UTF-8, each file for itself: a file that cannot
    be opened counts for no line, a file whose reading fails counts for the
    lines read before the failure, and nothing read as GBK ever counts.
    The loader raises nothing and ends its log with the three sizes. *)
Theorem loaded_from_lines open_file :
  let lines p :=
    match open_file p utf_8 with
    | Reads text _ => iter_lines [] text
    | OpenRaises _ => []
    end in
  let t := (fold_left generic_line (lines code_table_path)
                      (empty_generic, [])).1 in
  let s := (fold_left subway_line (lines subway_code_table_path) (∅, [])).1 in
  loaded open_file
  = mkGlobals (parsed_items t) (main_weapons t) (sub_to_main t) s
  ∧ (load_code_table open_file).2 = None
  ∧ ∃ log, (load_code_table open_file).1.2
           = log ++ [LoadDone (size (parsed_items t)) (size (main_weapons t))
                              (size s)].
Proof.
  intros lines t s.
  destruct (load_code_table_lines open_file) as (log & Hload).
  fold lines t s in Hload. unfold loaded. rewrite Hload.
  split; [reflexivity|]. split; [reflexivity|]. now exists log.
Qed.

Lemma generic_line_consistent t log raw :
  generic_consistent (parsed_items t) (main_weapons t) (sub_to_main t) ->
  let t' := (generic_line (t, log) raw).1 in
  generic_consistent (parsed_items t') (main_weapons t') (sub_to_main t').
Proof.
  intros H. unfold generic_line.
  destruct (Py.is_empty _); [exact H|].
  destruct (_ <? _)%nat; [exact H|].
  destruct (Py.int _) as [id1|]; [|exact H].
  destruct (Py.int _) as [id2|]; [|exact H].
  cbn [fst parsed_items main_weapons sub_to_main].
  set (name := nth 2 _ []).
  intros id info Hid.
  destruct (decide (id = id2)) as [->|Hne].
  - rewrite lookup_insert_eq in Hid. injection Hid as <-.
    cbn [item_name item_type item_parent]. split; [reflexivity|].
    destruct (is_main (classify name)) eqn:E.
    + split; [now destruct (classify name)|apply lookup_insert_eq].
    + split; [now destruct (classify name)|apply lookup_insert_eq].
  - rewrite lookup_insert_ne in Hid by congruence.
    destruct (H id info Hid) as [Hty Hpar]. split; [exact Hty|].
    destruct (item_parent info) as [parent|];
      destruct Hpar as [Hp Hside]; (split; [exact Hp|]);
      destruct (is_main (classify name));
      rewrite ?lookup_insert_ne by congruence; exact Hside.
Qed.

(** X11.  The three generic dictionaries the loader leaves agree, whatever
    the table file holds, lines with the same id included: every item has
    the type its name gives; a main weapon has no parent and is listed
    with its name among the main weapons; every other part has a parent
    and is listed with that parent among the parts. *)
Theorem loaded_items_consistent open_file :
  let g := loaded open_file in
  generic_consistent (item_dict g) (main_weapon_dict g) (sub_to_main_dict g).
Proof.
  intros g. destruct (load_code_table_lines open_file) as (log & Hload).
  unfold g, loaded. rewrite Hload.
  cbn [fst item_dict main_weapon_dict sub_to_main_dict].
  apply (generic_fold_invariant
           (fun t => generic_consistent (parsed_items t) (main_weapons t)
                                        (sub_to_main t))).
  - intros t l raw. apply generic_line_consistent.
  - intros id info Hid. cbn in Hid. now rewrite lookup_empty in Hid.
Qed.

Lemma generic_line_dom t log raw :
  dom (parsed_items t) = dom (main_weapons t) ∪ dom (sub_to_main t) ->
  let t' := (generic_line (t, log) raw).1 in
  dom (parsed_items t') = dom (main_weapons t') ∪ dom (sub_to_main t').
Proof.
  intros H. unfold generic_line.
  destruct (Py.is_empty _); [exact H|].
  destruct (_ <? _)%nat; [exact H|].
  destruct (Py.int _) as [id1|]; [|exact H].
  destruct (Py.int _) as [id2|]; [|exact H].
  cbn [fst parsed_items main_weapons sub_to_main].
  destruct (is_main _); rewrite !dom_insert_L, H.
  - apply (assoc_L (∪)).
  - rewrite !(assoc_L (∪)). f_equal. apply (comm_L (∪)).
Qed.

(** X12.  Every id of the generic dictionary is listed among the main
    weapons or among the parts, and nothing else is listed there; so the
    count of main weapons the loader logs never exceeds its count of
    items. *)
Theorem loaded_ids_listed open_file :
  let g := loaded open_file in
  dom (item_dict g) = dom (main_weapon_dict g) ∪ dom (sub_to_main_dict g)
  ∧ (size (main_weapon_dict g) <= size (item_dict g))%nat.
Proof.
  intros g. destruct (load_code_table_lines open_file) as (log & Hload).
  unfold g, loaded. rewrite Hload.
  cbn [fst item_dict main_weapon_dict sub_to_main_dict].
  set (t := (fold_left generic_line _ _).1).
  assert (H : dom (parsed_items t) = dom (main_weapons t)
                                     ∪ dom (sub_to_main t)).
  { apply (generic_fold_invariant
             (fun t => dom (parsed_items t)
                       = dom (main_weapons t) ∪ dom (sub_to_main t))).
    - intros t0 l raw. apply generic_line_dom.
    - cbn [fst empty_generic parsed_items main_weapons sub_to_main].
      rewrite !dom_empty_L. symmetry. apply (left_id_L ∅ (∪)). }
  split; [exact H|].
  rewrite <- !size_dom. apply subseteq_size. rewrite H.
  apply union_subseteq_l.
Qed.

Lemma subway_line_records t log raw :
  map_Forall subway_record_ok t ->
  map_Forall subway_record_ok (subway_line (t, log) raw).1.
Proof.
  intros H. rewrite subway_line_scan.
  destruct (Py.is_empty _); [exact H|].
  destruct (subway_scan _) as [[[[g1 g2] g3] rest]|] eqn:E; [|exact H].
  destruct (subway_scan_inv _ _ _ _ _ E)
    as (d & h & _ & T1 & _ & Hg2 & Hcls & Hh & Hhex & ->).
  destruct (Py.int g1) as [id|] eqn:Eid; [|exact H]. cbn [fst].
  destruct (int_token_Some g1 id T1 Eid) as [_ [H0 _]].
  apply map_Forall_insert_2; [|exact H].
  split; [exact H0|]. split; [exact Hg2|]. split; [exact Hcls|].
  now exists h.
Qed.

(** X13.  Every record of the subway dictionary the loader leaves has an id
    that is not negative, a name that is not empty and holds no closing
    bracket, and a code made of [0x] and one hexadecimal digit or more. *)
Theorem loaded_subway_records open_file id info :
  subway_item_dict (loaded open_file) !! id = Some info ->
  subway_record_ok id info.
Proof.
  destruct (load_code_table_lines open_file) as (log & Hload).
  unfold loaded. rewrite Hload. cbn [fst subway_item_dict].
  revert id info.
  apply (subway_fold_invariant (map_Forall subway_record_ok)).
  - intros t l raw. apply subway_line_records.
  - apply map_Forall_empty.
Qed.

Lemma loaded_subway_records_gold :
  subway_item_dict (loaded scenario_files) !! 501%Z
  = Some (mkSubway (u "金色涂装") (u "0xFFD700"))
  ∧ subway_record_ok 501 (mkSubway (u "金色涂装") (u "0xFFD700")).
Proof.
  assert (H : subway_item_dict (loaded scenario_files) !! 501%Z
              = Some (mkSubway (u "金色涂装") (u "0xFFD700")))
    by (vm_compute; reflexivity).
  split; [exact H|]. exact (loaded_subway_records scenario_files _ _ H).
Defined.

(** ** Lines of the table files *)

Lemma startswith_shorter p s t :
  Py.startswith p (s ++ t) = true -> (length p <= length s)%nat ->
  Py.startswith p s = true.
Proof.
  revert s. induction p as [|a p IH]; intros s H Hlen; [reflexivity|].
  destruct s as [|b s]; [simpl in Hlen; lia|].
  cbn [app Py.startswith] in *. apply andb_true_iff in H as [Hab H].
  rewrite Hab. cbn [andb]. apply IH; [exact H|]. simpl in Hlen. lia.
Qed.

Lemma startswith_longer p s t :
  Py.startswith p s = true -> Py.startswith p (s ++ t) = true.
Proof.
  revert s. induction p as [|a p IH]; intros s H; [reflexivity|].
  destruct s as [|b s]; [discriminate|].
  cbn [app Py.startswith] in *. apply andb_true_iff in H as [Hab H].
  rewrite Hab. cbn [andb]. now apply IH.
Qed.

Lemma startswith_length p s :
  Py.startswith p s = true -> (length p <= length s)%nat.
Proof.
  revert s. induction p as [|a p IH]; intros s H; [simpl; lia|].
  destruct s as [|b s]; [discriminate|].
  cbn [Py.startswith] in H. apply andb_true_iff in H as [_ H].
  apply IH in H. simpl. lia.
Qed.

Lemma split_from_cons sep skip cur c r :
  Py.split_from sep skip cur (c :: r)
  = match skip with
    | S k => Py.split_from sep k cur r
    | O =>
      if Py.startswith sep (c :: r)
      then rev cur :: Py.split_from sep (pred (length sep)) [] r
      else Py.split_from sep 0 (c :: cur) r
    end.
Proof. reflexivity. Qed.

(** A text shorter than the separator is one field. *)
Lemma split_from_no_room sep cur s :
  (length s < length sep)%nat -> length (Py.split_from sep 0 cur s) = 1%nat.
Proof.
  revert cur. induction s as [|c r IH]; intros cur Hlen; [reflexivity|].
  rewrite split_from_cons.
  destruct (Py.startswith sep (c :: r)) eqn:E.
  - apply startswith_length in E. lia.
  - apply IH. simpl in Hlen. lia.
Qed.

(** The fields that are closed by a separator do not depend on what is
    written after the text. *)
Lemma split_from_prefix sep a b :
  ∀ k skip cur,
    (k < length (Py.split_from sep skip cur a))%nat ->
    take k (Py.split_from sep skip cur (a ++ b))
    = take k (Py.split_from sep skip cur a)
    ∧ (k < length (Py.split_from sep skip cur (a ++ b)))%nat.
Proof.
  induction a as [|c a IH]; intros k skip cur Hk.
  - cbn [Py.split_from length] in Hk.
    assert (k = 0%nat) as -> by lia.
    split; [reflexivity|].
    pose proof (split_from_length sep skip cur ([] ++ b)). lia.
  - cbn [app]. rewrite split_from_cons in Hk. rewrite !split_from_cons.
    destruct skip as [|skip]; [|now apply IH].
    destruct (Py.startswith sep (c :: a)) eqn:E.
    + change (c :: a ++ b) with ((c :: a) ++ b).
      rewrite (startswith_longer _ _ b E).
      destruct k as [|k]; [split; [reflexivity|simpl; lia]|].
      cbn [length] in Hk. apply Nat.succ_lt_mono in Hk.
      destruct (IH k _ [] Hk) as [Htake Hlen].
      cbn [take length]. split; [now rewrite Htake|lia].
    + destruct (Py.startswith sep (c :: a ++ b)) eqn:E'.
      * assert (Hshort : (length (c :: a) < length sep)%nat).
        { destruct (Nat.lt_ge_cases (length (c :: a)) (length sep))
            as [Hlt|Hge]; [exact Hlt|].
          change (c :: a ++ b) with ((c :: a) ++ b) in E'.
          rewrite (startswith_shorter _ _ _ E' Hge) in E. discriminate. }
        rewrite split_from_no_room in Hk by (simpl in Hshort; lia).
        assert (k = 0%nat) as -> by lia.
        split; [reflexivity|simpl; lia].
      * now apply IH.
Qed.

Lemma rstrip_app_more x t : ∃ more, Py.rstrip (x ++ t) = Py.rstrip x ++ more.
Proof.
  induction x as [|c x (more & IH)].
  - exists (Py.rstrip t). now rewrite rstrip_nil.
  - cbn [app]. rewrite !rstrip_cons, IH.
    destruct (Py.rstrip x) as [|y ys].
    + cbn [app]. destruct more as [|m ms].
      * exists []. now rewrite app_nil_r.
      * destruct (isspace c); [now exists (c :: m :: ms)|now exists (m :: ms)].
    + cbn [app]. now exists more.
Qed.

Lemma strip_app_more raw tail :
  Py.strip raw ≠ [] -> ∃ more, Py.strip (raw ++ tail) = Py.strip raw ++ more.
Proof.
  unfold Py.strip. intros H. rewrite lstrip_app.
  destruct (Py.lstrip raw) as [|c r] eqn:E.
  - now rewrite rstrip_nil in H.
  - apply rstrip_app_more.
Qed.

Lemma nth_take {A} (l : list A) n k d :
  (n < k)%nat -> nth n (take k l) d = nth n l d.
Proof.
  revert n k. induction l as [|x l IH]; intros n k H.
  - now rewrite take_nil.
  - destruct k as [|k]; [lia|]. destruct n as [|n]; [reflexivity|].
    cbn [take nth]. apply IH. lia.
Qed.

(** X14.  Nothing is asked of a generic line after its third separator: text
    added at the end of a line that has its four fields changes neither the
    record stored nor the dictionaries, and a line stored without warning
    is still stored without warning. *)
Theorem generic_line_tail_ignored t log raw tail :
  (4 <= length (Py.split (u " -- ") (Py.strip raw)))%nat ->
  (generic_line (t, log) (raw ++ tail)).1 = (generic_line (t, log) raw).1
  ∧ ((generic_line (t, log) raw).2 = log ->
     (generic_line (t, log) (raw ++ tail)).2 = log).
Proof.
  intros Hlen.
  assert (Hne : Py.strip raw ≠ []).
  { intros E. rewrite E in Hlen. simpl in Hlen. lia. }
  destruct (strip_app_more raw tail Hne) as (more & Hmore).
  destruct (split_from_prefix (u " -- ") (Py.strip raw) more 3 0 [])
    as [Htake Hlen']; [exact Hlen|].
  fold (Py.split (u " -- ") (Py.strip raw ++ more)) in Htake, Hlen'.
  fold (Py.split (u " -- ") (Py.strip raw)) in Htake.
  rewrite <- Hmore in Htake, Hlen'.
  assert (Hnth : ∀ i, (i < 3)%nat ->
            nth i (map Py.strip (Py.split (u " -- ")
                                          (Py.strip (raw ++ tail)))) []
            = nth i (map Py.strip (Py.split (u " -- ") (Py.strip raw))) []).
  { intros i Hi.
    rewrite <- (nth_take (map Py.strip (Py.split _ (Py.strip (raw ++ tail))))
                         i 3) by exact Hi.
    rewrite <- (nth_take (map Py.strip (Py.split _ (Py.strip raw))) i 3)
      by exact Hi.
    change (take 3 (map Py.strip ?l)) with (take 3 (Py.strip <$> l)).
    now rewrite <- !fmap_take, Htake. }
  unfold generic_line.
  assert (E1 : Py.is_empty (Py.strip raw) = false)
    by (destruct (Py.strip raw); [congruence|reflexivity]).
  assert (E2 : Py.is_empty (Py.strip (raw ++ tail)) = false).
  { rewrite Hmore. destruct (Py.strip raw); [congruence|reflexivity]. }
  rewrite E1, E2, !length_map.
  assert (E3 : (length (Py.split (u " -- ") (Py.strip raw)) <? 4)%nat = false)
    by (apply Nat.ltb_ge; lia).
  assert (E4 : (length (Py.split (u " -- ") (Py.strip (raw ++ tail))) <? 4)%nat
               = false) by (apply Nat.ltb_ge; lia).
  rewrite E3, E4, !Hnth by lia.
  destruct (Py.int _) as [id1|]; [destruct (Py.int _) as [id2|]|];
    cbn [fst snd]; (split; [reflexivity|]); try reflexivity;
    intros H; apply (f_equal (@length _)) in H;
    rewrite length_app in H; simpl in H; lia.
Qed.

Lemma generic_line_tail_ignored_comment :
  let raw := u "101 -- 201 -- AK47弹匣 -- x" in
  let tail := u " -- since 1.2 // note" in
  (4 <= length (Py.split (u " -- ") (Py.strip raw)))%nat
  ∧ (generic_line (empty_generic, []) (raw ++ tail)).1
    = (generic_line (empty_generic, []) raw).1
  ∧ ((generic_line (empty_generic, []) raw).2 = [] ->
     (generic_line (empty_generic, []) (raw ++ tail)).2 = []).
Proof.
  intros raw tail.
  assert (H : (4 <= length (Py.split (u " -- ") (Py.strip raw)))%nat)
    by (vm_compute; lia).
  split; [exact H|].
  exact (generic_line_tail_ignored empty_generic [] raw tail H).
Defined.

(** X15.  Which subway lines are stored.  A line whose stripped text starts
    with the form of the pattern (two ids between braces, a name and a code
    between brackets) and whose first id is within the limit of [int] is
    stored without warning under the value of that id, with that name and
    that code, whatever follows; with a first id beyond the limit it is
    reported as not convertible and not stored; any other line that is not
    blank leaves the dictionary as it is and is reported as not
    matching. *)
Theorem subway_line_accepted t log raw :
  Py.strip raw ≠ [] ->
  (∀ g1 d g2 h rest,
     Py.strip raw = u "{" ++ g1 ++ u "}--{" ++ d ++ u "}--[" ++ g2
                    ++ u "]--[0x" ++ h ++ u "]" ++ rest ->
     token g1 -> token d -> g2 ≠ [] -> forallb not_close g2 = true ->
     h ≠ [] -> forallb ishex h = true ->
     if within_limit g1
     then ∃ id, Py.int g1 = Some id
                ∧ subway_line (t, log) raw
                  = (<[id := mkSubway g2 (u "0x" ++ h)]> t, log)
     else subway_line (t, log) raw
          = (t, log ++ [SubwayBadId (Py.strip raw)]))
  ∧ (¬ subway_form (Py.strip raw) ->
     subway_line (t, log) raw = (t, log ++ [SubwayNoMatch (Py.strip raw)])).
Proof.
  intros Hne. rewrite subway_line_scan.
  assert (E : Py.is_empty (Py.strip raw) = false)
    by (destruct (Py.strip raw); [congruence|reflexivity]).
  rewrite E. split.
  - intros g1 d g2 h rest Hs T1 Td Hg2 Hcls Hh Hhex.
    rewrite Hs.
    change (u "{" ++ g1 ++ u "}--{" ++ d ++ u "}--[" ++ g2 ++ u "]--[0x" ++ h
            ++ u "]" ++ rest)
      with ([123] ++ g1 ++ [125; 45; 45; 123] ++ d ++ [125; 45; 45; 91] ++ g2
            ++ [93; 45; 45; 91] ++ [48; 120] ++ h ++ [93] ++ rest).
    rewrite subway_scan_intro by assumption.
    destruct (within_limit g1) eqn:El.
    + destruct (int_token g1 T1 El) as (n & Hn & _). rewrite Hn.
      exists n. split; reflexivity.
    + now rewrite (int_token_overlong g1 T1 El).
  - intros Hform.
    destruct (subway_scan (Py.strip raw)) as [[[[g1 g2] g3] rest]|] eqn:Es;
      [|reflexivity].
    destruct Hform.
    destruct (subway_scan_inv _ _ _ _ _ Es)
      as (d & h & Hs & T1 & Td & Hg2 & Hcls & Hh & Hhex & _).
    exists g1, d, g2, h, rest.
    split; [exact Hs|]. split; [exact T1|]. split; [exact Td|].
    split; [exact Hg2|]. split; [exact Hcls|]. now split.
Qed.

(** A line of the table with a comment after the record, and the comment
    line above it. *)
Lemma subway_line_accepted_record :
  let raw := u "  {501}--{0}--[金色涂装]--[0xFFD700], // gold" ++ [10] in
  let header := u "// skins" ++ [10] in
  (Py.strip raw ≠ [] ∧ Py.strip header ≠ [] ∧ within_limit (u "501") = true
   ∧ ¬ subway_form (Py.strip header))
  ∧ (∃ id, Py.int (u "501") = Some id
           ∧ subway_line (∅, []) raw
             = (<[id := mkSubway (u "金色涂装") (u "0x" ++ u "FFD700")]> ∅,
                []))
  ∧ subway_line (∅, []) header
    = (∅, [] ++ [SubwayNoMatch (Py.strip header)]).
Proof.
  intros raw header.
  assert (Hraw : Py.strip raw ≠ []) by (vm_compute; discriminate).
  assert (Hheader : Py.strip header ≠ []) by (vm_compute; discriminate).
  assert (Hlim : within_limit (u "501") = true) by reflexivity.
  assert (Hform : ¬ subway_form (Py.strip header)).
  { intros (g1 & d & g2 & h & rest & Hs & _). vm_compute in Hs.
    discriminate. }
  split; [repeat split; assumption|]. split.
  - destruct (subway_line_accepted ∅ [] raw Hraw) as [Hacc _].
    specialize (Hacc (u "501") (u "0") (u "金色涂装") (u "FFD700")
                     (u ", // gold")).
    rewrite Hlim in Hacc. apply Hacc.
    + vm_compute. reflexivity.
    + split; [discriminate|reflexivity].
    + split; [discriminate|reflexivity].
    + discriminate.
    + reflexivity.
    + discriminate.
    + reflexivity.
  - destruct (subway_line_accepted ∅ [] header Hheader) as [_ Hrej].
    exact (Hrej Hform).
Defined.

(** ** Table files put end to end *)

Lemma generic_line_strip_eq st raw raw' :
  Py.strip raw = Py.strip raw' -> generic_line st raw = generic_line st raw'.
Proof. intros H. destruct st. unfold generic_line. now rewrite H. Qed.

Lemma subway_line_strip_eq st raw raw' :
  Py.strip raw = Py.strip raw' -> subway_line st raw = subway_line st raw'.
Proof. intros H. destruct st. unfold subway_line. now rewrite H. Qed.

Lemma generic_line_blank st raw : Py.strip raw = [] -> generic_line st raw = st.
Proof. intros H. destruct st. unfold generic_line. now rewrite H. Qed.

Lemma subway_line_blank st raw : Py.strip raw = [] -> subway_line st raw = st.
Proof. intros H. destruct st. unfold subway_line. now rewrite H. Qed.

(** The loop over the lines of two texts joined by a line feed is the loop
    over the second after the loop over the first, for a loop body that
    reads its line stripped and skips blank lines. *)
Lemma fold_lines_app {S} (step : S -> list N -> S) :
  (∀ st raw raw', Py.strip raw = Py.strip raw' -> step st raw = step st raw') ->
  (∀ st raw, Py.strip raw = [] -> step st raw = st) ->
  ∀ a b cur st,
    fold_left step (iter_lines cur (a ++ 10 :: b)) st
    = fold_left step (iter_lines [] b) (fold_left step (iter_lines cur a) st).
Proof.
  intros Hstrip Hblank a b. induction a as [|c a IH]; intros cur st.
  - cbn [app iter_lines N.eqb Pos.eqb fold_left].
    f_equal. destruct cur as [|x cur].
    + now apply Hblank.
    + cbn [Py.flush fold_left]. apply Hstrip.
      change (rev (10 :: x :: cur)) with (rev (x :: cur) ++ [10]).
      now apply strip_app_space.
  - cbn [app iter_lines]. destruct (c =? 10); [|apply IH].
    cbn [fold_left]. apply IH.
Qed.

(** What a generic line does to the dictionaries does not depend on what
    they hold. *)
Lemma generic_line_union t log raw :
  let r := generic_line (empty_generic, []) raw in
  generic_line (t, log) raw
  = (mkGeneric (parsed_items r.1 ∪ parsed_items t)
               (main_weapons r.1 ∪ main_weapons t)
               (sub_to_main r.1 ∪ sub_to_main t),
     log ++ r.2).
Proof.
  unfold generic_line.
  assert (Hsame : (mkGeneric (∅ ∪ parsed_items t) (∅ ∪ main_weapons t)
                             (∅ ∪ sub_to_main t)) = t).
  { destruct t. cbn. now rewrite !(left_id_L ∅ (∪)). }
  destruct (Py.is_empty _);
    [cbn [fst snd empty_generic parsed_items main_weapons sub_to_main];
     now rewrite Hsame, app_nil_r|].
  destruct (_ <? _)%nat;
    [cbn [fst snd empty_generic parsed_items main_weapons sub_to_main];
     now rewrite Hsame|].
  destruct (Py.int _) as [id1|];
    [|cbn [fst snd empty_generic parsed_items main_weapons sub_to_main];
      now rewrite Hsame].
  destruct (Py.int _) as [id2|];
    [|cbn [fst snd empty_generic parsed_items main_weapons sub_to_main];
      now rewrite Hsame].
  cbn [fst snd empty_generic parsed_items main_weapons sub_to_main].
  rewrite app_nil_r. f_equal.
  destruct (is_main _);
    rewrite !insert_empty, <- !insert_union_singleton_l,
      ?(left_id_L ∅ (∪)); reflexivity.
Qed.

Lemma generic_fold_union lines st :
  let r := fold_left generic_line lines (empty_generic, []) in
  fold_left generic_line lines st
  = (mkGeneric (parsed_items r.1 ∪ parsed_items st.1)
               (main_weapons r.1 ∪ main_weapons st.1)
               (sub_to_main r.1 ∪ sub_to_main st.1),
     st.2 ++ r.2).
Proof.
  induction lines as [|raw lines IH] using rev_ind.
  - destruct st as [[i m s] log]. cbn.
    now rewrite !(left_id_L ∅ (∪)), app_nil_r.
  - cbn zeta in *. rewrite !fold_left_app. cbn [fold_left]. rewrite IH.
    destruct (fold_left generic_line lines (empty_generic, [])) as [tr lr].
    rewrite (generic_line_union _ (st.2 ++ lr) raw).
    rewrite (generic_line_union tr lr raw).
    destruct (generic_line (empty_generic, []) raw) as [d l].
    cbn [fst snd parsed_items main_weapons sub_to_main].
    now rewrite !(assoc_L (∪)), app_assoc.
Qed.

Lemma subway_line_union t log raw :
  let r := subway_line (∅, []) raw in
  subway_line (t, log) raw = (r.1 ∪ t, log ++ r.2).
Proof.
  unfold subway_line.
  destruct (Py.is_empty _);
    [cbn [fst snd]; now rewrite (left_id_L ∅ (∪)), app_nil_r|].
  destruct (Re.match_ _ _) as [m|];
    [|cbn [fst snd]; now rewrite (left_id_L ∅ (∪))].
  destruct (Py.int _) as [item_id|];
    [|cbn [fst snd]; now rewrite (left_id_L ∅ (∪))].
  cbn [fst snd].
  now rewrite insert_empty, <- insert_union_singleton_l, app_nil_r.
Qed.

Lemma subway_fold_union lines st :
  let r := fold_left subway_line lines (∅, []) in
  fold_left subway_line lines st = (r.1 ∪ st.1, st.2 ++ r.2).
Proof.
  induction lines as [|raw lines IH] using rev_ind.
  - destruct st as [t log]. cbn.
    now rewrite (left_id_L ∅ (∪)), app_nil_r.
  - cbn zeta in *. rewrite !fold_left_app. cbn [fold_left]. rewrite IH.
    destruct (fold_left subway_line lines (∅, [])) as [tr lr].
    rewrite (subway_line_union _ (st.2 ++ lr) raw).
    rewrite (subway_line_union tr lr raw).
    destruct (subway_line (∅, []) raw) as [d l].
    cbn [fst snd].
    now rewrite !(assoc_L (∪)), app_assoc.
Qed.

(** X16.  Two generic tables put end to end, a line feed between them, are
    parsed to the dictionaries of the second updated over those of the
    first, so that for an id both hold the record of the second counts; the
    warnings are those of the first followed by those of the second. *)
Theorem generic_tables_appended a b p e ta la tb lb :
  parse_generic_code_table (table_file a) p e = (Returns ta, la) ->
  parse_generic_code_table (table_file b) p e = (Returns tb, lb) ->
  parse_generic_code_table (table_file (a ++ 10 :: b)) p e
  = (Returns (mkGeneric (parsed_items tb ∪ parsed_items ta)
                        (main_weapons tb ∪ main_weapons ta)
                        (sub_to_main tb ∪ sub_to_main ta)),
     la ++ lb).
Proof.
  unfold parse_generic_code_table, table_file.
  rewrite (fold_lines_app generic_line generic_line_strip_eq
                          generic_line_blank a b [] (empty_generic, [])).
  rewrite (generic_fold_union (iter_lines [] b)
             (fold_left generic_line (iter_lines [] a) (empty_generic, []))).
  destruct (fold_left generic_line (iter_lines [] a) _) as [ta' la'].
  destruct (fold_left generic_line (iter_lines [] b) _) as [tb' lb'].
  intros Ha Hb. injection Ha as <- <-. injection Hb as <- <-.
  reflexivity.
Qed.

Lemma generic_tables_appended_override :
  let a := u "1 -- 101 -- AK47 -- x" in
  let b := lines_text [u "101 -- 201 -- AK47弹匣 -- x";
                       u "2 -- 101 -- M416 -- x"] in
  let ta := mkGeneric {[101%Z := mkItem (u "AK47") MainWeapon None]}
                      {[101%Z := u "AK47"]} ∅ in
  let tb := mkGeneric
              (<[101%Z := mkItem (u "M416") MainWeapon None]>
                 {[201%Z := mkItem (u "AK47弹匣") Magazine (Some 101%Z)]})
              {[101%Z := u "M416"]} {[201%Z := 101%Z]} in
  (parse_generic_code_table (table_file a) code_table_path utf_8
   = (Returns ta, [])
   ∧ parse_generic_code_table (table_file b) code_table_path utf_8
     = (Returns tb, []))
  ∧ parse_generic_code_table (table_file (a ++ 10 :: b)) code_table_path utf_8
    = (Returns (mkGeneric (parsed_items tb ∪ parsed_items ta)
                          (main_weapons tb ∪ main_weapons ta)
                          (sub_to_main tb ∪ sub_to_main ta)),
       [] ++ []).
Proof.
  intros a b ta tb.
  assert (H : parse_generic_code_table (table_file a) code_table_path utf_8
              = (Returns ta, [])
              ∧ parse_generic_code_table (table_file b) code_table_path utf_8
                = (Returns tb, []))
    by (split; vm_compute; reflexivity).
  split; [exact H|]. destruct H as [Ha Hb].
  exact (generic_tables_appended a b _ _ ta [] tb [] Ha Hb).
Defined.

(** X17.  Two subway tables put end to end, a line feed between them, are
    parsed to the dictionary of the second updated over that of the first,
    with the warnings of the first followed by those of the second. *)
Theorem subway_tables_appended a b p e sa la sb lb :
  parse_subway_code_table_file (table_file a) p e = (Returns sa, la) ->
  parse_subway_code_table_file (table_file b) p e = (Returns sb, lb) ->
  parse_subway_code_table_file (table_file (a ++ 10 :: b)) p e
  = (Returns (sb ∪ sa), la ++ lb).
Proof.
  unfold parse_subway_code_table_file, table_file.
  rewrite (fold_lines_app subway_line subway_line_strip_eq
                          subway_line_blank a b [] (∅, [])).
  rewrite (subway_fold_union (iter_lines [] b)
             (fold_left subway_line (iter_lines [] a) (∅, []))).
  destruct (fold_left subway_line (iter_lines [] a) _) as [sa' la'].
  destruct (fold_left subway_line (iter_lines [] b) _) as [sb' lb'].
  intros Ha Hb. injection Ha as <- <-. injection Hb as <- <-.
  reflexivity.
Qed.

Lemma subway_tables_appended_override :
  let a := lines_text [u "{501}--{0}--[gold]--[0xFFD700]"; u "// old"] in
  let b := u "{501}--{1}--[red]--[0xFF0000]" in
  let sa := {[501%Z := mkSubway (u "gold") (u "0xFFD700")]} in
  let sb := {[501%Z := mkSubway (u "red") (u "0xFF0000")]} in
  (parse_subway_code_table_file (table_file a) subway_code_table_path utf_8
   = (Returns sa, [SubwayNoMatch (u "// old")])
   ∧ parse_subway_code_table_file (table_file b) subway_code_table_path utf_8
     = (Returns sb, []))
  ∧ parse_subway_code_table_file (table_file (a ++ 10 :: b))
                                 subway_code_table_path utf_8
    = (Returns (sb ∪ sa), [SubwayNoMatch (u "// old")] ++ []).
Proof.
  intros a b sa sb.
  assert (H : parse_subway_code_table_file (table_file a)
                                           subway_code_table_path utf_8
              = (Returns sa, [SubwayNoMatch (u "// old")])
              ∧ parse_subway_code_table_file (table_file b)
                                             subway_code_table_path utf_8
                = (Returns sb, []))
    by (split; vm_compute; reflexivity).
  split; [exact H|]. destruct H as [Ha Hb].
  exact (subway_tables_appended a b _ _ sa _ sb [] Ha Hb).
Defined.

(** ** Lines with the same id *)

Lemma generic_line_stored t log raw id1 id2 :
  (4 <= length (generic_fields raw))%nat ->
  Py.int (nth 0 (generic_fields raw) []) = Some id1 ->
  Py.int (nth 1 (generic_fields raw) []) = Some id2 ->
  let name := nth 2 (generic_fields raw) [] in
  parsed_items (generic_line (t, log) raw).1 !! id2
  = Some (mkItem name (classify name)
                 (if is_main (classify name) then None else Some id1)).
Proof.
  intros Hlen H1 H2 name. unfold generic_line.
  fold (generic_fields raw).
  destruct (Py.is_empty (Py.strip raw)) eqn:E.
  { unfold generic_fields in Hlen.
    destruct (Py.strip raw); [simpl in Hlen; lia|discriminate]. }
  destruct (length (generic_fields raw) <? 4)%nat eqn:E4;
    [apply Nat.ltb_lt in E4; lia|].
  rewrite H1, H2. cbn [fst parsed_items]. apply lookup_insert_eq.
Qed.

Lemma generic_line_other t log raw id :
  Py.int (nth 1 (generic_fields raw) []) ≠ Some id ->
  parsed_items (generic_line (t, log) raw).1 !! id = parsed_items t !! id.
Proof.
  intros Hid. unfold generic_line. fold (generic_fields raw).
  destruct (Py.is_empty _); [reflexivity|].
  destruct (_ <? _)%nat; [reflexivity|].
  destruct (Py.int (nth 0 _ _)) as [id1|]; [|reflexivity].
  destruct (Py.int (nth 1 _ _)) as [id2|]; [|reflexivity].
  cbn [fst parsed_items]. apply lookup_insert_ne. congruence.
Qed.

Lemma generic_fold_other lines st id :
  Forall (fun l => Py.int (nth 1 (generic_fields l) []) ≠ Some id) lines ->
  parsed_items (fold_left generic_line lines st).1 !! id
  = parsed_items st.1 !! id.
Proof.
  intros H. revert st.
  induction H as [|l lines Hl _ IH]; intros [t log]; [reflexivity|].
  cbn [fold_left]. rewrite IH.
  destruct (generic_line (t, log) l) as [t' log'] eqn:E.
  cbn [fst]. change t' with (t', log').1. rewrite <- E.
  now apply generic_line_other.
Qed.

(** The record under an id is that of the last line that carries it. *)
Lemma last_line_stored open_file text failure before raw after id1 id2 :
  open_file code_table_path utf_8 = Reads text failure ->
  iter_lines [] text = before ++ raw :: after ->
  (4 <= length (generic_fields raw))%nat ->
  Py.int (nth 0 (generic_fields raw) []) = Some id1 ->
  Py.int (nth 1 (generic_fields raw) []) = Some id2 ->
  Forall (fun l => Py.int (nth 1 (generic_fields l) []) ≠ Some id2) after ->
  let name := nth 2 (generic_fields raw) [] in
  item_dict (loaded open_file) !! id2
  = Some (mkItem name (classify name)
                 (if is_main (classify name) then None else Some id1)).
Proof.
  intros Hopen Hlines Hlen H1 H2 Hafter name.
  destruct (load_code_table_lines open_file) as (log & Hload).
  rewrite Hopen, Hlines in Hload.
  unfold loaded. rewrite Hload. cbn [fst item_dict].
  rewrite fold_left_app. cbn [fold_left].
  rewrite generic_fold_other by exact Hafter.
  destruct (fold_left generic_line before _) as [t0 log0].
  now apply generic_line_stored.
Qed.

(** X18.  Of the lines of the generic table that carry the same id the last
    one counts: when a line with four fields and two integer ids is
    followed by no line whose second field is that id, the dictionary the
    loader leaves holds its record under the id, and the lookup of the id
    answers its name. *)
Theorem last_line_counts open_file text failure before raw after id1 id2 :
  open_file code_table_path utf_8 = Reads text failure ->
  iter_lines [] text = before ++ raw :: after ->
  (4 <= length (generic_fields raw))%nat ->
  Py.int (nth 0 (generic_fields raw) []) = Some id1 ->
  Py.int (nth 1 (generic_fields raw) []) = Some id2 ->
  Forall (fun l => Py.int (nth 1 (generic_fields l) []) ≠ Some id2) after ->
  let name := nth 2 (generic_fields raw) [] in
  let g := loaded open_file in
  item_dict g !! id2
  = Some (mkItem name (classify name)
                 (if is_main (classify name) then None else Some id1))
  ∧ resolve g id2 = name.
Proof.
  intros Hopen Hlines Hlen H1 H2 Hafter name g.
  pose proof (last_line_stored open_file text failure before raw after
                               id1 id2 Hopen Hlines Hlen H1 H2 Hafter)
    as Hitem.
  split; [exact Hitem|].
  unfold resolve. fold g in Hitem. now rewrite Hitem.
Qed.

Lemma last_line_counts_renamed :
  let text := lines_text [u "1 -- 101 -- AK47 -- x";
                          u "1 -- 101 -- AK47步枪 -- x";
                          u "101 -- 201 -- AK47弹匣 -- x"] in
  let open_file := table_file text in
  let raw := u "1 -- 101 -- AK47步枪 -- x" ++ [10] in
  let before := [u "1 -- 101 -- AK47 -- x" ++ [10]] in
  let after := [u "101 -- 201 -- AK47弹匣 -- x"] in
  (open_file code_table_path utf_8 = Reads text None
   ∧ iter_lines [] text = before ++ raw :: after
   ∧ (4 <= length (generic_fields raw))%nat
   ∧ Py.int (nth 0 (generic_fields raw) []) = Some 1%Z
   ∧ Py.int (nth 1 (generic_fields raw) []) = Some 101%Z
   ∧ Forall (fun l => Py.int (nth 1 (generic_fields l) []) ≠ Some 101%Z)
            after)
  ∧ let name := nth 2 (generic_fields raw) [] in
    let g := loaded open_file in
    item_dict g !! 101%Z
    = Some (mkItem name (classify name)
                   (if is_main (classify name) then None else Some 1%Z))
    ∧ resolve g 101 = name.
Proof.
  intros text open_file raw before after.
  assert (H : open_file code_table_path utf_8 = Reads text None
              ∧ iter_lines [] text = before ++ raw :: after
              ∧ (4 <= length (generic_fields raw))%nat
              ∧ Py.int (nth 0 (generic_fields raw) []) = Some 1%Z
              ∧ Py.int (nth 1 (generic_fields raw) []) = Some 101%Z
              ∧ Forall (fun l => Py.int (nth 1 (generic_fields l) [])
                                 ≠ Some 101%Z) after).
  { split; [reflexivity|]. split; [vm_compute; reflexivity|].
    split; [vm_compute; lia|]. split; [vm_compute; reflexivity|].
    split; [vm_compute; reflexivity|].
    constructor; [vm_compute; discriminate|constructor]. }
  split; [exact H|]. destruct H as (H0 & H1 & H2 & H3 & H4 & H5).
  exact (last_line_counts open_file text None before raw after 1 101
                          H0 H1 H2 H3 H4 H5).
Defined.

(** ** From the table file to the annotated line *)

Lemma strip_token t : token t -> Py.strip t = t.
Proof.
  intros Ht. destruct (token_head t Ht) as (c & r & -> & Hc).
  destruct (token_last _ Ht) as (x & a & Hrev & Hx).
  rewrite strip_nonspace_head by now apply digit_not_space.
  assert (Hsplit : c :: r = rev a ++ [x]).
  { rewrite <- (rev_involutive (c :: r)), Hrev. reflexivity. }
  rewrite Hsplit.
  rewrite rstrip_app_nonspace by now apply digit_not_space.
  now rewrite rstrip_nil.
Qed.

(** A line that is one id, under an index whose names are stripped. *)
Lemma annotate_line_token g ds n :
  tidy g -> token ds -> Py.int ds = Some n ->
  annotate_line g ds
  = Py.str_int n
    ++ (if Py.is_empty (resolve g n) then [] else u " #" ++ resolve g n).
Proof.
  intros Htidy Hds Hint.
  assert (Hlead : leading_ids (Py.strip ds) = Some (ds, [])).
  { rewrite strip_token by exact Hds.
    pose proof (leading_ids_canonical ds [] [] Hds ltac:(constructor)
                                      ltac:(now left)) as H.
    cbn [more_ids flat_map] in H. now rewrite !app_nil_r in H. }
  pose proof (annotate_line_run g ds ds [] Hlead Hds) as H.
  destruct (int_token_Some ds n Hds Hint) as [Hlim Hconv].
  rewrite Hlim in H. destruct H as (m & Hm & _ & ->).
  assert (m = n) as -> by congruence.
  rewrite <- (app_nil_r (Py.str_int n)) at 1.
  rewrite (output_shape (Py.str_int n) []) by
      (try apply str_int_token; try apply Hconv; auto).
  rewrite resolve_rstrip by exact Htidy.
  cbn [more_ids flat_map app]. reflexivity.
Qed.

(** X19.  From the table file to the output.  When the generic table holds
    a line with four fields, two integer ids and a name that is not empty,
    followed by no line whose second field is the same id, an input line
    that is this id, written with any digits, comes out as the id in
    decimal, a blank, a number sign and the name. *)
Theorem table_line_annotates open_file text failure before raw after id1 id2
        ds :
  open_file code_table_path utf_8 = Reads text failure ->
  iter_lines [] text = before ++ raw :: after ->
  (4 <= length (generic_fields raw))%nat ->
  Py.int (nth 0 (generic_fields raw) []) = Some id1 ->
  Py.int (nth 1 (generic_fields raw) []) = Some id2 ->
  Forall (fun l => Py.int (nth 1 (generic_fields l) []) ≠ Some id2) after ->
  nth 2 (generic_fields raw) [] ≠ [] ->
  token ds -> Py.int ds = Some id2 ->
  annotate_line (loaded open_file) ds
  = Py.str_int id2 ++ u " #" ++ nth 2 (generic_fields raw) [].
Proof.
  intros Hopen Hlines Hlen H1 H2 Hafter Hname Hds Hint.
  pose proof (last_line_stored open_file text failure before raw after
                               id1 id2 Hopen Hlines Hlen H1 H2 Hafter)
    as Hitem.
  rewrite (annotate_line_token _ ds id2 (loaded_tidy open_file) Hds Hint).
  unfold resolve. rewrite Hitem. cbn [item_name].
  destruct (nth 2 (generic_fields raw) []); [congruence|reflexivity].
Qed.

Lemma table_line_annotates_magazine :
  let text := lines_text [u "1 -- 101 -- AK47步枪 -- x";
                          u "101 -- 201 -- AK47弹匣 -- x"] in
  let open_file := table_file text in
  let raw := u "101 -- 201 -- AK47弹匣 -- x" in
  let before := [u "1 -- 101 -- AK47步枪 -- x" ++ [10]] in
  (open_file code_table_path utf_8 = Reads text None
   ∧ iter_lines [] text = before ++ raw :: []
   ∧ (4 <= length (generic_fields raw))%nat
   ∧ Py.int (nth 0 (generic_fields raw) []) = Some 101%Z
   ∧ Py.int (nth 1 (generic_fields raw) []) = Some 201%Z
   ∧ Forall (fun l => Py.int (nth 1 (generic_fields l) []) ≠ Some 201%Z) []
   ∧ nth 2 (generic_fields raw) [] ≠ []
   ∧ token (u "0201") ∧ Py.int (u "0201") = Some 201%Z)
  ∧ annotate_line (loaded open_file) (u "0201")
    = Py.str_int 201 ++ u " #" ++ nth 2 (generic_fields raw) [].
Proof.
  intros text open_file raw before.
  assert (H : open_file code_table_path utf_8 = Reads text None
              ∧ iter_lines [] text = before ++ raw :: []
              ∧ (4 <= length (generic_fields raw))%nat
              ∧ Py.int (nth 0 (generic_fields raw) []) = Some 101%Z
              ∧ Py.int (nth 1 (generic_fields raw) []) = Some 201%Z
              ∧ Forall (fun l => Py.int (nth 1 (generic_fields l) [])
                                 ≠ Some 201%Z) []
              ∧ nth 2 (generic_fields raw) [] ≠ []
              ∧ token (u "0201") ∧ Py.int (u "0201") = Some 201%Z).
  { split; [reflexivity|]. split; [vm_compute; reflexivity|].
    split; [vm_compute; lia|]. split; [vm_compute; reflexivity|].
    split; [vm_compute; reflexivity|]. split; [constructor|].
    split; [vm_compute; discriminate|].
    split; [split; [discriminate|reflexivity]|vm_compute; reflexivity]. }
  split; [exact H|].
  destruct H as (H0 & H1 & H2 & H3 & H4 & H5 & H6 & H7 & H8).
  exact (table_line_annotates open_file text None before raw [] 101 201
                              (u "0201") H0 H1 H2 H3 H4 H5 H6 H7 H8).
Defined.
